(** * Gun.ts: ammo ledger, effect pool, firing state machine and hand-off

    A shallow embedding of the [Gun] component (src/Gun.ts).

    Conventions of the embedding.
    - Ammo counts, burst counts and timer delays are JavaScript numbers that
      the component only ever adds, subtracts and compares; they are
      modelled as [Z].  Distances, speeds and durations of the launch
      primitive are modelled as [Q].
    - The component lives on a single-threaded event loop.  Every entry
      point (an input callback, a timer callback, a network event) is a
      function on the component state; what it sends to the outside world is
      appended to an effect log kept in the state.
    - A timer handle stored in a field is modelled by [Some] of the delay it
      was registered with ([None] is [undefined]); handles are assumed to be
      truthy, as the source's [if(this.reloadTimer)] tests assume.
    - Reading [xs[i].fx] with [i] outside [xs] raises a TypeError in
      JavaScript; functions that can reach such a read live in the small
      monad [M], whose [Throw] keeps the state mutated so far. *)

From Stdlib Require Import ZArith QArith Bool List Lia.
Import ListNotations.
Local Open Scope Z_scope.

(** ** Data model *)

Definition ParticleGizmo := nat.
Definition Target := nat.
Definition Vec3 : Type := (Q * Q * Q)%type.

(** [type FXList = { fx: hz.ParticleGizmo[] }] *)
Record FXList := { fx : list ParticleGizmo }.

(** [type GunState], the snapshot carried across an ownership transfer. *)
Record GunState := {
  st_loadedAmmo : Z;
  st_reserveAmmo : Z;
  st_impactFX : list FXList;
  st_missFX : list FXList;
}.

Inductive PlayerDeviceType := VR | Desktop | Mobile.

Inductive RaycastTargetType := TargetPlayer | TargetEntity | TargetStatic.

(** [hz.RaycastHit], as far as the component reads it. *)
Record RaycastHit := {
  targetType : RaycastTargetType;
  target : Target;
  hitPoint : Vec3;
}.

(** What the engine answers when a shot is resolved: the [GunRaycastHit]
    built by [getRaycastHit] / [getRaycastHitVR] (random spray included) and
    the two engine computations [fireWithRaycast] makes on it. *)
Record RaycastOutcome := {
  hit : option RaycastHit;
  hitPos : Vec3;
  sprayAngle : Q * Q;         (* degrees, (x, y) *)
  sprayApproxZero : bool;     (* sprayAngle.equalsApprox(Vec3.zero, 0.001) *)
  launcherDistance : Q;       (* hitPos.sub(launcher.position).magnitude() *)
}.

(** [static propsDefinition], the fields the firing logic reads. *)
Record Props := {
  attackRate : Z;
  damage : Z;
  autoAttack : bool;
  range : Q;
  ammoPerFire : Z;
  clipSize : Z;
  maxAmmo : Z;
  startingAmmo : Z;
  startingReserveAmmo : Z;
  autoReload : bool;
  bulletBurstPerFire : Z;
  bulletBurstDelay : Z;
  assetSpawner : bool;        (* is the entity set *)
  raycaster : bool;
  projectileLauncher : bool;
  projectileSpeed : Q;
}.

(** The two callbacks that are stored in [reloadTimer]. *)
Inductive ReloadCallback :=
| AutoReloadDue      (* finishFiring: after 500 ms, call triggerReload *)
| ReloadWindowEnd.   (* triggerReload: after 1000 ms, clear the handle *)

(** Everything the component sends out. *)
Inductive Effect :=
| LoadedAmmoChanged (current previous : Z)
| ReserveAmmoChanged (current previous : Z)
| FxStop (e : ParticleGizmo)               (* if(fx.exists()) fx.stop() *)
| FxPlayAt (pos : Vec3) (e : ParticleGizmo)
| OutOfAmmoSFX
| Fired                                    (* muzzleFX?.play(); fireSFX?.play() *)
| ShellFX
| FireAnimation
| LauncherRotation (xDeg yDeg : Q)
| Launch (speed duration : Q) (deferred : bool)  (* deferred: setTimeout(.., 1) *)
| TakeDamage (to : Target) (amount : Z) (at_ : Vec3)
| DespawnAssets (roots : list ParticleGizmo)
| SetPropOwners
| SetOwningPlayer
| ReloadSFX.

(** The mutable fields of the component, plus the effect log (newest first). *)
Record Gun := {
  impactFX : list FXList;
  missFX : list FXList;
  nextImpactFXIdx : Z;
  nextMissFXIdx : Z;
  attackCooldown : bool;
  attackCooldownTimer : option Z;
  reloadTimer : option (Z * ReloadCallback);
  autoAttackTimer : option Z;
  fireDelay : option Z;
  bulletBurstTimer : option Z;
  currentBurstCount : Z;
  _loadedAmmo : Z;
  _reserveAmmo : Z;
  log : list Effect;
}.

(** Field initialisers of the class. *)
Definition newGun : Gun := {|
  impactFX := []; missFX := []; nextImpactFXIdx := 0; nextMissFXIdx := 0;
  attackCooldown := false; attackCooldownTimer := None; reloadTimer := None;
  autoAttackTimer := None; fireDelay := None; bulletBurstTimer := None;
  currentBurstCount := 0; _loadedAmmo := 0; _reserveAmmo := 0; log := [] |}.

(** *** Field assignment *)

Definition with_impactFX (v : list FXList) (g : Gun) : Gun :=
  {| impactFX := v; missFX := missFX g; nextImpactFXIdx := nextImpactFXIdx g;
     nextMissFXIdx := nextMissFXIdx g; attackCooldown := attackCooldown g;
     attackCooldownTimer := attackCooldownTimer g; reloadTimer := reloadTimer g;
     autoAttackTimer := autoAttackTimer g; fireDelay := fireDelay g;
     bulletBurstTimer := bulletBurstTimer g;
     currentBurstCount := currentBurstCount g; _loadedAmmo := _loadedAmmo g;
     _reserveAmmo := _reserveAmmo g; log := log g |}.

Definition with_missFX (v : list FXList) (g : Gun) : Gun :=
  {| impactFX := impactFX g; missFX := v; nextImpactFXIdx := nextImpactFXIdx g;
     nextMissFXIdx := nextMissFXIdx g; attackCooldown := attackCooldown g;
     attackCooldownTimer := attackCooldownTimer g; reloadTimer := reloadTimer g;
     autoAttackTimer := autoAttackTimer g; fireDelay := fireDelay g;
     bulletBurstTimer := bulletBurstTimer g;
     currentBurstCount := currentBurstCount g; _loadedAmmo := _loadedAmmo g;
     _reserveAmmo := _reserveAmmo g; log := log g |}.

Definition with_nextImpactFXIdx (v : Z) (g : Gun) : Gun :=
  {| impactFX := impactFX g; missFX := missFX g; nextImpactFXIdx := v;
     nextMissFXIdx := nextMissFXIdx g; attackCooldown := attackCooldown g;
     attackCooldownTimer := attackCooldownTimer g; reloadTimer := reloadTimer g;
     autoAttackTimer := autoAttackTimer g; fireDelay := fireDelay g;
     bulletBurstTimer := bulletBurstTimer g;
     currentBurstCount := currentBurstCount g; _loadedAmmo := _loadedAmmo g;
     _reserveAmmo := _reserveAmmo g; log := log g |}.

Definition with_nextMissFXIdx (v : Z) (g : Gun) : Gun :=
  {| impactFX := impactFX g; missFX := missFX g;
     nextImpactFXIdx := nextImpactFXIdx g; nextMissFXIdx := v;
     attackCooldown := attackCooldown g;
     attackCooldownTimer := attackCooldownTimer g; reloadTimer := reloadTimer g;
     autoAttackTimer := autoAttackTimer g; fireDelay := fireDelay g;
     bulletBurstTimer := bulletBurstTimer g;
     currentBurstCount := currentBurstCount g; _loadedAmmo := _loadedAmmo g;
     _reserveAmmo := _reserveAmmo g; log := log g |}.

Definition with_attackCooldown (v : bool) (g : Gun) : Gun :=
  {| impactFX := impactFX g; missFX := missFX g;
     nextImpactFXIdx := nextImpactFXIdx g; nextMissFXIdx := nextMissFXIdx g;
     attackCooldown := v;
     attackCooldownTimer := attackCooldownTimer g; reloadTimer := reloadTimer g;
     autoAttackTimer := autoAttackTimer g; fireDelay := fireDelay g;
     bulletBurstTimer := bulletBurstTimer g;
     currentBurstCount := currentBurstCount g; _loadedAmmo := _loadedAmmo g;
     _reserveAmmo := _reserveAmmo g; log := log g |}.

Definition with_attackCooldownTimer (v : option Z) (g : Gun) : Gun :=
  {| impactFX := impactFX g; missFX := missFX g;
     nextImpactFXIdx := nextImpactFXIdx g; nextMissFXIdx := nextMissFXIdx g;
     attackCooldown := attackCooldown g;
     attackCooldownTimer := v; reloadTimer := reloadTimer g;
     autoAttackTimer := autoAttackTimer g; fireDelay := fireDelay g;
     bulletBurstTimer := bulletBurstTimer g;
     currentBurstCount := currentBurstCount g; _loadedAmmo := _loadedAmmo g;
     _reserveAmmo := _reserveAmmo g; log := log g |}.

Definition with_reloadTimer (v : option (Z * ReloadCallback)) (g : Gun) : Gun :=
  {| impactFX := impactFX g; missFX := missFX g;
     nextImpactFXIdx := nextImpactFXIdx g; nextMissFXIdx := nextMissFXIdx g;
     attackCooldown := attackCooldown g;
     attackCooldownTimer := attackCooldownTimer g; reloadTimer := v;
     autoAttackTimer := autoAttackTimer g; fireDelay := fireDelay g;
     bulletBurstTimer := bulletBurstTimer g;
     currentBurstCount := currentBurstCount g; _loadedAmmo := _loadedAmmo g;
     _reserveAmmo := _reserveAmmo g; log := log g |}.

Definition with_autoAttackTimer (v : option Z) (g : Gun) : Gun :=
  {| impactFX := impactFX g; missFX := missFX g;
     nextImpactFXIdx := nextImpactFXIdx g; nextMissFXIdx := nextMissFXIdx g;
     attackCooldown := attackCooldown g;
     attackCooldownTimer := attackCooldownTimer g; reloadTimer := reloadTimer g;
     autoAttackTimer := v; fireDelay := fireDelay g;
     bulletBurstTimer := bulletBurstTimer g;
     currentBurstCount := currentBurstCount g; _loadedAmmo := _loadedAmmo g;
     _reserveAmmo := _reserveAmmo g; log := log g |}.

Definition with_fireDelay (v : option Z) (g : Gun) : Gun :=
  {| impactFX := impactFX g; missFX := missFX g;
     nextImpactFXIdx := nextImpactFXIdx g; nextMissFXIdx := nextMissFXIdx g;
     attackCooldown := attackCooldown g;
     attackCooldownTimer := attackCooldownTimer g; reloadTimer := reloadTimer g;
     autoAttackTimer := autoAttackTimer g; fireDelay := v;
     bulletBurstTimer := bulletBurstTimer g;
     currentBurstCount := currentBurstCount g; _loadedAmmo := _loadedAmmo g;
     _reserveAmmo := _reserveAmmo g; log := log g |}.

Definition with_bulletBurstTimer (v : option Z) (g : Gun) : Gun :=
  {| impactFX := impactFX g; missFX := missFX g;
     nextImpactFXIdx := nextImpactFXIdx g; nextMissFXIdx := nextMissFXIdx g;
     attackCooldown := attackCooldown g;
     attackCooldownTimer := attackCooldownTimer g; reloadTimer := reloadTimer g;
     autoAttackTimer := autoAttackTimer g; fireDelay := fireDelay g;
     bulletBurstTimer := v;
     currentBurstCount := currentBurstCount g; _loadedAmmo := _loadedAmmo g;
     _reserveAmmo := _reserveAmmo g; log := log g |}.

Definition with_currentBurstCount (v : Z) (g : Gun) : Gun :=
  {| impactFX := impactFX g; missFX := missFX g;
     nextImpactFXIdx := nextImpactFXIdx g; nextMissFXIdx := nextMissFXIdx g;
     attackCooldown := attackCooldown g;
     attackCooldownTimer := attackCooldownTimer g; reloadTimer := reloadTimer g;
     autoAttackTimer := autoAttackTimer g; fireDelay := fireDelay g;
     bulletBurstTimer := bulletBurstTimer g;
     currentBurstCount := v; _loadedAmmo := _loadedAmmo g;
     _reserveAmmo := _reserveAmmo g; log := log g |}.

Definition with_loadedAmmo (v : Z) (g : Gun) : Gun :=
  {| impactFX := impactFX g; missFX := missFX g;
     nextImpactFXIdx := nextImpactFXIdx g; nextMissFXIdx := nextMissFXIdx g;
     attackCooldown := attackCooldown g;
     attackCooldownTimer := attackCooldownTimer g; reloadTimer := reloadTimer g;
     autoAttackTimer := autoAttackTimer g; fireDelay := fireDelay g;
     bulletBurstTimer := bulletBurstTimer g;
     currentBurstCount := currentBurstCount g; _loadedAmmo := v;
     _reserveAmmo := _reserveAmmo g; log := log g |}.

Definition with_reserveAmmo (v : Z) (g : Gun) : Gun :=
  {| impactFX := impactFX g; missFX := missFX g;
     nextImpactFXIdx := nextImpactFXIdx g; nextMissFXIdx := nextMissFXIdx g;
     attackCooldown := attackCooldown g;
     attackCooldownTimer := attackCooldownTimer g; reloadTimer := reloadTimer g;
     autoAttackTimer := autoAttackTimer g; fireDelay := fireDelay g;
     bulletBurstTimer := bulletBurstTimer g;
     currentBurstCount := currentBurstCount g; _loadedAmmo := _loadedAmmo g;
     _reserveAmmo := v; log := log g |}.

(** Appending to the effect log ([sendLocalEvent], [sendNetworkEvent],
    [play], [launch], ...). *)
Definition emit (e : Effect) (g : Gun) : Gun :=
  {| impactFX := impactFX g; missFX := missFX g;
     nextImpactFXIdx := nextImpactFXIdx g; nextMissFXIdx := nextMissFXIdx g;
     attackCooldown := attackCooldown g;
     attackCooldownTimer := attackCooldownTimer g; reloadTimer := reloadTimer g;
     autoAttackTimer := autoAttackTimer g; fireDelay := fireDelay g;
     bulletBurstTimer := bulletBurstTimer g;
     currentBurstCount := currentBurstCount g; _loadedAmmo := _loadedAmmo g;
     _reserveAmmo := _reserveAmmo g; log := e :: log g |}.

Definition emitAll (es : list Effect) (g : Gun) : Gun :=
  fold_left (fun acc e => emit e acc) es g.

(** *** Calls that may throw *)

Inductive Result (A : Type) :=
| Ok (a : A) (g : Gun)
| Throw (g : Gun).
Arguments Ok {A} a g.
Arguments Throw {A} g.

Definition M (A : Type) := Gun -> Result A.

Definition ret {A} (a : A) : M A := fun g => Ok a g.

Definition bind {A B} (m : M A) (k : A -> M B) : M B :=
  fun g => match m g with
           | Ok a g' => k a g'
           | Throw g' => Throw g'
           end.

(** A statement that cannot throw. *)
Definition exec (f : Gun -> Gun) : M unit := fun g => Ok tt (f g).

Definition stateOf {A} (r : Result A) : Gun :=
  match r with Ok _ g => g | Throw g => g end.

Definition threw {A} (r : Result A) : bool :=
  match r with Ok _ _ => false | Throw _ => true end.

Declare Scope gun_scope.
Delimit Scope gun_scope with gun.
Notation "x <- m ;; k" := (bind m (fun x => k))
  (at level 61, m at next level, right associativity) : gun_scope.
Notation "m ;; k" := (bind m (fun _ => k))
  (at level 61, right associativity) : gun_scope.

(** ** Operations of the component *)

Section Component.

Variable props : Props.
(** [this.entity.owner.get().deviceType.get()] *)
Variable device : PlayerDeviceType.

Local Open Scope gun_scope.

(** *** Ammo ledger *)

Definition loadedAmmo (g : Gun) : Z := _loadedAmmo g.
Definition reserveAmmo (g : Gun) : Z := _reserveAmmo g.

(** [set loadedAmmo(value)] *)
Definition set_loadedAmmo (value : Z) (g : Gun) : Gun :=
  let ammoToGrant := Z.min (Z.max 0 (clipSize props)) value in
  let previous := loadedAmmo g in
  let g := with_loadedAmmo (Z.max 0 ammoToGrant) g in
  if negb (previous =? loadedAmmo g)
  then emit (LoadedAmmoChanged (loadedAmmo g) previous) g
  else g.

(** [set reserveAmmo(value)] *)
Definition set_reserveAmmo (value : Z) (g : Gun) : Gun :=
  let ammoToGrant := Z.min value (Z.max 0 (maxAmmo props) - loadedAmmo g) in
  let previous := reserveAmmo g in
  let g := with_reserveAmmo (Z.max 0 ammoToGrant) g in
  if negb (previous =? reserveAmmo g)
  then emit (ReserveAmmoChanged (reserveAmmo g) previous) g
  else g.

(** [get hasUnlimitedAmmo()] *)
Definition hasUnlimitedAmmo : bool := ammoPerFire props <=? 0.

(** [preStart], after the gizmo casts: seed the ledger from the props. *)
Definition preStart (g : Gun) : Gun :=
  set_reserveAmmo (startingReserveAmmo props)
    (set_loadedAmmo (startingAmmo props) g).

(** *** Effect pool *)

Definition allFX (l : list FXList) : list ParticleGizmo := flat_map fx l.

(** [stopFX(spawnedFX)] *)
Definition stopFX (spawnedFX : list FXList) (g : Gun) : Gun :=
  emitAll (map FxStop (allFX spawnedFX)) g.

(** A JavaScript [Set] of handles, kept in insertion order as [Array.from]
    reads it: [add] and [delete]. *)
Definition setAdd (e : ParticleGizmo) (s : list ParticleGizmo) : list ParticleGizmo :=
  if existsb (Nat.eqb e) s then s else s ++ [e].

Definition setDelete (e : ParticleGizmo) (s : list ParticleGizmo) : list ParticleGizmo :=
  filter (fun x => negb (Nat.eqb x e)) s.

(** [syncFX(spawnedFX, existingFX)]: every handle of [existingFX] is added to
    the set [fxToDespawn], every handle of [spawnedFX] is deleted from it, and
    what is left is sent for despawn; the result is [spawnedFX]. *)
Definition fxToDespawn (spawnedFX existingFX : list FXList) : list ParticleGizmo :=
  let s := fold_left (fun s e => setAdd e s) (allFX existingFX) [] in
  fold_left (fun s e => setDelete e s) (allFX spawnedFX) s.

Definition syncFX (spawnedFX existingFX : list FXList) (g : Gun)
  : list FXList * Gun :=
  let gone := fxToDespawn spawnedFX existingFX in
  (spawnedFX,
   if assetSpawner props && (0 <? Z.of_nat (length gone))
   then emit (DespawnAssets gone) g else g).

(** [GunEvents.syncImpactFX] / [GunEvents.syncMissFX] handlers of [start]. *)
Definition onSyncImpactFX (effects : list FXList) (g : Gun) : Gun :=
  let g := stopFX (impactFX g) g in
  let '(l, g) := syncFX effects (impactFX g) g in
  with_impactFX l g.

Definition onSyncMissFX (effects : list FXList) (g : Gun) : Gun :=
  let g := stopFX (missFX g) g in
  let '(l, g) := syncFX effects (missFX g) g in
  with_missFX l g.

(** JavaScript [a % b] on integers: the sign follows the dividend. *)
Definition js_rem (a b : Z) : Z := Z.rem a b.

(** JavaScript [xs[i]]: [undefined] ([None]) outside [0 .. length-1]. *)
Definition js_index {A} (xs : list A) (i : Z) : option A :=
  if i <? 0 then None else nth_error xs (Z.to_nat i).

(** [getImpactFX()] *)
Definition getImpactFX : M (list ParticleGizmo) := fun g =>
  if Z.of_nat (length (impactFX g)) =? 0 then Ok [] g
  else
    let index := js_rem (nextImpactFXIdx g) (Z.of_nat (length (impactFX g))) in
    let g := with_nextImpactFXIdx (index + 1) g in
    match js_index (impactFX g) index with
    | None => Throw g                       (* undefined.fx *)
    | Some group => Ok (fx group) (emitAll (map FxStop (fx group)) g)
    end.

(** [getMissFX()] *)
Definition getMissFX : M (list ParticleGizmo) := fun g =>
  if Z.of_nat (length (missFX g)) =? 0 then Ok [] g
  else
    let index := js_rem (nextMissFXIdx g) (Z.of_nat (length (missFX g))) in
    let g := with_nextMissFXIdx (index + 1) g in
    match js_index (missFX g) index with
    | None => Throw g
    | Some group => Ok (fx group) (emitAll (map FxStop (fx group)) g)
    end.

(** [triggerFX(position, fx)] *)
Definition triggerFX (position : Vec3) (l : list ParticleGizmo) (g : Gun) : Gun :=
  emitAll (map (FxPlayAt position) l) g.

(** *** Timer resets *)

Definition resetReload (g : Gun) : Gun :=
  match reloadTimer g with
  | Some _ => with_reloadTimer None g
  | None => g
  end.

Definition resetBurst (g : Gun) : Gun :=
  let g := with_currentBurstCount 0 g in
  match bulletBurstTimer g with
  | Some _ => with_bulletBurstTimer None g
  | None => g
  end.

Definition resetAutoAttack (g : Gun) : Gun :=
  match autoAttackTimer g with
  | Some _ => with_autoAttackTimer None g
  | None => g
  end.

(** *** Ownership hand-off *)

(** [receiveOwnership(state, fromPlayer, toPlayer)] *)
Definition receiveOwnership (state : option GunState) (g : Gun) : Gun :=
  match state with
  | Some s =>
      let g := set_loadedAmmo (st_loadedAmmo s) g in
      let g := set_reserveAmmo (st_reserveAmmo s) g in
      let g := with_impactFX (st_impactFX s) g in
      with_missFX (st_missFX s) g
  | None => g
  end.

(** [transferOwnership(oldPlayer, newPlayer)] *)
Definition transferOwnership (g : Gun) : GunState * Gun :=
  let g := emit SetPropOwners g in
  let g := stopFX (impactFX g) g in
  let g := stopFX (missFX g) g in
  let g := if assetSpawner props then emit SetOwningPlayer g else g in
  ({| st_loadedAmmo := loadedAmmo g; st_reserveAmmo := reserveAmmo g;
      st_impactFX := impactFX g; st_missFX := missFX g |}, g).

(** *** Reload *)

(** [triggerReload()] *)
Definition triggerReload (g : Gun) : Gun :=
  match reloadTimer g with
  | Some _ => g
  | None =>
    if hasUnlimitedAmmo then g else
    let reloadAmount := Z.min (clipSize props - loadedAmmo g) (reserveAmmo g) in
    if reloadAmount =? 0 then g else
    if reloadAmount <? ammoPerFire props then g else
    let g := resetBurst g in
    let g := resetAutoAttack g in
    let g := with_reloadTimer (Some (1000, ReloadWindowEnd)) g in
    let g := set_loadedAmmo (loadedAmmo g + reloadAmount) g in
    let g := set_reserveAmmo (reserveAmmo g - reloadAmount) g in
    emit ReloadSFX g
  end.

(** The [GunEvents.grantAmmo] handler installed by [onGrabStart]. *)
Definition onGrantAmmo (amount : Z) (g : Gun) : Gun :=
  let g := set_reserveAmmo (reserveAmmo g + amount) g in
  if (loadedAmmo g <? ammoPerFire props) && autoReload props
  then triggerReload g else g.

(** *** Hit resolution *)

(** [sendDamageEvent(target, locations)] *)
Definition sendDamageEvent (t : Target) (at_ : Vec3) (g : Gun) : Gun :=
  emit (TakeDamage t (damage props) at_) g.

Definition isVR : bool :=
  match device with VR => true | _ => false end.

(** [fireWithRaycast()]; [r] is the [gunHit] the engine produced. *)
Definition fireWithRaycast (r : RaycastOutcome) : M unit :=
  if negb (raycaster props) then ret tt else
  (if negb (projectileLauncher props) then
     match hit r with
     | Some _ => l <- getImpactFX ;; exec (triggerFX (hitPos r) l)
     | None => l <- getMissFX ;; exec (triggerFX (hitPos r) l)
     end
   else
     let distance := launcherDistance r in
     let distance := match hit r with
                     | Some _ => (distance + 4)%Q
                     | None => distance
                     end in
     let duration := (distance / projectileSpeed props)%Q in
     let xDeg := if isVR then fst (sprayAngle r) else (- fst (sprayAngle r))%Q in
     let yDeg := if isVR then snd (sprayAngle r) else (- snd (sprayAngle r))%Q in
     if sprayApproxZero r
     then exec (emit (Launch (projectileSpeed props) duration false))
     else exec (fun g =>
            emit (Launch (projectileSpeed props) duration true)
                 (emit (LauncherRotation xDeg yDeg) g))) ;;
  match hit r with
  | Some h =>
      match targetType h with
      | TargetPlayer | TargetEntity => exec (sendDamageEvent (target h) (hitPoint h))
      | TargetStatic => ret tt
      end
  | None => ret tt
  end.

(** [fireWithProjectile()] *)
Definition fireWithProjectile (r : RaycastOutcome) (g : Gun) : Gun :=
  if negb (projectileLauncher props) then g else
  let g := emit (LauncherRotation (fst (sprayAngle r)) (snd (sprayAngle r))) g in
  emit (Launch (projectileSpeed props)
               (range props / projectileSpeed props)%Q true) g.

(** Projectile callbacks connected in [start]. *)
Definition onProjHitPlayer (t : Target) (position : Vec3) : M unit :=
  l <- getImpactFX ;;
  exec (triggerFX position l) ;;
  if negb (raycaster props) then exec (sendDamageEvent t position) else ret tt.

Definition onProjHitEntity (t : Target) (position : Vec3) : M unit :=
  l <- getImpactFX ;;
  exec (triggerFX position l) ;;
  if negb (raycaster props) then exec (sendDamageEvent t position) else ret tt.

Definition onProjHitWorld (position : Vec3) : M unit :=
  l <- getImpactFX ;; exec (triggerFX position l).

Definition onProjMiss (position : Vec3) : M unit :=
  l <- getMissFX ;; exec (triggerFX position l).

(** ** Sample configurations and states *)

(** The defaults of [propsDefinition], with a raycaster and an asset spawner
    attached. *)
Definition defaultProps : Props := {|
  attackRate := 1000; damage := 10; autoAttack := false; range := 30;
  ammoPerFire := 1; clipSize := 10; maxAmmo := 30; startingAmmo := 10;
  startingReserveAmmo := 20; autoReload := false; bulletBurstPerFire := 1;
  bulletBurstDelay := 100; assetSpawner := true; raycaster := true;
  projectileLauncher := false; projectileSpeed := 150 |}.

(** A three-round burst weapon. *)
Definition burstProps : Props := {|
  attackRate := 1000; damage := 10; autoAttack := false; range := 30;
  ammoPerFire := 1; clipSize := 10; maxAmmo := 30; startingAmmo := 10;
  startingReserveAmmo := 20; autoReload := false; bulletBurstPerFire := 3;
  bulletBurstDelay := 100; assetSpawner := true; raycaster := true;
  projectileLauncher := false; projectileSpeed := 150 |}.


(** A hitscan weapon whose shots are visualised by a projectile. *)
Definition tracerProps : Props := {|
  attackRate := 1000; damage := 10; autoAttack := false; range := 30;
  ammoPerFire := 1; clipSize := 10; maxAmmo := 30; startingAmmo := 10;
  startingReserveAmmo := 20; autoReload := false; bulletBurstPerFire := 1;
  bulletBurstDelay := 100; assetSpawner := true; raycaster := true;
  projectileLauncher := true; projectileSpeed := 150 |}.

(** [ammoPerFire = 0]: unlimited ammo. *)
Definition unlimitedProps : Props := {|
  attackRate := 1000; damage := 10; autoAttack := false; range := 30;
  ammoPerFire := 0; clipSize := 10; maxAmmo := 30; startingAmmo := 10;
  startingReserveAmmo := 20; autoReload := false; bulletBurstPerFire := 1;
  bulletBurstDelay := 100; assetSpawner := true; raycaster := true;
  projectileLauncher := false; projectileSpeed := 150 |}.

(** An idle weapon holding [loaded] and [reserve] rounds, with empty pools. *)
Definition gunWith (loaded reserve : Z) : Gun := {|
  impactFX := []; missFX := []; nextImpactFXIdx := 0; nextMissFXIdx := 0;
  attackCooldown := false; attackCooldownTimer := None; reloadTimer := None;
  autoAttackTimer := None; fireDelay := None; bulletBurstTimer := None;
  currentBurstCount := 0; _loadedAmmo := loaded; _reserveAmmo := reserve;
  log := [] |}.

(** The same weapon with two impact groups and one miss group spawned. *)
Definition pooledGun (loaded reserve : Z) : Gun :=
  with_missFX [{| fx := [7%nat] |}]
    (with_impactFX [{| fx := [1%nat; 2%nat] |}; {| fx := [3%nat] |}]
       (gunWith loaded reserve)).

(** A trace that hit nothing, with no spray. *)
Definition missOutcome : RaycastOutcome := {|
  hit := None; hitPos := (0, 0, 30)%Q; sprayAngle := (0, 0)%Q;
  sprayApproxZero := true; launcherDistance := 30 |}.

(** A trace that hit entity 42 six metres from the launcher, with no spray. *)
Definition hitOutcome : RaycastOutcome := {|
  hit := Some {| targetType := TargetEntity; target := 42%nat;
                 hitPoint := (0, 0, 6)%Q |};
  hitPos := (0, 0, 6)%Q; sprayAngle := (0, 0)%Q;
  sprayApproxZero := true; launcherDistance := 6 |}.

(** *** Firing state machine *)

(** [canAttack()] *)
Definition canAttack (g : Gun) : bool :=
  if attackCooldown g then false else
  let ammoPerAttack := Z.max 0 (ammoPerFire props) in
  if ammoPerAttack =? 0 then true else
  if ammoPerAttack >? loadedAmmo g then false else
  true.

(** [triggerBurst()] *)
Definition triggerBurst (g : Gun) : Gun :=
  if bulletBurstPerFire props <=? 1 then g else
  match bulletBurstTimer g with
  | Some _ => g
  | None =>
    if loadedAmmo g <? ammoPerFire props then g else
    let g := with_currentBurstCount (Z.max 1 (bulletBurstPerFire props - 1)) g in
    with_bulletBurstTimer (Some (bulletBurstDelay props)) g
  end.

(** [triggerAutoAttack()] *)
Definition triggerAutoAttack (g : Gun) : Gun :=
  if negb (autoAttack props) then g else
  match autoAttackTimer g with
  | Some _ => g
  | None => with_autoAttackTimer (Some (attackRate props)) g
  end.

(** [finishFiring()] *)
Definition finishFiring (r : RaycastOutcome) : M unit :=
  exec (with_fireDelay None) ;;
  exec (emit Fired) ;;
  exec (fun g => if ammoPerFire props >? 0 then emit ShellFX g else g) ;;
  (if raycaster props then fireWithRaycast r
   else if projectileLauncher props then exec (fireWithProjectile r)
   else ret tt) ;;
  (* clearTimeout of a pending cooldown timer, then a fresh one *)
  exec (with_attackCooldownTimer (Some (Z.max 10 (attackRate props)))) ;;
  exec (fun g =>
    if loadedAmmo g <? ammoPerFire props
    then resetAutoAttack (resetBurst g)
    else triggerAutoAttack (triggerBurst g)) ;;
  exec (fun g =>
    if autoReload props && (loadedAmmo g =? 0)
    then with_reloadTimer (Some (500, AutoReloadDue)) (resetReload g)
    else g).

(** [triggerAttack()] *)
Definition triggerAttack (r : RaycastOutcome) : M unit := fun g =>
  if negb (canAttack g) then
    let g := resetBurst g in
    let g := resetAutoAttack g in
    let g := if loadedAmmo g <? ammoPerFire props
             then emit OutOfAmmoSFX g else g in
    Ok tt g
  else
  match fireDelay g with
  | Some _ => Ok tt g
  | None =>
    let g := with_attackCooldown true g in
    let g := if ammoPerFire props >? 0
             then set_loadedAmmo (loadedAmmo g - ammoPerFire props) g
             else g in
    if currentBurstCount g >? 0 then finishFiring r g
    else if isVR then finishFiring r g
    else
      let g := emit FireAnimation g in
      Ok tt (with_fireDelay (Some 50) g)
  end.

(** *** Timer callbacks

    Each runs only while its handle is stored in the component; a cleared
    handle never fires. *)

(** The [attackCooldownTimer] callback of [finishFiring]. *)
Definition onCooldownElapsed (g : Gun) : Gun :=
  match attackCooldownTimer g with
  | Some _ => with_attackCooldownTimer None (with_attackCooldown false g)
  | None => g
  end.

(** The [fireDelay] callback of [triggerAttack]. *)
Definition onFireDelay (r : RaycastOutcome) : M unit := fun g =>
  match fireDelay g with
  | Some _ => finishFiring r g
  | None => Ok tt g
  end.

(** The [bulletBurstTimer] interval callback of [triggerBurst]. *)
Definition onBurstTick (r : RaycastOutcome) : M unit := fun g =>
  match bulletBurstTimer g with
  | Some _ =>
    if currentBurstCount g =? 0 then Ok tt (resetBurst g)
    else
      (exec (with_attackCooldown false) ;;
       triggerAttack r ;;
       exec (fun g => with_currentBurstCount (currentBurstCount g - 1) g)) g
  | None => Ok tt g
  end.

(** The [autoAttackTimer] interval callback of [triggerAutoAttack]. *)
Definition onAutoAttackTick (r : RaycastOutcome) : M unit := fun g =>
  match autoAttackTimer g with
  | Some _ => (exec (with_attackCooldown false) ;; triggerAttack r) g
  | None => Ok tt g
  end.

(** The two [reloadTimer] callbacks. *)
Definition onReloadTimer (g : Gun) : Gun :=
  match reloadTimer g with
  | Some (_, AutoReloadDue) => triggerReload (with_reloadTimer None g)
  | Some (_, ReloadWindowEnd) => with_reloadTimer None g
  | None => g
  end.

(** *** Input callbacks *)

(** [onInputAttack(action, pressed)] *)
Definition onInputAttack (pressed : bool) (r : RaycastOutcome) : M unit :=
  if negb pressed then exec (fun g => resetAutoAttack (resetBurst g))
  else triggerAttack r.

(** [onInputReload(action, pressed)] *)
Definition onInputReload (pressed : bool) (g : Gun) : Gun :=
  if negb pressed then g else triggerReload g.

(** [onGrabEnd(player)]: its three timer resets.  The statements that
    follow them (inputs, subscription, display, main hand and the hand-over
    of the entity to the server player) are [onGrabEndHold] below. *)
Definition onGrabEnd (g : Gun) : Gun :=
  resetAutoAttack (resetBurst (resetReload g)).

(** ** The event loop *)

Inductive Input :=
| AttackInput (pressed : bool) (r : RaycastOutcome)
| ReloadInput (pressed : bool)
| GrantAmmo (amount : Z)
| GrabEnd
| FireDelayElapsed (r : RaycastOutcome)
| CooldownElapsed
| BurstTick (r : RaycastOutcome)
| AutoAttackTick (r : RaycastOutcome)
| ReloadTimerElapsed
| SyncImpactFX (effects : list FXList)
| SyncMissFX (effects : list FXList)
| ProjHitPlayer (t : Target) (position : Vec3)
| ProjHitEntity (t : Target) (position : Vec3)
| ProjHitWorld (position : Vec3)
| ProjMiss (position : Vec3)
| ReceiveOwnership (state : option GunState)
| TransferOwnership.

Definition dispatch (i : Input) : M unit :=
  match i with
  | AttackInput pressed r => onInputAttack pressed r
  | ReloadInput pressed => exec (onInputReload pressed)
  | GrantAmmo amount => exec (onGrantAmmo amount)
  | GrabEnd => exec onGrabEnd
  | FireDelayElapsed r => onFireDelay r
  | CooldownElapsed => exec onCooldownElapsed
  | BurstTick r => onBurstTick r
  | AutoAttackTick r => onAutoAttackTick r
  | ReloadTimerElapsed => exec onReloadTimer
  | SyncImpactFX effects => exec (onSyncImpactFX effects)
  | SyncMissFX effects => exec (onSyncMissFX effects)
  | ProjHitPlayer t position => onProjHitPlayer t position
  | ProjHitEntity t position => onProjHitEntity t position
  | ProjHitWorld position => onProjHitWorld position
  | ProjMiss position => onProjMiss position
  | ReceiveOwnership state => exec (receiveOwnership state)
  | TransferOwnership => exec (fun g => snd (transferOwnership g))
  end.

(** One turn of the event loop; an uncaught exception ends the callback and
    leaves the state as mutated so far. *)
Definition step (i : Input) (g : Gun) : Gun := stateOf (dispatch i g).

Definition run (inputs : list Input) (g : Gun) : Gun :=
  fold_left (fun acc i => step i acc) inputs g.

(** The states seen after each input, in order. *)
Fixpoint states (inputs : list Input) (g : Gun) : list Gun :=
  match inputs with
  | [] => []
  | i :: rest => step i g :: states rest (step i g)
  end.

(** States the component can be in: a fresh instance after [preStart], then
    any inputs. *)
Definition reachable (g : Gun) : Prop :=
  exists inputs, g = run inputs (preStart newGun).

(** Shots fired so far: executions of [finishFiring]. *)
Definition isFired (e : Effect) : bool :=
  match e with Fired => true | _ => false end.

(** Out-of-ammo cues played so far. *)
Definition isCue (e : Effect) : bool :=
  match e with OutOfAmmoSFX => true | _ => false end.

Definition tally (g : Gun) : nat * nat :=
  (length (filter isFired (log g)), length (filter isCue (log g))).

Definition shots (g : Gun) : nat := fst (tally g).

Definition outOfAmmoCues (g : Gun) : nat := snd (tally g).

(** The [loadedAmmoChanged] events sent so far. *)
Definition loadedAmmoEvents (g : Gun) : nat :=
  length (filter (fun e => match e with LoadedAmmoChanged _ _ => true | _ => false end)
                 (log g)).

Definition reserveAmmoEvents (g : Gun) : nat :=
  length (filter (fun e => match e with ReserveAmmoChanged _ _ => true | _ => false end)
                 (log g)).

(** ** Specification-side notions *)

(** [clamp(v, lo, hi)], the usual [Math.max(lo, Math.min(v, hi))]. *)
Definition clamp (v lo hi : Z) : Z := Z.max lo (Z.min v hi).

(** The ammo invariants of the data model. *)
Definition ammo_inv (g : Gun) : Prop :=
  0 <= loadedAmmo g <= clipSize props /\
  0 <= reserveAmmo g <= maxAmmo props - loadedAmmo g.

(** The round-robin indices are never negative. *)
Definition pool_inv (g : Gun) : Prop :=
  0 <= nextImpactFXIdx g /\ 0 <= nextMissFXIdx g.

(** ** Notions used in the proofs *)

(** [m] relates every start state to the state it leaves behind, whether it
    returns or throws. *)
Definition preserves {A} (R : Gun -> Gun -> Prop) (m : M A) : Prop :=
  forall g, R g (stateOf (m g)).

Definition transitive (R : Gun -> Gun -> Prop) : Prop :=
  forall a b c, R a b -> R b c -> R a c.

(** Relations determined by a projection that is left alone. *)
Definition keeps {T} (f : Gun -> T) : Gun -> Gun -> Prop :=
  fun g g' => f g' = f g.

(** Relations determined by an invariant. *)
Definition maintains (P : Gun -> Prop) : Gun -> Gun -> Prop :=
  fun g g' => P g -> P g'.

(** The fields the firing logic reads and writes, and the two pools. *)
Definition firing (g : Gun) :=
  (attackCooldown g, attackCooldownTimer g, reloadTimer g, autoAttackTimer g,
   fireDelay g, bulletBurstTimer g, currentBurstCount g,
   _loadedAmmo g, _reserveAmmo g).

Definition pools (g : Gun) := (impactFX g, missFX g).

Definition indices (g : Gun) := (nextImpactFXIdx g, nextMissFXIdx g).

(** The statements of [finishFiring] that follow hit resolution. *)
Definition afterShot (g : Gun) : Gun :=
  let g := with_attackCooldownTimer (Some (Z.max 10 (attackRate props))) g in
  let g := if loadedAmmo g <? ammoPerFire props
           then resetAutoAttack (resetBurst g)
           else triggerAutoAttack (triggerBurst g) in
  if autoReload props && (loadedAmmo g =? 0)
  then with_reloadTimer (Some (500, AutoReloadDue)) (resetReload g)
  else g.

(** The ammo fields. *)
Definition ammo (g : Gun) := (_loadedAmmo g, _reserveAmmo g).

(** The first statements of an accepted [triggerAttack]: the cooldown flag
    and the deduction. *)
Definition deduct (g : Gun) : Gun :=
  let g := with_attackCooldown true g in
  if ammoPerFire props >? 0
  then set_loadedAmmo (loadedAmmo g - ammoPerFire props) g
  else g.

(** *** Burst scenarios *)


(** Timer callbacks, as opposed to player input and network events. *)
Definition timerInput (i : Input) : bool :=
  match i with
  | FireDelayElapsed _ | CooldownElapsed | BurstTick _
  | AutoAttackTick _ | ReloadTimerElapsed => true
  | _ => false
  end.







(** ** Further notions: the rest of the component *)

(** What a shot and its bookkeeping read of a state. *)
Definition shotView (g : Gun) := (firing g, pools g, tally g).

(** A sane configuration: the clip fits in what can be carried. *)
Definition sane_config : Prop := 0 <= clipSize props <= maxAmmo props.

(** Ammunition carried. *)
Definition totalAmmo (g : Gun) : Z := loadedAmmo g + reserveAmmo g.

(** A deducted shot that waits for its fire delay. *)
Definition pendingShots (g : Gun) : Z :=
  match fireDelay g with Some _ => 1 | None => 0 end.

(** The books: ammunition carried plus ammunition fired or about to be. *)
Definition books (g : Gun) : Z :=
  totalAmmo g + ammoPerFire props * (Z.of_nat (shots g) + pendingShots g).

(** Inputs that bring ammunition in from outside. *)
Definition bringsAmmo (i : Input) : bool :=
  match i with
  | GrantAmmo _ | ReceiveOwnership _ => true
  | _ => false
  end.

(** What the timer bookkeeping of [finishFiring] leaves alone. *)
Definition tailView (g : Gun) :=
  (ammo g, attackCooldown g, pools g, fireDelay g, tally g).

(** What the books read of a state. *)
Definition ledgerView (g : Gun) := (ammo g, tally g, fireDelay g).

(** [dispose()], as far as the component's own fields go: the pools are
    emptied and the reload, burst, auto-attack and fire-delay timers are
    cleared. *)
Definition dispose (g : Gun) : Gun :=
  let g := with_impactFX [] g in
  let g := with_missFX [] g in
  let g := resetReload g in
  let g := resetBurst g in
  let g := resetAutoAttack g in
  match fireDelay g with
  | Some _ => with_fireDelay None g
  | None => g
  end.

(** No timer that can fire a shot is pending. *)
Definition quiet (g : Gun) : Prop :=
  fireDelay g = None /\ bulletBurstTimer g = None /\ autoAttackTimer g = None.


(** [k] consecutive calls of [getImpactFX], one per hit as [fireWithRaycast]
    and the projectile handlers make them; the lists returned, oldest
    first. *)
Fixpoint retrieveImpactFX (k : nat) : M (list (list ParticleGizmo)) :=
  match k with
  | O => ret []
  | S k => l <- getImpactFX ;; ls <- retrieveImpactFX k ;; ret (l :: ls)
  end.

(** The handles of the group at position [i] of a pool. *)
Definition groupAt (pool : list FXList) (i : Z) : list ParticleGizmo :=
  match js_index pool i with
  | Some group => fx group
  | None => []
  end.

(** ** The ammo display ([AmmoUI]) *)

(** The payload of [setAmmoSource]. *)
Record AmmoSource := {
  src_loadedAmmo : Z;
  src_reserveAmmo : Z;
  unlimitedAmmo : bool;
  isRightHand : bool;
}.

(** The bindings of the [AmmoUI] component that its handlers write, and
    whether its two change handlers are connected to a source. *)
Record AmmoUI := {
  displayAmmoUI : bool;
  rightHanded : bool;
  ui_loadedAmmo : Z;
  ui_reserveAmmo : Z;
  subscribed : bool;
}.

(** Field initialisers of [AmmoUI]. *)
Definition newAmmoUI : AmmoUI := {|
  displayAmmoUI := false; rightHanded := true;
  ui_loadedAmmo := 0; ui_reserveAmmo := 0; subscribed := false |}.

(** The [setAmmoSource] handler of [AmmoUI.preStart]. *)
Definition onSetAmmoSource (data : AmmoSource) (ui : AmmoUI) : AmmoUI := {|
  displayAmmoUI := if unlimitedAmmo data then false else true;
  rightHanded := isRightHand data;
  ui_loadedAmmo := Z.max 0 (src_loadedAmmo data);
  ui_reserveAmmo := Z.max 0 (src_reserveAmmo data);
  subscribed := true |}.

(** The [loadedAmmoChanged] and [reserveAmmoChanged] handlers. *)
Definition onLoadedAmmoChanged (current : Z) (ui : AmmoUI) : AmmoUI := {|
  displayAmmoUI := displayAmmoUI ui; rightHanded := rightHanded ui;
  ui_loadedAmmo := Z.max 0 current; ui_reserveAmmo := ui_reserveAmmo ui;
  subscribed := subscribed ui |}.

Definition onReserveAmmoChanged (current : Z) (ui : AmmoUI) : AmmoUI := {|
  displayAmmoUI := displayAmmoUI ui; rightHanded := rightHanded ui;
  ui_loadedAmmo := ui_loadedAmmo ui; ui_reserveAmmo := Z.max 0 current;
  subscribed := subscribed ui |}.

(** The two events the display listens to. *)
Definition isAmmoEvent (e : Effect) : bool :=
  match e with
  | LoadedAmmoChanged _ _ | ReserveAmmoChanged _ _ => true
  | _ => false
  end.

(** A local event of the weapon reaches the handlers the display has
    connected to it. *)
Definition notify (e : Effect) (ui : AmmoUI) : AmmoUI :=
  if subscribed ui then
    match e with
    | LoadedAmmoChanged current _ => onLoadedAmmoChanged current ui
    | ReserveAmmoChanged current _ => onReserveAmmoChanged current ui
    | _ => ui
    end
  else ui.

(** The events of a stretch of the log (newest first), delivered in the
    order they were sent. *)
Definition notifyAll (events : list Effect) (ui : AmmoUI) : AmmoUI :=
  fold_right notify ui events.

(** The [setAmmoSource] payload that [setupAmmoUI] sends. *)
Definition ammoSourceOf (rightHand : bool) (g : Gun) : AmmoSource := {|
  src_loadedAmmo := loadedAmmo g;
  src_reserveAmmo := reserveAmmo g;
  unlimitedAmmo := hasUnlimitedAmmo;
  isRightHand := rightHand |}.

(** The display is connected and shows what the weapon holds. *)
Definition shows (ui : AmmoUI) (g : Gun) : Prop :=
  subscribed ui = true /\
  ui_loadedAmmo ui = Z.max 0 (loadedAmmo g) /\
  ui_reserveAmmo ui = Z.max 0 (reserveAmmo g).

(** From [g] to [g'] the log has only grown, and a display that showed [g]
    and receives what was sent in between shows [g']. *)
Definition reports (g g' : Gun) : Prop :=
  exists new, log g' = new ++ log g /\
    forall ui, shows ui g ->
      shows (notifyAll new ui) g' /\
      displayAmmoUI (notifyAll new ui) = displayAmmoUI ui /\
      rightHanded (notifyAll new ui) = rightHanded ui.

(** ** Grabbing: hands, inputs and subscriptions *)

Inductive Handedness := LeftHand | RightHand.

Inductive PlayerInputAction :=
| RightTrigger | LeftTrigger | RightPrimary | LeftPrimary | RightSecondary.

(** A [PlayerInput] handle: the action it is bound to and whether it is
    still connected. *)
Record PlayerInput := { action : PlayerInputAction; connected : bool }.

(** The props read when the weapon is grabbed; [ammoUI] tells whether the
    entity is set. *)
Record GrabProps := {
  is2Handed : bool;
  rightHandIs2HMain : bool;
  ammoUI : bool;
}.

Variable grabProps : GrabProps.

(** Who owns an entity: the server player or a client. *)
Inductive Player := ServerPlayer | Client (id : nat).

(** The fields of the component that the grab handlers write, with the
    [visible] flag of the [ammoUI] entity, the [setAmmoSource] events sent
    to it (newest first) and the [owner] of the weapon entity as the
    component last set it.  [grantAmmo] lists the subscriptions that
    [onGrabStart] has made, newest first, each with whether it is still
    connected; the field of the class refers to the newest. *)
Record Hold := {
  mainHand : option Handedness;
  attackInput : option PlayerInput;
  reloadInput : option PlayerInput;
  grantAmmo : list bool;
  ammoUIVisible : bool;
  ammoSources : list AmmoSource;
  owner : Player;
}.

(** A component nobody has grabbed yet; [visible] is how the world shows
    the display entity, which neither [preStart] nor [start] touches. *)
Definition newHold (visible : bool) : Hold := {|
  mainHand := None; attackInput := None; reloadInput := None;
  grantAmmo := []; ammoUIVisible := visible; ammoSources := [];
  owner := ServerPlayer |}.

Definition with_mainHand (v : option Handedness) (h : Hold) : Hold :=
  {| mainHand := v; attackInput := attackInput h; reloadInput := reloadInput h;
     grantAmmo := grantAmmo h; ammoUIVisible := ammoUIVisible h;
     ammoSources := ammoSources h; owner := owner h |}.

Definition with_attackInput (v : option PlayerInput) (h : Hold) : Hold :=
  {| mainHand := mainHand h; attackInput := v; reloadInput := reloadInput h;
     grantAmmo := grantAmmo h; ammoUIVisible := ammoUIVisible h;
     ammoSources := ammoSources h; owner := owner h |}.

Definition with_reloadInput (v : option PlayerInput) (h : Hold) : Hold :=
  {| mainHand := mainHand h; attackInput := attackInput h; reloadInput := v;
     grantAmmo := grantAmmo h; ammoUIVisible := ammoUIVisible h;
     ammoSources := ammoSources h; owner := owner h |}.

Definition with_grantAmmo (v : list bool) (h : Hold) : Hold :=
  {| mainHand := mainHand h; attackInput := attackInput h;
     reloadInput := reloadInput h; grantAmmo := v;
     ammoUIVisible := ammoUIVisible h; ammoSources := ammoSources h;
     owner := owner h |}.

Definition with_ammoUI (visible : bool) (sent : list AmmoSource) (h : Hold) : Hold :=
  {| mainHand := mainHand h; attackInput := attackInput h;
     reloadInput := reloadInput h; grantAmmo := grantAmmo h;
     ammoUIVisible := visible; ammoSources := sent; owner := owner h |}.

Definition with_owner (v : Player) (h : Hold) : Hold :=
  {| mainHand := mainHand h; attackInput := attackInput h;
     reloadInput := reloadInput h; grantAmmo := grantAmmo h;
     ammoUIVisible := ammoUIVisible h; ammoSources := ammoSources h;
     owner := v |}.

(** [this.mainHand == hz.Handedness.Right] *)
Definition mainHandIsRight (h : Hold) : bool :=
  match mainHand h with Some RightHand => true | _ => false end.

(** [input?.disconnect()] *)
Definition disconnect (i : option PlayerInput) : option PlayerInput :=
  match i with
  | Some p => Some {| action := action p; connected := false |}
  | None => None
  end.

(** [this.grantAmmo?.disconnect()] *)
Definition disconnectGrant (subs : list bool) : list bool :=
  match subs with
  | _ :: rest => false :: rest
  | [] => []
  end.

(** [getAttackInputAction(isRightHand)]; the [default] branch has no device
    type to run on. *)
Definition getAttackInputAction (isRightHand : bool) : PlayerInputAction :=
  match device with
  | VR => if isRightHand then RightTrigger else LeftTrigger
  | Desktop => RightTrigger
  | Mobile => RightPrimary
  end.

(** [getReloadInputAction(isRightHand)] *)
Definition getReloadInputAction (isRightHand : bool) : PlayerInputAction :=
  match device with
  | VR => if isRightHand then RightPrimary else LeftPrimary
  | Desktop => RightPrimary
  | Mobile => RightSecondary
  end.

(** [setupAmmoUI()] *)
Definition setupAmmoUI (g : Gun) (h : Hold) : Hold :=
  if ammoUI grabProps
  then with_ammoUI true (ammoSourceOf (mainHandIsRight h) g :: ammoSources h) h
  else h.

(** [setupAttackInput()] *)
Definition setupAttackInput (h : Hold) : Hold :=
  let h := with_attackInput (disconnect (attackInput h)) h in
  with_attackInput
    (Some {| action := getAttackInputAction (mainHandIsRight h);
             connected := true |}) h.

(** [setupReloadInput()] *)
Definition setupReloadInput (h : Hold) : Hold :=
  let h := with_reloadInput (disconnect (reloadInput h)) h in
  if negb hasUnlimitedAmmo
  then with_reloadInput
         (Some {| action := getReloadInputAction (mainHandIsRight h);
                  connected := true |}) h
  else h.

(** [onGrabInitial(isRightHand, player)]; the pickup sound is left out. *)
Definition onGrabInitial (isRightHand : bool) (g : Gun) (h : Hold) : Hold :=
  match mainHand h with
  | Some _ => h
  | None =>
    let h :=
      with_mainHand
        (Some (if is2Handed grabProps
               then if rightHandIs2HMain grabProps then RightHand else LeftHand
               else if isRightHand then RightHand else LeftHand)) h in
    let h := if negb isVR || negb (is2Handed grabProps)
             then setupReloadInput (setupAttackInput h)
             else h in
    setupAmmoUI g h
  end.

(** [onGrabStart(isRightHand, player)] *)
Definition onGrabStart (isRightHand : bool) (g : Gun) (h : Hold) : Hold :=
  let h := onGrabInitial isRightHand g h in
  with_grantAmmo (true :: grantAmmo h) h.

(** The statements of [onGrabEnd(player)] that follow the three timer
    resets of [onGrabEnd] above, the last one included, which hands the
    entity to the server player.  What the engine does with that request
    (it may call [transferOwnership] on this instance and dispose of it) is
    not part of the handler. *)
Definition onGrabEndHold (h : Hold) : Hold :=
  let h := with_attackInput (disconnect (attackInput h)) h in
  let h := with_reloadInput (disconnect (reloadInput h)) h in
  let h := with_grantAmmo (disconnectGrant (grantAmmo h)) h in
  let h := if ammoUI grabProps then with_ammoUI false (ammoSources h) h else h in
  let h := with_mainHand None h in
  with_owner ServerPlayer h.

(** [onMultiGrabStart(player)] *)
Definition onMultiGrabStart (h : Hold) : Hold :=
  if is2Handed grabProps then setupReloadInput (setupAttackInput h) else h.

(** [onMultiGrabEnd(player)] *)
Definition onMultiGrabEnd (g : Gun) (h : Hold) : Gun * Hold :=
  if is2Handed grabProps then
    let h := with_attackInput (disconnect (attackInput h)) h in
    let h := with_reloadInput (disconnect (reloadInput h)) h in
    (resetAutoAttack (resetBurst (resetReload g)), h)
  else (g, h).

(** *** The weapon in the hand

    The platform runs an input callback only while its [PlayerInput] is
    connected, and a [grantAmmo] event once for every subscription that is
    still connected. *)

Inductive Event :=
| OnGrabStart (isRightHand : bool)
| OnMultiGrabStart
| OnMultiGrabEnd
| Callback (i : Input).

Definition liveInput (i : option PlayerInput) : bool :=
  match i with Some p => connected p | None => false end.

Definition liveGrants (h : Hold) : nat :=
  length (filter (fun c : bool => c) (grantAmmo h)).

Definition handle (e : Event) (w : Gun * Hold) : Gun * Hold :=
  let (g, h) := w in
  match e with
  | OnGrabStart isRightHand => (g, onGrabStart isRightHand g h)
  | OnMultiGrabStart => (g, onMultiGrabStart h)
  | OnMultiGrabEnd => onMultiGrabEnd g h
  | Callback GrabEnd => (step GrabEnd g, onGrabEndHold h)
  | Callback (AttackInput pressed r) =>
      if liveInput (attackInput h) then (step (AttackInput pressed r) g, h)
      else (g, h)
  | Callback (ReloadInput pressed) =>
      if liveInput (reloadInput h) then (step (ReloadInput pressed) g, h)
      else (g, h)
  | Callback (GrantAmmo amount) =>
      (Nat.iter (liveGrants h) (step (GrantAmmo amount)) g, h)
  | Callback i => (step i g, h)
  end.

Definition play (events : list Event) (w : Gun * Hold) : Gun * Hold :=
  fold_left (fun acc e => handle e acc) events w.

(** What holds of the inputs whatever the hands do: a reload input exists
    only when ammunition is limited; each input is bound to an action its
    own mapping yields; on a one-handed weapon the trigger is connected
    exactly while the weapon is held. *)
Definition hold_inv (h : Hold) : Prop :=
  (forall p, reloadInput h = Some p ->
     hasUnlimitedAmmo = false /\ exists r, action p = getReloadInputAction r) /\
  (forall p, attackInput h = Some p -> exists r, action p = getAttackInputAction r) /\
  (is2Handed grabProps = false ->
     liveInput (attackInput h) = match mainHand h with Some _ => true | None => false end /\
     liveInput (reloadInput h) =
       match mainHand h with Some _ => negb hasUnlimitedAmmo | None => false end).

(** Events at which the component writes the [visible] flag of the display
    of a weapon that starts out not held: every grab end, and the grab start
    that finds the weapon not held. *)
Definition grabTouches (e : Event) : bool :=
  match e with
  | OnGrabStart _ | Callback GrabEnd => true
  | _ => false
  end.

(** Callbacks a player and the timers can cause while nobody grabs the
    weapon anew. *)
Definition handsOff (e : Event) : bool :=
  match e with
  | Callback (AttackInput _ _) | Callback (ReloadInput _) => true
  | Callback i => timerInput i
  | _ => false
  end.

(** The weapon is in a hand. *)
Definition held (h : Hold) : bool :=
  match mainHand h with Some _ => true | None => false end.

(** Grab events as one hand makes them: no grab start while the weapon is
    held. *)
Fixpoint oneHandAtATime (isHeld : bool) (events : list Event) : bool :=
  match events with
  | [] => true
  | OnGrabStart _ :: rest => negb isHeld && oneHandAtATime true rest
  | Callback GrabEnd :: rest => oneHandAtATime false rest
  | _ :: rest => oneHandAtATime isHeld rest
  end.

(** One [grantAmmo] subscription is connected while the weapon is held and
    none otherwise; the newest is the connected one. *)
Definition grant_inv (h : Hold) : Prop :=
  liveGrants h = (if held h then 1%nat else 0%nat) /\
  (held h = true -> exists rest, grantAmmo h = true :: rest).

(** Presses and releases of the two inputs. *)
Definition isPress (e : Event) : bool :=
  match e with
  | Callback (AttackInput _ _) | Callback (ReloadInput _) => true
  | _ => false
  end.

(** ** The asset spawner ([SpawnedAssets]) and the effects it spawns *)

Definition Asset := nat.

(** An entity handle; a [ParticleGizmo] handle is the handle of the entity
    it was cast from. *)
Definition Entity := nat.

(** A [SpawnController]: the asset it spawns and the root entities of the
    spawn. *)
Record SpawnController := { asset : Asset; rootEntities : list Entity }.

(** The [spawners] field of the component. *)
Record SpawnedAssets := { spawners : list SpawnController }.

(** [spawnAsset(asset, position, rotation, scale, count)]: the spawners are
    pushed at once; [roots i] are the root entities the [i]-th spawn yields,
    and the list returned is what the promise resolves to when every spawn
    succeeds. *)
Definition spawnAsset (a : Asset) (count : Z) (roots : nat -> list Entity)
    (sa : SpawnedAssets) : list (list Entity) * SpawnedAssets :=
  let numberToSpawn := Z.to_nat (Z.max 1 count) in
  let new := map (fun i => {| asset := a; rootEntities := roots i |})
                 (seq 0 numberToSpawn) in
  (map rootEntities new, {| spawners := spawners sa ++ new |}).

(** [hasSpawnedAsset(asset)] *)
Definition hasSpawnedAsset (a : Asset) (sa : SpawnedAssets) : bool :=
  existsb (fun s => asset s =? a)%nat (spawners sa).

Definition ownsRoot (e : Entity) (s : SpawnController) : bool :=
  existsb (Nat.eqb e) (rootEntities s).

(** The [splice] of [despawnAsset]: the first spawner that owns [e] goes. *)
Fixpoint removeOwner (e : Entity) (l : list SpawnController) : list SpawnController :=
  match l with
  | [] => []
  | s :: rest => if ownsRoot e s then rest else s :: removeOwner e rest
  end.

(** [despawnAsset(rootEntity)].  An entity spawned here exists until its
    spawner is disposed, so the [exists()] guard lets through every entity
    that a spawner still owns. *)
Definition despawnAsset (e : Entity) (sa : SpawnedAssets) : SpawnedAssets :=
  {| spawners := removeOwner e (spawners sa) |}.

(** The [despawnAssets] handler of [start]. *)
Definition onDespawnAssets (roots : list Entity) (sa : SpawnedAssets)
  : SpawnedAssets :=
  fold_left (fun acc e => despawnAsset e acc) roots sa.

(** [despawnAll()] *)
Definition despawnAll (sa : SpawnedAssets) : SpawnedAssets := {| spawners := [] |}.

(** The two asset props of the weapon. *)
Record FXProps := { impactFXAsset : option Asset; missFXAsset : option Asset }.

Variable fxProps : FXProps.

(** [createFXList(entitiesList)]; [isParticle e] tells whether
    [e.as(hz.ParticleGizmo)] yields a gizmo. *)
Definition createFXList (isParticle : Entity -> bool)
    (entitiesList : list (list Entity)) : list FXList :=
  filter (fun l => 0 <? Z.of_nat (length (fx l)))
         (map (fun entities => {| fx := filter isParticle entities |}) entitiesList).

(** [authSpawnFX()], up to the two [spawnAsset] calls: what the two promises
    resolve to, if they were made, and the spawner component afterwards.
    [onServer] tells whether the local player is the server player;
    [component] is the first [SpawnedAssets] component of the asset spawner
    entity, if it carries one; [impactRoots] and [missRoots] are the root
    entities the two spawns yield. *)
Definition authSpawnFX (onServer : bool) (impactRoots missRoots : list Entity)
    (component : option SpawnedAssets)
  : option (list (list Entity)) * option (list (list Entity))
    * option SpawnedAssets :=
  if negb onServer then (None, None, component) else
  if negb (assetSpawner props) then (None, None, component) else
  match component with
  | None => (None, None, None)
  | Some sa =>
    let hasImpactFX := match impactFXAsset fxProps with
                       | Some a => hasSpawnedAsset a sa | None => false end in
    let hasMissFX := match missFXAsset fxProps with
                     | Some a => hasSpawnedAsset a sa | None => false end in
    let '(spawnImpacts, sa) :=
      match impactFXAsset fxProps with
      | Some a => if negb hasImpactFX
                  then let (r, sa) := spawnAsset a 1 (fun _ => impactRoots) sa in
                       (Some r, sa)
                  else (None, sa)
      | None => (None, sa)
      end in
    let '(spawnMiss, sa) :=
      match missFXAsset fxProps with
      | Some a => if negb hasMissFX
                  then let (r, sa) := spawnAsset a 1 (fun _ => missRoots) sa in
                       (Some r, sa)
                  else (None, sa)
      | None => (None, sa)
      end in
    (spawnImpacts, spawnMiss, Some sa)
  end.

(** The continuation of [spawnImpacts]: with the entity still owned by the
    server the pool is synchronised directly, otherwise through the
    [syncImpactFX] event. *)
Definition onImpactsSpawned (isParticle : Entity -> bool) (ownedByServer : bool)
    (spawnedAssets : list (list Entity)) (g : Gun) : Gun :=
  let fxList := createFXList isParticle spawnedAssets in
  if 0 <? Z.of_nat (length fxList) then
    if ownedByServer
    then let '(l, g) := syncFX fxList (impactFX g) g in with_impactFX l g
    else onSyncImpactFX fxList g
  else g.

(** The continuation of [spawnMiss]. *)
Definition onMissSpawned (isParticle : Entity -> bool) (ownedByServer : bool)
    (spawnedAssets : list (list Entity)) (g : Gun) : Gun :=
  let fxList := createFXList isParticle spawnedAssets in
  if 0 <? Z.of_nat (length fxList) then
    if ownedByServer
    then let '(l, g) := syncFX fxList (missFX g) g in with_missFX l g
    else onSyncMissFX fxList g
  else g.

(** No entity is a root of two spawners or twice a root of one. *)
Definition distinctRoots (sa : SpawnedAssets) : Prop :=
  NoDup (flat_map rootEntities (spawners sa)).

(** *** Further sample data *)

(** The default weapon with [autoReload] on. *)
Definition autoReloadProps : Props := {|
  attackRate := 1000; damage := 10; autoAttack := false; range := 30;
  ammoPerFire := 1; clipSize := 10; maxAmmo := 30; startingAmmo := 10;
  startingReserveAmmo := 20; autoReload := true; bulletBurstPerFire := 1;
  bulletBurstDelay := 100; assetSpawner := true; raycaster := true;
  projectileLauncher := false; projectileSpeed := 150 |}.

(** The defaults of the grab props, with an ammo display attached. *)
Definition oneHanded : GrabProps :=
  {| is2Handed := false; rightHandIs2HMain := true; ammoUI := true |}.

Definition twoHanded : GrabProps :=
  {| is2Handed := true; rightHandIs2HMain := true; ammoUI := true |}.

(** A weapon with an impact and a miss asset. *)
Definition bothFX : FXProps := {| impactFXAsset := Some 7%nat; missFXAsset := Some 8%nat |}.

(** A spawner component with two spawns of three root entities in all. *)
Definition twoSpawns : SpawnedAssets :=
  {| spawners := [ {| asset := 7%nat; rootEntities := [1%nat; 2%nat] |};
                   {| asset := 8%nat; rootEntities := [3%nat] |} ] |}.

(** ** Damage *)

Definition isDamage (e : Effect) : bool :=
  match e with TakeDamage _ _ _ => true | _ => false end.

(** [takeDamage] events sent so far. *)
Definition damageEvents (g : Gun) : nat := length (filter isDamage (log g)).

Definition damageOf (new : list Effect) : nat := length (filter isDamage new).

Definition firedOf (new : list Effect) : nat := length (filter isFired new).

(** The log has only grown from [g] to [g'], by events of which [P] holds. *)
Definition grows (P : list Effect -> Prop) (g g' : Gun) : Prop :=
  exists new, log g' = new ++ log g /\ P new.

(** No damage sent. *)
Definition calm : Gun -> Gun -> Prop := grows (fun new => damageOf new = 0%nat).

(** At most [n] damage events sent. *)
Definition hurts (n : nat) : Gun -> Gun -> Prop :=
  grows (fun new => (damageOf new <= n)%nat).

(** Damage events a shot sends by itself, and damage events a projectile
    hit may send. *)
Definition perShot : nat := if raycaster props then 1%nat else 0%nat.

Definition perHit : nat := if raycaster props then 0%nat else 1%nat.

(** Damage is covered by the shots fired and by [n] projectile hits. *)
Definition bounded (n : nat) : Gun -> Gun -> Prop :=
  grows (fun new => (damageOf new <= perShot * firedOf new + perHit * n)%nat).

(** Projectile hits on something that takes damage. *)
Definition isDamagingHit (i : Input) : bool :=
  match i with
  | ProjHitPlayer _ _ | ProjHitEntity _ _ => true
  | _ => false
  end.

(** ** Rate of fire *)

(** Callbacks that clear the cooldown flag: the cooldown timer, and the
    burst and auto-attack intervals, which clear it before they fire. *)
Definition clearsCooldown (i : Input) : bool :=
  match i with
  | CooldownElapsed | BurstTick _ | AutoAttackTick _ => true
  | _ => false
  end.

(** Shots a state still allows without any such callback: the one whose
    fire delay is pending, and one more when the weapon is not cooling
    down. *)
Definition credit (g : Gun) : Z :=
  pendingShots g + (if attackCooldown g then 0 else 1).

(** What the rate of fire reads of a state. *)
Definition rateView (g : Gun) := (attackCooldown g, fireDelay g, tally g).

(** ** Reasoning support *)

(** Case analysis on the first integer test the goal is stuck on. *)
Ltac ztest :=
  match goal with
  | |- context [ (?a =? ?b)%Z ] => destruct (Z.eqb_spec a b)
  | |- context [ (?a <? ?b)%Z ] => destruct (Z.ltb_spec a b)
  | |- context [ (?a <=? ?b)%Z ] => destruct (Z.leb_spec a b)
  | |- context [ (?a >? ?b)%Z ] => rewrite (Z.gtb_ltb a b)
  end.

Ltac ztests := repeat (ztest; cbn [negb andb orb]; try lia).

(** *** Setters *)

Lemma loadedAmmo_set_loadedAmmo (v : Z) (g : Gun) :
  loadedAmmo (set_loadedAmmo v g) = Z.max 0 (Z.min (Z.max 0 (clipSize props)) v).
Proof. unfold set_loadedAmmo. cbn. destruct (negb _); reflexivity. Qed.

Lemma reserveAmmo_set_loadedAmmo (v : Z) (g : Gun) :
  reserveAmmo (set_loadedAmmo v g) = reserveAmmo g.
Proof. unfold set_loadedAmmo. cbn. destruct (negb _); reflexivity. Qed.

Lemma reserveAmmo_set_reserveAmmo (v : Z) (g : Gun) :
  reserveAmmo (set_reserveAmmo v g) =
  Z.max 0 (Z.min v (Z.max 0 (maxAmmo props) - loadedAmmo g)).
Proof. unfold set_reserveAmmo. cbn. destruct (negb _); reflexivity. Qed.

Lemma loadedAmmo_set_reserveAmmo (v : Z) (g : Gun) :
  loadedAmmo (set_reserveAmmo v g) = loadedAmmo g.
Proof. unfold set_reserveAmmo. cbn. destruct (negb _); reflexivity. Qed.

(** A write that does not change the stored value leaves the whole state,
    log included, as it was. *)
Lemma set_loadedAmmo_same (v : Z) (g : Gun) :
  Z.max 0 (Z.min (Z.max 0 (clipSize props)) v) = loadedAmmo g ->
  set_loadedAmmo v g = g.
Proof.
  intros H. unfold set_loadedAmmo. cbn. rewrite H.
  unfold loadedAmmo. rewrite Z.eqb_refl. cbn. destruct g; reflexivity.
Qed.

Lemma set_reserveAmmo_same (v : Z) (g : Gun) :
  Z.max 0 (Z.min v (Z.max 0 (maxAmmo props) - loadedAmmo g)) = reserveAmmo g ->
  set_reserveAmmo v g = g.
Proof.
  intros H. unfold set_reserveAmmo. cbn. rewrite H.
  unfold reserveAmmo. rewrite Z.eqb_refl. cbn. destruct g; reflexivity.
Qed.

Lemma log_set_loadedAmmo (v : Z) (g : Gun) :
  log (set_loadedAmmo v g) =
  if negb (loadedAmmo g =? Z.max 0 (Z.min (Z.max 0 (clipSize props)) v))
  then LoadedAmmoChanged (Z.max 0 (Z.min (Z.max 0 (clipSize props)) v)) (loadedAmmo g)
       :: log g
  else log g.
Proof. unfold set_loadedAmmo. cbn. destruct (negb _); reflexivity. Qed.

Lemma log_set_reserveAmmo (v : Z) (g : Gun) :
  log (set_reserveAmmo v g) =
  if negb (reserveAmmo g =?
           Z.max 0 (Z.min v (Z.max 0 (maxAmmo props) - loadedAmmo g)))
  then ReserveAmmoChanged
         (Z.max 0 (Z.min v (Z.max 0 (maxAmmo props) - loadedAmmo g)))
         (reserveAmmo g) :: log g
  else log g.
Proof. unfold set_reserveAmmo. cbn. destruct (negb _); reflexivity. Qed.

(** ** The ammo ledger *)

(** C2 (clamping).  With [clipSize >= 0] and [maxAmmo >= 0], writing [v] to
    [loadedAmmo] stores [clamp(v, 0, clipSize)], and writing [v] to
    [reserveAmmo] stores [clamp(v, 0, maxAmmo - loadedAmmo)], for every [v]
    and every state. *)
Theorem setters_clamp (g : Gun) (v : Z) :
  0 <= clipSize props -> 0 <= maxAmmo props ->
  loadedAmmo (set_loadedAmmo v g) = clamp v 0 (clipSize props) /\
  reserveAmmo (set_reserveAmmo v g) = clamp v 0 (maxAmmo props - loadedAmmo g).
Proof.
  intros Hc Hm. rewrite loadedAmmo_set_loadedAmmo, reserveAmmo_set_reserveAmmo.
  unfold clamp. split; lia.
Qed.

(** *** A small relational logic for [M] *)

Lemma preserves_ret {A} (R : Gun -> Gun -> Prop) (a : A) :
  (forall g, R g g) -> preserves R (ret a).
Proof. intros H g. apply H. Qed.

Lemma preserves_exec (R : Gun -> Gun -> Prop) (f : Gun -> Gun) :
  (forall g, R g (f g)) -> preserves R (exec f).
Proof. intros H g. apply H. Qed.

Lemma preserves_bind {A B} (R : Gun -> Gun -> Prop) (m : M A) (k : A -> M B) :
  transitive R -> preserves R m -> (forall a, preserves R (k a)) ->
  preserves R (bind m k).
Proof.
  intros HT Hm Hk g. unfold bind. specialize (Hm g).
  destruct (m g) as [a g'|g']; cbn in *; [|exact Hm].
  eapply HT; [exact Hm|apply Hk].
Qed.

Lemma keeps_transitive {T} (f : Gun -> T) : transitive (keeps f).
Proof. intros a b c H1 H2. unfold keeps in *. congruence. Qed.

Lemma maintains_transitive (P : Gun -> Prop) : transitive (maintains P).
Proof. intros a b c H1 H2 H. auto. Qed.

Lemma emitAll_fields (es : list Effect) (g : Gun) :
  impactFX (emitAll es g) = impactFX g /\
  missFX (emitAll es g) = missFX g /\
  nextImpactFXIdx (emitAll es g) = nextImpactFXIdx g /\
  nextMissFXIdx (emitAll es g) = nextMissFXIdx g /\
  attackCooldown (emitAll es g) = attackCooldown g /\
  attackCooldownTimer (emitAll es g) = attackCooldownTimer g /\
  reloadTimer (emitAll es g) = reloadTimer g /\
  autoAttackTimer (emitAll es g) = autoAttackTimer g /\
  fireDelay (emitAll es g) = fireDelay g /\
  bulletBurstTimer (emitAll es g) = bulletBurstTimer g /\
  currentBurstCount (emitAll es g) = currentBurstCount g /\
  _loadedAmmo (emitAll es g) = _loadedAmmo g /\
  _reserveAmmo (emitAll es g) = _reserveAmmo g /\
  log (emitAll es g) = rev es ++ log g.
Proof.
  revert g. induction es as [|e es IH]; intros g; cbn.
  - repeat split.
  - specialize (IH (emit e g)). cbn in IH.
    rewrite <- app_assoc. cbn. exact IH.
Qed.

Lemma firing_emitAll (es : list Effect) (g : Gun) :
  firing (emitAll es g) = firing g.
Proof.
  unfold firing. pose proof (emitAll_fields es g) as H.
  decompose [and] H. congruence.
Qed.

Lemma pools_emitAll (es : list Effect) (g : Gun) :
  pools (emitAll es g) = pools g.
Proof.
  unfold pools. pose proof (emitAll_fields es g) as H.
  decompose [and] H. congruence.
Qed.

Lemma pool_inv_emitAll (es : list Effect) (g : Gun) :
  pool_inv (emitAll es g) <-> pool_inv g.
Proof.
  unfold pool_inv. pose proof (emitAll_fields es g) as H.
  decompose [and] H. clear H.
  repeat match goal with E : _ (emitAll es g) = _ |- _ => rewrite E; clear E end.
  reflexivity.
Qed.

Lemma filter_none {A} (f : A -> bool) (l : list A) :
  (forall x, In x l -> f x = false) -> filter f l = [].
Proof.
  induction l as [|a l IH]; intros H; cbn; [reflexivity|].
  rewrite (H a (or_introl eq_refl)). apply IH. intros x Hx. apply H. now right.
Qed.

Lemma tally_emitAll (es : list Effect) (g : Gun) :
  forallb (fun e => negb (isFired e || isCue e)) es = true ->
  tally (emitAll es g) = tally g.
Proof.
  intros H. unfold tally. pose proof (emitAll_fields es g) as HF.
  decompose [and] HF.
  match goal with E : log _ = _ |- _ => rewrite E end.
  rewrite !filter_app, !length_app.
  replace (filter isFired (rev es)) with (@nil Effect);
    [replace (filter isCue (rev es)) with (@nil Effect); [reflexivity|]|];
    symmetry; apply filter_none; intros e He; apply in_rev in He;
    rewrite forallb_forall in H; specialize (H e He);
    destruct e; cbn in *; congruence.
Qed.
(** *** Frame facts for the pure operations *)

Lemma impactFX_emitAll (es : list Effect) (g : Gun) :
  impactFX (emitAll es g) = impactFX g.
Proof. pose proof (emitAll_fields es g) as H. decompose [and] H. assumption. Qed.

Lemma missFX_emitAll (es : list Effect) (g : Gun) :
  missFX (emitAll es g) = missFX g.
Proof. pose proof (emitAll_fields es g) as H. decompose [and] H. assumption. Qed.

Lemma nextImpactFXIdx_emitAll (es : list Effect) (g : Gun) :
  nextImpactFXIdx (emitAll es g) = nextImpactFXIdx g.
Proof. pose proof (emitAll_fields es g) as H. decompose [and] H. assumption. Qed.

Lemma nextMissFXIdx_emitAll (es : list Effect) (g : Gun) :
  nextMissFXIdx (emitAll es g) = nextMissFXIdx g.
Proof. pose proof (emitAll_fields es g) as H. decompose [and] H. assumption. Qed.

Lemma attackCooldown_emitAll (es : list Effect) (g : Gun) :
  attackCooldown (emitAll es g) = attackCooldown g.
Proof. pose proof (emitAll_fields es g) as H. decompose [and] H. assumption. Qed.

Lemma attackCooldownTimer_emitAll (es : list Effect) (g : Gun) :
  attackCooldownTimer (emitAll es g) = attackCooldownTimer g.
Proof. pose proof (emitAll_fields es g) as H. decompose [and] H. assumption. Qed.

Lemma reloadTimer_emitAll (es : list Effect) (g : Gun) :
  reloadTimer (emitAll es g) = reloadTimer g.
Proof. pose proof (emitAll_fields es g) as H. decompose [and] H. assumption. Qed.

Lemma autoAttackTimer_emitAll (es : list Effect) (g : Gun) :
  autoAttackTimer (emitAll es g) = autoAttackTimer g.
Proof. pose proof (emitAll_fields es g) as H. decompose [and] H. assumption. Qed.

Lemma fireDelay_emitAll (es : list Effect) (g : Gun) :
  fireDelay (emitAll es g) = fireDelay g.
Proof. pose proof (emitAll_fields es g) as H. decompose [and] H. assumption. Qed.

Lemma bulletBurstTimer_emitAll (es : list Effect) (g : Gun) :
  bulletBurstTimer (emitAll es g) = bulletBurstTimer g.
Proof. pose proof (emitAll_fields es g) as H. decompose [and] H. assumption. Qed.

Lemma currentBurstCount_emitAll (es : list Effect) (g : Gun) :
  currentBurstCount (emitAll es g) = currentBurstCount g.
Proof. pose proof (emitAll_fields es g) as H. decompose [and] H. assumption. Qed.

Lemma loadedAmmo_emitAll (es : list Effect) (g : Gun) :
  _loadedAmmo (emitAll es g) = _loadedAmmo g.
Proof. pose proof (emitAll_fields es g) as H. decompose [and] H. assumption. Qed.

Lemma reserveAmmo_emitAll (es : list Effect) (g : Gun) :
  _reserveAmmo (emitAll es g) = _reserveAmmo g.
Proof. pose proof (emitAll_fields es g) as H. decompose [and] H. assumption. Qed.

Lemma log_emitAll (es : list Effect) (g : Gun) :
  log (emitAll es g) = rev es ++ log g.
Proof. pose proof (emitAll_fields es g) as H. decompose [and] H. assumption. Qed.

Create Rewrite HintDb fields.
#[local] Hint Rewrite impactFX_emitAll missFX_emitAll nextImpactFXIdx_emitAll nextMissFXIdx_emitAll attackCooldown_emitAll attackCooldownTimer_emitAll reloadTimer_emitAll autoAttackTimer_emitAll fireDelay_emitAll bulletBurstTimer_emitAll currentBurstCount_emitAll loadedAmmo_emitAll reserveAmmo_emitAll : fields.

Arguments emitAll : simpl never.

Ltac proj :=
  cbn [impactFX missFX nextImpactFXIdx nextMissFXIdx attackCooldown
       attackCooldownTimer reloadTimer autoAttackTimer fireDelay
       bulletBurstTimer currentBurstCount _loadedAmmo _reserveAmmo log
       with_impactFX with_missFX with_nextImpactFXIdx with_nextMissFXIdx
       with_attackCooldown with_attackCooldownTimer with_reloadTimer
       with_autoAttackTimer with_fireDelay with_bulletBurstTimer
       with_currentBurstCount with_loadedAmmo with_reserveAmmo emit
       loadedAmmo reserveAmmo fst snd negb andb orb].

Ltac proj_in H :=
  cbn [impactFX missFX nextImpactFXIdx nextMissFXIdx attackCooldown
       attackCooldownTimer reloadTimer autoAttackTimer fireDelay
       bulletBurstTimer currentBurstCount _loadedAmmo _reserveAmmo log
       with_impactFX with_missFX with_nextImpactFXIdx with_nextMissFXIdx
       with_attackCooldown with_attackCooldownTimer with_reloadTimer
       with_autoAttackTimer with_fireDelay with_bulletBurstTimer
       with_currentBurstCount with_loadedAmmo with_reserveAmmo emit
       loadedAmmo reserveAmmo fst snd negb andb orb] in H.

Ltac split_tests :=
  repeat (proj; first
    [ match goal with
      | |- context [ match ?x with _ => _ end ] => is_var x; destruct x
      end
    | match goal with
      | |- context [ if ?b then _ else _ ] => destruct b eqn:?
      | |- context [ match ?x with _ => _ end ] => destruct x eqn:?
      end ]).

Ltac unfold_pure :=
  cbv beta delta [set_loadedAmmo set_reserveAmmo preStart stopFX syncFX
    onSyncImpactFX onSyncMissFX triggerFX resetReload resetBurst
    resetAutoAttack receiveOwnership transferOwnership triggerReload
    onGrantAmmo sendDamageEvent fireWithProjectile triggerBurst
    triggerAutoAttack onCooldownElapsed onReloadTimer onInputReload
    onGrabEnd keeps maintains indices firing pools loadedAmmo reserveAmmo];
  cbn zeta.

Ltac fields := cbn; autorewrite with fields; cbn.

Ltac frame_pure :=
  intros; unfold_pure; split_tests; repeat fields; try reflexivity.

Lemma indices_pure :
  (forall v g, indices (set_loadedAmmo v g) = indices g) /\
  (forall v g, indices (set_reserveAmmo v g) = indices g) /\
  (forall g, indices (triggerReload g) = indices g) /\
  (forall a g, indices (onGrantAmmo a g) = indices g) /\
  (forall g, indices (onGrabEnd g) = indices g) /\
  (forall g, indices (onCooldownElapsed g) = indices g) /\
  (forall g, indices (onReloadTimer g) = indices g) /\
  (forall l g, indices (onSyncImpactFX l g) = indices g) /\
  (forall l g, indices (onSyncMissFX l g) = indices g) /\
  (forall s g, indices (receiveOwnership s g) = indices g) /\
  (forall g, indices (snd (transferOwnership g)) = indices g) /\
  (forall b g, indices (onInputReload b g) = indices g).
Proof.
  repeat split; frame_pure.
Qed.

(** ** The effect pool *)

Lemma js_rem_in_bounds (a n : Z) : 0 <= a -> 0 < n -> 0 <= js_rem a n < n.
Proof. intros Ha Hn. unfold js_rem. apply Z.rem_bound_pos; lia. Qed.

Lemma js_index_in_bounds {A} (xs : list A) (i : Z) :
  0 <= i < Z.of_nat (length xs) -> exists x, js_index xs i = Some x.
Proof.
  intros [H0 H1]. unfold js_index.
  destruct (Z.ltb_spec i 0); [lia|].
  destruct (nth_error xs (Z.to_nat i)) as [x|] eqn:E; [now exists x|].
  apply nth_error_None in E. lia.
Qed.

(** What [getImpactFX] does on a pool whose index is not negative. *)
Lemma getImpactFX_nonempty (g : Gun) :
  0 <= nextImpactFXIdx g -> impactFX g <> [] ->
  let n := Z.of_nat (length (impactFX g)) in
  let index := js_rem (nextImpactFXIdx g) n in
  0 <= index < n /\
  exists group, js_index (impactFX g) index = Some group /\
    getImpactFX g =
    Ok (fx group)
       (emitAll (map FxStop (fx group)) (with_nextImpactFXIdx (index + 1) g)).
Proof.
  intros Hidx Hne n index.
  assert (Hn : 0 < n) by (subst n; destruct (impactFX g); cbn in *; [congruence|lia]).
  assert (Hb : 0 <= index < n) by (apply js_rem_in_bounds; assumption).
  split; [exact Hb|].
  destruct (js_index_in_bounds (impactFX g) index Hb) as [group Hg].
  exists group. split; [exact Hg|].
  unfold getImpactFX. fold n. destruct (Z.eqb_spec n 0); [lia|].
  fold index. cbn. rewrite Hg. reflexivity.
Qed.

Lemma getMissFX_nonempty (g : Gun) :
  0 <= nextMissFXIdx g -> missFX g <> [] ->
  let n := Z.of_nat (length (missFX g)) in
  let index := js_rem (nextMissFXIdx g) n in
  0 <= index < n /\
  exists group, js_index (missFX g) index = Some group /\
    getMissFX g =
    Ok (fx group)
       (emitAll (map FxStop (fx group)) (with_nextMissFXIdx (index + 1) g)).
Proof.
  intros Hidx Hne n index.
  assert (Hn : 0 < n) by (subst n; destruct (missFX g); cbn in *; [congruence|lia]).
  assert (Hb : 0 <= index < n) by (apply js_rem_in_bounds; assumption).
  split; [exact Hb|].
  destruct (js_index_in_bounds (missFX g) index Hb) as [group Hg].
  exists group. split; [exact Hg|].
  unfold getMissFX. fold n. destruct (Z.eqb_spec n 0); [lia|].
  fold index. cbn. rewrite Hg. reflexivity.
Qed.

Lemma getImpactFX_empty (g : Gun) : impactFX g = [] -> getImpactFX g = Ok [] g.
Proof. intros H. unfold getImpactFX. rewrite H. reflexivity. Qed.

Lemma getMissFX_empty (g : Gun) : missFX g = [] -> getMissFX g = Ok [] g.
Proof. intros H. unfold getMissFX. rewrite H. reflexivity. Qed.

Lemma forallb_not_fired_stop (l : list ParticleGizmo) :
  forallb (fun e => negb (isFired e || isCue e)) (map FxStop l) = true.
Proof. induction l; cbn; auto. Qed.

Lemma forallb_not_fired_play (p : Vec3) (l : list ParticleGizmo) :
  forallb (fun e => negb (isFired e || isCue e)) (map (FxPlayAt p) l) = true.
Proof. induction l; cbn; auto. Qed.

(** Summary used by the firing proofs: with non-negative indices a retrieval
    returns, and only moves its index and the log. *)
Lemma getImpactFX_ok (g : Gun) :
  pool_inv g ->
  exists l g', getImpactFX g = Ok l g' /\ firing g' = firing g /\
    pools g' = pools g /\ pool_inv g' /\ tally g' = tally g.
Proof.
  intros [Hi Hm]. destruct (impactFX g) as [|x xs] eqn:E.
  - exists [], g. rewrite getImpactFX_empty by assumption.
    repeat split; assumption.
  - destruct (getImpactFX_nonempty g Hi) as [Hb [group [_ ->]]];
      [congruence|].
    eexists _, _. split; [reflexivity|].
    rewrite firing_emitAll, pools_emitAll, pool_inv_emitAll, tally_emitAll
      by apply forallb_not_fired_stop.
    repeat split; cbn; try assumption. lia.
Qed.

Lemma getMissFX_ok (g : Gun) :
  pool_inv g ->
  exists l g', getMissFX g = Ok l g' /\ firing g' = firing g /\
    pools g' = pools g /\ pool_inv g' /\ tally g' = tally g.
Proof.
  intros [Hi Hm]. destruct (missFX g) as [|x xs] eqn:E.
  - exists [], g. rewrite getMissFX_empty by assumption.
    repeat split; assumption.
  - destruct (getMissFX_nonempty g Hm) as [Hb [group [_ ->]]];
      [congruence|].
    eexists _, _. split; [reflexivity|].
    rewrite firing_emitAll, pools_emitAll, pool_inv_emitAll, tally_emitAll
      by apply forallb_not_fired_stop.
    repeat split; cbn; try assumption. lia.
Qed.

(** Whether they return or throw, the retrievals leave the firing fields and
    the pool contents alone. *)
Lemma getImpactFX_keeps : preserves (keeps (fun g => (firing g, pools g))) getImpactFX.
Proof.
  intros g. unfold keeps, getImpactFX. split_tests; cbn;
    rewrite ?firing_emitAll, ?pools_emitAll; reflexivity.
Qed.

Lemma getMissFX_keeps : preserves (keeps (fun g => (firing g, pools g))) getMissFX.
Proof.
  intros g. unfold keeps, getMissFX. split_tests; cbn;
    rewrite ?firing_emitAll, ?pools_emitAll; reflexivity.
Qed.

Ltac keeps_steps :=
  repeat match goal with
  | |- preserves _ (bind _ _) =>
      apply preserves_bind; [apply keeps_transitive | | intros ? ]
  | |- preserves _ getImpactFX => apply getImpactFX_keeps
  | |- preserves _ getMissFX => apply getMissFX_keeps
  | |- preserves _ (ret _) => apply preserves_ret; intros; reflexivity
  | |- preserves _ (exec _) =>
      apply preserves_exec; intros; unfold keeps; frame_pure
  | |- preserves _ (if ?b then _ else _) => destruct b
  | |- preserves _ (match ?x with _ => _ end) => destruct x
  end.

Lemma fireWithRaycast_keeps (r : RaycastOutcome) :
  preserves (keeps (fun g => (firing g, pools g))) (fireWithRaycast r).
Proof. unfold fireWithRaycast. keeps_steps. Qed.

Lemma onProj_keeps :
  (forall t p, preserves (keeps (fun g => (firing g, pools g))) (onProjHitPlayer t p)) /\
  (forall t p, preserves (keeps (fun g => (firing g, pools g))) (onProjHitEntity t p)) /\
  (forall p, preserves (keeps (fun g => (firing g, pools g))) (onProjHitWorld p)) /\
  (forall p, preserves (keeps (fun g => (firing g, pools g))) (onProjMiss p)).
Proof.
  repeat split; intros;
    unfold onProjHitPlayer, onProjHitEntity, onProjHitWorld, onProjMiss;
    keeps_steps.
Qed.

Lemma bind_Ok {A B} (m : M A) (k : A -> M B) (g g' : Gun) (a : A) :
  m g = Ok a g' -> bind m k g = k a g'.
Proof. intros H. unfold bind. rewrite H. reflexivity. Qed.

Lemma tally_emit (e : Effect) (g : Gun) :
  tally (emit e g) =
  ((if isFired e then S (shots g) else shots g),
   (if isCue e then S (outOfAmmoCues g) else outOfAmmoCues g)).
Proof.
  unfold shots, outOfAmmoCues, tally. cbn.
  destruct (isFired e), (isCue e); reflexivity.
Qed.

Lemma tally_triggerFX (p : Vec3) (l : list ParticleGizmo) (g : Gun) :
  tally (triggerFX p l g) = tally g.
Proof. apply tally_emitAll, forallb_not_fired_play. Qed.

(** With non-negative indices, hit resolution returns. *)
Lemma fireWithRaycast_ok (r : RaycastOutcome) (g : Gun) :
  pool_inv g ->
  exists g', fireWithRaycast r g = Ok tt g' /\ firing g' = firing g /\
    pools g' = pools g /\ pool_inv g' /\ tally g' = tally g.
Proof.
  intros HP. unfold fireWithRaycast.
  destruct (raycaster props); cbn [negb]; [|exists g; repeat split; apply HP].
  destruct (projectileLauncher props); cbn [negb].
  - destruct (sprayApproxZero r), (hit r) as [[[] t p]|];
      cbv [bind exec ret sendDamageEvent]; cbn;
      eexists; (split; [reflexivity|]); repeat split; apply HP.
  - destruct (hit r) as [h|].
    + destruct (getImpactFX_ok g HP) as (l & g' & E & HF & HL & HP' & HS).
      rewrite (bind_Ok _ _ g (triggerFX (hitPos r) l g') tt)
        by (rewrite (bind_Ok _ _ _ _ _ E); reflexivity).
      assert (HT : firing (triggerFX (hitPos r) l g') = firing g /\
                   pools (triggerFX (hitPos r) l g') = pools g /\
                   pool_inv (triggerFX (hitPos r) l g') /\
                   tally (triggerFX (hitPos r) l g') = tally g).
      { unfold triggerFX at 1 2 3.
        rewrite firing_emitAll, pools_emitAll, pool_inv_emitAll, tally_triggerFX.
        auto. }
      destruct HT as (T1 & T2 & T3 & T4).
      destruct (targetType h); cbv [exec ret sendDamageEvent];
        eexists; (split; [reflexivity|]);
        rewrite ?tally_emit; cbn [isFired isCue]; unfold shots, outOfAmmoCues; rewrite <- ?surjective_pairing;
        repeat split; try assumption; try apply T3.
    + destruct (getMissFX_ok g HP) as (l & g' & E & HF & HL & HP' & HS).
      rewrite (bind_Ok _ _ g (triggerFX (hitPos r) l g') tt)
        by (rewrite (bind_Ok _ _ _ _ _ E); reflexivity).
      cbv [ret]. eexists; (split; [reflexivity|]).
      unfold triggerFX at 1 2 3.
      rewrite firing_emitAll, pools_emitAll, pool_inv_emitAll, tally_triggerFX.
      auto.
Qed.

(** ** Firing: frame facts *)

Lemma finishFiring_ok (r : RaycastOutcome) (g : Gun) :
  pool_inv g ->
  exists g1, finishFiring r g = Ok tt (afterShot g1) /\
    firing g1 = firing (with_fireDelay None g) /\
    pools g1 = pools g /\ pool_inv g1 /\
    tally g1 = (S (shots g), outOfAmmoCues g).
Proof.
  intros HP. unfold finishFiring.
  set (g0 := (if ammoPerFire props >? 0
              then emit ShellFX (emit Fired (with_fireDelay None g))
              else emit Fired (with_fireDelay None g))).
  assert (H0 : firing g0 = firing (with_fireDelay None g) /\ pools g0 = pools g /\
               pool_inv g0 /\
               tally g0 = (S (shots g), outOfAmmoCues g)).
  { subst g0. destruct (ammoPerFire props >? 0); repeat split; apply HP. }
  destruct H0 as (F0 & L0 & P0 & S0).
  destruct (raycaster props) eqn:ER.
  - destruct (fireWithRaycast_ok r g0 P0) as (g1 & E1 & F1 & L1 & P1 & S1).
    exists g1. split.
    + subst g0. cbv [bind exec]. cbv beta in E1. rewrite E1. reflexivity.
    + repeat split; try congruence. apply P1. apply P1.
  - destruct (projectileLauncher props) eqn:EL.
    + exists (fireWithProjectile r g0). split.
      * cbv [bind exec]. reflexivity.
      * unfold fireWithProjectile. rewrite EL. cbn [negb].
        repeat split; try assumption; try apply P0.
    + exists g0. split; [reflexivity|]. repeat split; try assumption; apply P0.
Qed.

Lemma finishFiring_keeps (r : RaycastOutcome) :
  preserves (keeps (fun g => (ammo g, pools g))) (finishFiring r).
Proof.
  unfold finishFiring.
  repeat match goal with
  | |- preserves _ (bind _ _) =>
      apply preserves_bind; [apply keeps_transitive | | intros ? ]
  | |- preserves _ (fireWithRaycast _) =>
      intros g; pose proof (fireWithRaycast_keeps r g) as H;
      unfold keeps, ammo, firing, pools in *; congruence
  | |- preserves _ (ret _) => apply preserves_ret; intros; reflexivity
  | |- preserves _ (exec _) =>
      apply preserves_exec; intros; unfold keeps, ammo; frame_pure
  | |- preserves _ (if ?b then _ else _) => destruct b
  end.
Qed.

Lemma ammo_pure :
  (forall g, ammo (resetBurst g) = ammo g) /\
  (forall g, ammo (resetAutoAttack g) = ammo g) /\
  (forall g, ammo (resetReload g) = ammo g) /\
  (forall g, ammo (onGrabEnd g) = ammo g) /\
  (forall g, ammo (onCooldownElapsed g) = ammo g) /\
  (forall l g, ammo (onSyncImpactFX l g) = ammo g) /\
  (forall l g, ammo (onSyncMissFX l g) = ammo g) /\
  (forall g, ammo (snd (transferOwnership g)) = ammo g).
Proof. unfold ammo. repeat split; frame_pure. Qed.

(** ** Ledger theorems *)

Lemma loadedAmmoEvents_emit (e : Effect) (g : Gun) :
  loadedAmmoEvents (emit e g) =
  match e with
  | LoadedAmmoChanged _ _ => S (loadedAmmoEvents g)
  | _ => loadedAmmoEvents g
  end.
Proof. unfold loadedAmmoEvents. destruct e; reflexivity. Qed.

Lemma loadedAmmoEvents_set_loadedAmmo (v : Z) (g : Gun) :
  loadedAmmoEvents (set_loadedAmmo v g) =
  if loadedAmmo (set_loadedAmmo v g) =? loadedAmmo g
  then loadedAmmoEvents g else S (loadedAmmoEvents g).
Proof.
  rewrite loadedAmmo_set_loadedAmmo. unfold loadedAmmoEvents.
  rewrite log_set_loadedAmmo. rewrite (Z.eqb_sym (loadedAmmo g)).
  destruct (_ =? _); reflexivity.
Qed.

(** C9 (notifications), as the setters have it.  A write to [loadedAmmo] or
    [reserveAmmo] whose stored result equals the value already stored leaves
    the state and the log as they were.  Writing the same [x] to
    [loadedAmmo] twice: the second write emits nothing, and the two writes
    together emit one [loadedAmmoChanged] when the first one changed the
    stored value and none when it did not. *)
Theorem write_notifies_on_change_only (g : Gun) (x : Z) :
  (loadedAmmo (set_loadedAmmo x g) = loadedAmmo g -> set_loadedAmmo x g = g) /\
  (reserveAmmo (set_reserveAmmo x g) = reserveAmmo g -> set_reserveAmmo x g = g) /\
  set_loadedAmmo x (set_loadedAmmo x g) = set_loadedAmmo x g /\
  set_reserveAmmo x (set_reserveAmmo x g) = set_reserveAmmo x g /\
  loadedAmmoEvents (set_loadedAmmo x (set_loadedAmmo x g)) =
    (if loadedAmmo (set_loadedAmmo x g) =? loadedAmmo g
     then loadedAmmoEvents g
     else S (loadedAmmoEvents g)).
Proof.
  assert (H1 : loadedAmmo (set_loadedAmmo x g) = loadedAmmo g -> set_loadedAmmo x g = g).
  { rewrite loadedAmmo_set_loadedAmmo. apply set_loadedAmmo_same. }
  assert (H2 : reserveAmmo (set_reserveAmmo x g) = reserveAmmo g -> set_reserveAmmo x g = g).
  { rewrite reserveAmmo_set_reserveAmmo. apply set_reserveAmmo_same. }
  assert (H3 : set_loadedAmmo x (set_loadedAmmo x g) = set_loadedAmmo x g).
  { apply set_loadedAmmo_same. rewrite loadedAmmo_set_loadedAmmo. reflexivity. }
  assert (H4 : set_reserveAmmo x (set_reserveAmmo x g) = set_reserveAmmo x g).
  { apply set_reserveAmmo_same.
    rewrite loadedAmmo_set_reserveAmmo, reserveAmmo_set_reserveAmmo. reflexivity. }
  repeat split; try assumption.
  rewrite H3. apply loadedAmmoEvents_set_loadedAmmo.
Qed.

(** ** Hand-off *)

Lemma transferOwnership_snapshot (g : Gun) :
  fst (transferOwnership g) =
  {| st_loadedAmmo := loadedAmmo g; st_reserveAmmo := reserveAmmo g;
     st_impactFX := impactFX g; st_missFX := missFX g |}.
Proof.
  unfold transferOwnership. cbn [fst]. unfold stopFX.
  destruct (assetSpawner props); unfold loadedAmmo, reserveAmmo; fields;
    reflexivity.
Qed.

(** C3 (round trip).  From a state that satisfies the ammo invariants,
    [transferOwnership] followed by [receiveOwnership] of the returned
    snapshot -- on whichever instance receives it -- yields the same
    [loadedAmmo], the same [reserveAmmo] and the same impact and miss effect
    groups. *)
Theorem transfer_round_trip (g receiver : Gun) :
  ammo_inv g ->
  let snapshot := fst (transferOwnership g) in
  let g' := receiveOwnership (Some snapshot) receiver in
  loadedAmmo g' = loadedAmmo g /\
  reserveAmmo g' = reserveAmmo g /\
  impactFX g' = impactFX g /\
  missFX g' = missFX g.
Proof.
  intros [[L0 L1] [R0 R1]]. cbv zeta. rewrite transferOwnership_snapshot.
  unfold receiveOwnership. cbn [st_loadedAmmo st_reserveAmmo st_impactFX st_missFX].
  repeat split; try reflexivity.
  - change (loadedAmmo (set_reserveAmmo (reserveAmmo g)
              (set_loadedAmmo (loadedAmmo g) receiver)) = loadedAmmo g).
    rewrite loadedAmmo_set_reserveAmmo, loadedAmmo_set_loadedAmmo. lia.
  - change (reserveAmmo (set_reserveAmmo (reserveAmmo g)
              (set_loadedAmmo (loadedAmmo g) receiver)) = reserveAmmo g).
    rewrite reserveAmmo_set_reserveAmmo, loadedAmmo_set_loadedAmmo. lia.
Qed.

(** ** Reload *)

Lemma triggerReload_noop (g : Gun) :
  reloadTimer g = None -> hasUnlimitedAmmo = false ->
  let transfer := Z.min (clipSize props - loadedAmmo g) (reserveAmmo g) in
  transfer = 0 \/ transfer < ammoPerFire props ->
  triggerReload g = g.
Proof.
  intros HT HU transfer H. unfold triggerReload. rewrite HT, HU. fold transfer.
  destruct (Z.eqb_spec transfer 0); [reflexivity|].
  destruct (Z.ltb_spec transfer (ammoPerFire props)); [reflexivity|lia].
Qed.

Lemma triggerReload_moves (g : Gun) :
  reloadTimer g = None -> hasUnlimitedAmmo = false -> ammo_inv g ->
  let transfer := Z.min (clipSize props - loadedAmmo g) (reserveAmmo g) in
  transfer <> 0 -> ammoPerFire props <= transfer ->
  loadedAmmo (triggerReload g) = loadedAmmo g + transfer /\
  reserveAmmo (triggerReload g) = reserveAmmo g - transfer /\
  reloadTimer (triggerReload g) = Some (1000, ReloadWindowEnd) /\
  bulletBurstTimer (triggerReload g) = None /\
  autoAttackTimer (triggerReload g) = None /\
  fireDelay (triggerReload g) = fireDelay g /\
  attackCooldown (triggerReload g) = attackCooldown g /\
  indices (triggerReload g) = indices g /\
  pools (triggerReload g) = pools g /\
  tally (triggerReload g) = tally g.
Proof.
  intros HT HU [[L0 L1] [R0 R1]] transfer H0 H1.
  unfold hasUnlimitedAmmo in HU. apply Z.leb_gt in HU.
  unfold triggerReload. rewrite HT.
  unfold hasUnlimitedAmmo. destruct (Z.leb_spec (ammoPerFire props) 0); [lia|].
  fold transfer.
  destruct (Z.eqb_spec transfer 0); [lia|].
  destruct (Z.ltb_spec transfer (ammoPerFire props)); [lia|].
  cbv zeta.
  set (g1 := with_reloadTimer _ (resetAutoAttack (resetBurst g))).
  assert (A1 : loadedAmmo g1 = loadedAmmo g /\ reserveAmmo g1 = reserveAmmo g).
  { subst g1. frame_pure; split; reflexivity. }
  destruct A1 as [A1 A2]. rewrite A1.
  set (g2 := set_loadedAmmo (loadedAmmo g + transfer) g1).
  assert (B1 : loadedAmmo g2 = loadedAmmo g + transfer).
  { subst g2. rewrite loadedAmmo_set_loadedAmmo. lia. }
  assert (B2 : reserveAmmo g2 = reserveAmmo g).
  { subst g2. rewrite reserveAmmo_set_loadedAmmo. exact A2. }
  rewrite B2.
  split; [|split].
  - change (loadedAmmo (set_reserveAmmo (reserveAmmo g - transfer) g2) = loadedAmmo g + transfer).
    rewrite loadedAmmo_set_reserveAmmo. exact B1.
  - change (reserveAmmo (set_reserveAmmo (reserveAmmo g - transfer) g2) = reserveAmmo g - transfer).
    rewrite reserveAmmo_set_reserveAmmo, B1. lia.
  - subst g2 g1. clear. destruct g. frame_pure; repeat split; reflexivity.
Qed.


(** ** Firing: what an attack does to the ledger *)

Lemma triggerAttack_unfold (r : RaycastOutcome) (g : Gun) :
  triggerAttack r g =
  if negb (canAttack g) then
    Ok tt (let g := resetAutoAttack (resetBurst g) in
           if loadedAmmo g <? ammoPerFire props then emit OutOfAmmoSFX g else g)
  else match fireDelay g with
       | Some _ => Ok tt g
       | None =>
         if (currentBurstCount g >? 0) || isVR
         then finishFiring r (deduct g)
         else Ok tt (with_fireDelay (Some 50) (emit FireAnimation (deduct g)))
       end.
Proof.
  unfold triggerAttack, deduct. destruct (negb (canAttack g)); [reflexivity|].
  destruct (fireDelay g); [reflexivity|].
  unfold set_loadedAmmo. proj.
  destruct (ammoPerFire props >? 0); [destruct (negb _)|]; proj;
    destruct (currentBurstCount g >? 0); destruct isVR; reflexivity.
Qed.

Lemma ammo_deduct (g : Gun) :
  ammo (deduct g) =
  if ammoPerFire props >? 0
  then (Z.max 0 (Z.min (Z.max 0 (clipSize props)) (loadedAmmo g - ammoPerFire props)),
        reserveAmmo g)
  else ammo g.
Proof.
  unfold deduct, ammo. cbv zeta. destruct (ammoPerFire props >? 0); [|reflexivity].
  change (_loadedAmmo ?x) with (loadedAmmo x).
  change (_reserveAmmo ?x) with (reserveAmmo x).
  rewrite loadedAmmo_set_loadedAmmo, reserveAmmo_set_loadedAmmo. reflexivity.
Qed.

(** The ledger after [triggerAttack]: untouched when the attack is refused
    or a fire delay is pending, the deduction otherwise. *)
Lemma ammo_triggerAttack (r : RaycastOutcome) (g : Gun) :
  ammo (stateOf (triggerAttack r g)) =
  if canAttack g then
    match fireDelay g with Some _ => ammo g | None => ammo (deduct g) end
  else ammo g.
Proof.
  rewrite triggerAttack_unfold. destruct (canAttack g); cbn [negb].
  - destruct (fireDelay g); [reflexivity|].
    destruct (_ || _).
    + pose proof (finishFiring_keeps r (deduct g)) as H. unfold keeps in H.
      congruence.
    + reflexivity.
  - cbn [stateOf]. destruct g. unfold ammo. frame_pure.
Qed.

Lemma ammo_monadic (r : RaycastOutcome) (g : Gun) :
  ammo (stateOf (onFireDelay r g)) = ammo g /\
  ammo (stateOf (onBurstTick r g)) =
    match bulletBurstTimer g with
    | Some _ => if currentBurstCount g =? 0 then ammo g
                else ammo (stateOf (triggerAttack r (with_attackCooldown false g)))
    | None => ammo g
    end /\
  ammo (stateOf (onAutoAttackTick r g)) =
    match autoAttackTimer g with
    | Some _ => ammo (stateOf (triggerAttack r (with_attackCooldown false g)))
    | None => ammo g
    end.
Proof.
  split; [|split].
  - unfold onFireDelay. destruct (fireDelay g); [|reflexivity].
    pose proof (finishFiring_keeps r g) as H. unfold keeps in H. congruence.
  - unfold onBurstTick. destruct (bulletBurstTimer g) eqn:E; [|reflexivity].
    destruct (currentBurstCount g =? 0).
    + cbn [stateOf]. destruct g. unfold ammo. frame_pure.
    + cbv [bind exec].
      destruct (triggerAttack r (with_attackCooldown false g)); reflexivity.
  - unfold onAutoAttackTick. destruct (autoAttackTimer g); [|reflexivity].
    cbv [bind exec]. reflexivity.
Qed.

Lemma canAttack_with_attackCooldown_false (g : Gun) :
  canAttack (with_attackCooldown false g) =
  (Z.max 0 (ammoPerFire props) =? 0) || negb (Z.max 0 (ammoPerFire props) >? loadedAmmo g).
Proof.
  unfold canAttack. proj. destruct (_ =? 0); [reflexivity|].
  destruct (_ >? _); reflexivity.
Qed.

(** [loadedAmmo] through the pure operations. *)
Lemma loadedAmmo_resets (g : Gun) :
  loadedAmmo (resetBurst g) = loadedAmmo g /\
  loadedAmmo (resetAutoAttack g) = loadedAmmo g /\
  loadedAmmo (resetReload g) = loadedAmmo g.
Proof.
  unfold resetBurst, resetAutoAttack, resetReload. proj.
  destruct (bulletBurstTimer g), (autoAttackTimer g), (reloadTimer g);
    repeat split; reflexivity.
Qed.

Lemma nonneg_triggerReload (g : Gun) :
  0 <= loadedAmmo g -> 0 <= loadedAmmo (triggerReload g).
Proof.
  intros H. unfold triggerReload.
  destruct (reloadTimer g); [exact H|].
  destruct hasUnlimitedAmmo; [exact H|].
  destruct (_ =? 0); [exact H|].
  destruct (_ <? _); [exact H|].
  cbv zeta.
  change (0 <= loadedAmmo (set_reserveAmmo
            (reserveAmmo (set_loadedAmmo
               (loadedAmmo (with_reloadTimer (Some (1000, ReloadWindowEnd))
                              (resetAutoAttack (resetBurst g))) +
                Z.min (clipSize props - loadedAmmo g) (reserveAmmo g))
               (with_reloadTimer (Some (1000, ReloadWindowEnd))
                  (resetAutoAttack (resetBurst g)))) -
             Z.min (clipSize props - loadedAmmo g) (reserveAmmo g))
            (set_loadedAmmo
               (loadedAmmo (with_reloadTimer (Some (1000, ReloadWindowEnd))
                              (resetAutoAttack (resetBurst g))) +
                Z.min (clipSize props - loadedAmmo g) (reserveAmmo g))
               (with_reloadTimer (Some (1000, ReloadWindowEnd))
                  (resetAutoAttack (resetBurst g)))))).
  rewrite loadedAmmo_set_reserveAmmo, loadedAmmo_set_loadedAmmo.
  apply Z.le_max_l.
Qed.

Lemma nonneg_pure (g : Gun) :
  0 <= loadedAmmo g ->
  (forall a, 0 <= loadedAmmo (onGrantAmmo a g)) /\
  0 <= loadedAmmo (onReloadTimer g) /\
  (forall s, 0 <= loadedAmmo (receiveOwnership s g)) /\
  (forall b, 0 <= loadedAmmo (onInputReload b g)).
Proof.
  intros H. repeat split.
  - intros a. unfold onGrantAmmo. cbv zeta.
    assert (H' : 0 <= loadedAmmo (set_reserveAmmo (reserveAmmo g + a) g))
      by (rewrite loadedAmmo_set_reserveAmmo; exact H).
    destruct (_ && _); [apply nonneg_triggerReload|]; exact H'.
  - unfold onReloadTimer. destruct (reloadTimer g) as [[d []]|];
      [apply nonneg_triggerReload| |]; exact H.
  - intros [s|]; [|exact H]. unfold receiveOwnership. cbv zeta.
    change (0 <= loadedAmmo (set_reserveAmmo (st_reserveAmmo s)
                               (set_loadedAmmo (st_loadedAmmo s) g))).
    rewrite loadedAmmo_set_reserveAmmo, loadedAmmo_set_loadedAmmo.
    apply Z.le_max_l.
  - intros [|]; cbn [onInputReload negb]; [apply nonneg_triggerReload|]; exact H.
Qed.

Lemma ammo_onInputAttack_release (r : RaycastOutcome) (g : Gun) :
  ammo (stateOf (onInputAttack false r g)) = ammo g.
Proof.
  unfold onInputAttack. cbn [negb exec stateOf].
  destruct ammo_pure as (A1 & A2 & _). rewrite A2, A1. reflexivity.
Qed.

(** Every entry point leaves [loadedAmmo] at zero or above. *)
Lemma step_nonneg (i : Input) (g : Gun) :
  0 <= loadedAmmo g -> 0 <= loadedAmmo (step i g).
Proof.
  intros H.
  assert (HD : forall g, 0 <= loadedAmmo g -> 0 <= fst (ammo (deduct g))).
  { intros g0 H0. rewrite ammo_deduct.
    destruct (_ >? _); cbn [fst ammo]; [apply Z.le_max_l|exact H0]. }
  assert (HA : forall r g, 0 <= loadedAmmo g ->
                 0 <= fst (ammo (stateOf (triggerAttack r g)))).
  { intros r g0 H0. rewrite ammo_triggerAttack.
    destruct (canAttack g0); [destruct (fireDelay g0)|]; auto. }
  assert (HK : forall g', ammo g' = ammo g -> 0 <= loadedAmmo g').
  { intros g' E. unfold ammo in E. injection E as E1 E2.
    unfold loadedAmmo in *. rewrite E1. exact H. }
  destruct (nonneg_pure g H) as (N1 & N2 & N3 & N4).
  destruct ammo_pure as (A1 & A2 & A3 & A4 & A5 & A6 & A7 & A8).
  unfold step. destruct i; cbn [dispatch exec stateOf].
  - destruct pressed.
    + apply (HA r g H).
    + apply HK, ammo_onInputAttack_release.
  - apply N4.
  - apply N1.
  - apply HK, A4.
  - apply HK. apply (proj1 (ammo_monadic r g)).
  - apply HK, A5.
  - change (0 <= fst (ammo (stateOf (onBurstTick r g)))).
    rewrite (proj1 (proj2 (ammo_monadic r g))).
    destruct (bulletBurstTimer g); [|exact H].
    destruct (_ =? 0); [exact H|]. apply HA. exact H.
  - change (0 <= fst (ammo (stateOf (onAutoAttackTick r g)))).
    rewrite (proj2 (proj2 (ammo_monadic r g))).
    destruct (autoAttackTimer g); [|exact H]. apply HA. exact H.
  - apply N2.
  - apply HK, A6.
  - apply HK, A7.
  - pose proof (proj1 onProj_keeps t position g) as K. unfold keeps, firing in K.
    apply HK. unfold ammo. congruence.
  - pose proof (proj1 (proj2 onProj_keeps) t position g) as K. unfold keeps, firing in K.
    apply HK. unfold ammo. congruence.
  - pose proof (proj1 (proj2 (proj2 onProj_keeps)) position g) as K. unfold keeps, firing in K.
    apply HK. unfold ammo. congruence.
  - pose proof (proj2 (proj2 (proj2 onProj_keeps)) position g) as K. unfold keeps, firing in K.
    apply HK. unfold ammo. congruence.
  - apply N3.
  - apply HK, A8.
Qed.

(** C1 (no negative ammo).  From a state with [loadedAmmo >= 0], after every
    prefix of every finite sequence of inputs -- sequences of
    [triggerAttack] calls in particular -- [loadedAmmo >= 0]; and a
    [triggerAttack] whose [ammoPerFire] exceeds the current [loadedAmmo] is
    refused by [canAttack] and leaves both counters as they were. *)
Theorem loaded_never_negative (g : Gun) (inputs : list Input) :
  0 <= loadedAmmo g ->
  Forall (fun g' => 0 <= loadedAmmo g') (states inputs g) /\
  (forall rs, Forall (fun g' => 0 <= loadedAmmo g')
                     (states (map (AttackInput true) rs) g)) /\
  (forall g' r, 0 <= loadedAmmo g' -> loadedAmmo g' < ammoPerFire props ->
     canAttack g' = false /\
     triggerAttack r g' = Ok tt (emit OutOfAmmoSFX (resetAutoAttack (resetBurst g'))) /\
     ammo (stateOf (triggerAttack r g')) = ammo g').
Proof.
  intros H.
  assert (HS : forall l g0, 0 <= loadedAmmo g0 ->
             Forall (fun g' => 0 <= loadedAmmo g') (states l g0)).
  { induction l as [|i l IH]; intros g0 H0; cbn [states]; constructor.
    - apply step_nonneg, H0.
    - apply IH, step_nonneg, H0. }
  split; [apply HS, H|]. split; [intros rs; apply HS, H|].
  intros g' r H0 H1.
  assert (HC : canAttack g' = false).
  { unfold canAttack. destruct (attackCooldown g'); [reflexivity|].
    destruct (Z.eqb_spec (Z.max 0 (ammoPerFire props)) 0); [lia|].
    rewrite Z.gtb_ltb. destruct (Z.ltb_spec (loadedAmmo g') (Z.max 0 (ammoPerFire props)));
      [reflexivity|lia]. }
  split; [exact HC|]. split.
  - rewrite triggerAttack_unfold, HC. cbn [negb]. cbv zeta.
    replace (loadedAmmo (resetAutoAttack (resetBurst g'))) with (loadedAmmo g')
      by (destruct g'; frame_pure).
    destruct (Z.ltb_spec (loadedAmmo g') (ammoPerFire props)); [reflexivity|lia].
  - rewrite ammo_triggerAttack, HC. reflexivity.
Qed.

(** ** Reachable states keep the pool indices non-negative *)

Lemma pool_inv_indices (g g' : Gun) :
  indices g' = indices g -> pool_inv g -> pool_inv g'.
Proof. unfold indices, pool_inv. intros E. injection E as -> ->. auto. Qed.

Lemma indices_firing_helpers :
  (forall g, indices (deduct g) = indices g) /\
  (forall g, indices (afterShot g) = indices g) /\
  (forall g, indices (resetAutoAttack (resetBurst g)) = indices g) /\
  (forall g, pools (deduct g) = pools g) /\
  (forall g, pools (afterShot g) = pools g) /\
  (forall g, pools (resetAutoAttack (resetBurst g)) = pools g).
Proof.
  repeat split; intros g; destruct g; unfold deduct, afterShot; frame_pure.
Qed.

Lemma triggerAttack_ok (r : RaycastOutcome) (g : Gun) :
  pool_inv g ->
  exists g', triggerAttack r g = Ok tt g' /\ pool_inv g' /\ pools g' = pools g.
Proof.
  intros HP. destruct indices_firing_helpers as (I1 & I2 & I3 & P1 & P2 & P3).
  rewrite triggerAttack_unfold. destruct (negb (canAttack g)).
  - eexists. split; [reflexivity|]. cbv zeta.
    destruct (_ <? _); split;
      try (apply (pool_inv_indices g); [|exact HP]); try apply I3; try apply P3.
  - destruct (fireDelay g); [exists g; auto|].
    destruct (_ || _).
    + assert (HD : pool_inv (deduct g))
        by (apply (pool_inv_indices g); [apply I1|exact HP]).
      destruct (finishFiring_ok r _ HD) as (g1 & E & F1 & L1 & Q1 & S1).
      exists (afterShot g1). split; [exact E|]. split.
      * apply (pool_inv_indices g1); [apply I2|exact Q1].
      * rewrite P2, L1. apply P1.
    + eexists. split; [reflexivity|]. split.
      * apply (pool_inv_indices g); [|exact HP]. unfold indices. proj. apply I1.
      * unfold pools. proj. apply P1.
Qed.

Lemma step_pool_inv (i : Input) (g : Gun) : pool_inv g -> pool_inv (step i g).
Proof.
  intros HP. destruct indices_pure as
    (I1 & I2 & I3 & I4 & I5 & I6 & I7 & I8 & I9 & I10 & I11 & I12).
  destruct indices_firing_helpers as (J1 & J2 & J3 & _).
  unfold step. destruct i; cbn [dispatch exec stateOf];
    try (apply (pool_inv_indices g); [|exact HP]; auto; fail).
  - unfold onInputAttack. destruct pressed; cbn [negb exec stateOf].
    + destruct (triggerAttack_ok r g HP) as (g' & -> & Q & _). exact Q.
    + apply (pool_inv_indices g); [apply J3|exact HP].
  - unfold onFireDelay. destruct (fireDelay g); [|exact HP].
    destruct (finishFiring_ok r g HP) as (g1 & -> & _ & _ & Q & _).
    apply (pool_inv_indices g1); [apply J2|exact Q].
  - unfold onBurstTick. destruct (bulletBurstTimer g); [|exact HP].
    destruct (_ =? 0).
    + cbn [stateOf]. apply (pool_inv_indices g); [|exact HP].
      destruct g; frame_pure.
    + cbv [bind exec].
      destruct (triggerAttack_ok r (with_attackCooldown false g) HP) as (g' & -> & Q & _).
      exact Q.
  - unfold onAutoAttackTick. destruct (autoAttackTimer g); [|exact HP].
    cbv [bind exec].
    destruct (triggerAttack_ok r (with_attackCooldown false g) HP) as (g' & -> & Q & _).
    exact Q.
  - unfold onProjHitPlayer.
    destruct (getImpactFX_ok g HP) as (l & g' & E & _ & _ & Q & _).
    cbv [bind exec ret]. rewrite E.
    destruct (negb (raycaster props)); cbn [stateOf]; unfold triggerFX;
      [unfold sendDamageEvent; apply (pool_inv_indices (emitAll (map (FxPlayAt position) l) g'));
         [reflexivity|]|]; apply pool_inv_emitAll, Q.
  - unfold onProjHitEntity.
    destruct (getImpactFX_ok g HP) as (l & g' & E & _ & _ & Q & _).
    cbv [bind exec ret]. rewrite E.
    destruct (negb (raycaster props)); cbn [stateOf]; unfold triggerFX;
      [unfold sendDamageEvent; apply (pool_inv_indices (emitAll (map (FxPlayAt position) l) g'));
         [reflexivity|]|]; apply pool_inv_emitAll, Q.
  - unfold onProjHitWorld.
    destruct (getImpactFX_ok g HP) as (l & g' & E & _ & _ & Q & _).
    cbv [bind exec ret]. rewrite E. cbn [stateOf]. apply pool_inv_emitAll, Q.
  - unfold onProjMiss.
    destruct (getMissFX_ok g HP) as (l & g' & E & _ & _ & Q & _).
    cbv [bind exec ret]. rewrite E. cbn [stateOf]. apply pool_inv_emitAll, Q.
Qed.

Lemma run_app (l1 l2 : list Input) (g : Gun) :
  run (l1 ++ l2) g = run l2 (run l1 g).
Proof. unfold run. apply fold_left_app. Qed.

Lemma run_pool_inv (inputs : list Input) (g : Gun) :
  pool_inv g -> pool_inv (run inputs g).
Proof.
  revert g. induction inputs as [|i l IH]; intros g H; [exact H|].
  cbn. apply IH, step_pool_inv, H.
Qed.

Lemma reachable_pool_inv (g : Gun) : reachable g -> pool_inv g.
Proof.
  intros [inputs ->]. apply run_pool_inv.
  apply (pool_inv_indices newGun); [|split; cbn; lia].
  unfold preStart. destruct indices_pure as (I1 & I2 & _).
  rewrite I2, I1. reflexivity.
Qed.

(** C10 (pool retrieval).  In every reachable state [getImpactFX] and
    [getMissFX] return.  On an empty pool they return the empty list and
    change nothing.  On a non-empty pool the group is read at
    [nextIdx % length], which lies within the pool, and the stored index
    becomes that position plus one -- again non-negative, so a later
    retrieval is in bounds for any non-empty pool. *)
Theorem pool_retrieval_total (g : Gun) :
  reachable g ->
  (impactFX g = [] -> getImpactFX g = Ok [] g) /\
  (missFX g = [] -> getMissFX g = Ok [] g) /\
  (impactFX g <> [] ->
     let n := Z.of_nat (length (impactFX g)) in
     let index := js_rem (nextImpactFXIdx g) n in
     0 <= index < n /\
     exists group g',
       js_index (impactFX g) index = Some group /\
       getImpactFX g = Ok (fx group) g' /\
       nextImpactFXIdx g' = index + 1 /\ impactFX g' = impactFX g /\
       forall m, 0 < m -> 0 <= js_rem (nextImpactFXIdx g') m < m) /\
  (missFX g <> [] ->
     let n := Z.of_nat (length (missFX g)) in
     let index := js_rem (nextMissFXIdx g) n in
     0 <= index < n /\
     exists group g',
       js_index (missFX g) index = Some group /\
       getMissFX g = Ok (fx group) g' /\
       nextMissFXIdx g' = index + 1 /\ missFX g' = missFX g /\
       forall m, 0 < m -> 0 <= js_rem (nextMissFXIdx g') m < m).
Proof.
  intros HR. destruct (reachable_pool_inv g HR) as [HI HM].
  split; [apply getImpactFX_empty|]. split; [apply getMissFX_empty|]. split.
  - intros Hne. destruct (getImpactFX_nonempty g HI Hne) as (Hb & group & Hg & E).
    cbv zeta. split; [exact Hb|]. exists group. eexists.
    split; [exact Hg|]. split; [exact E|].
    rewrite nextImpactFXIdx_emitAll, impactFX_emitAll. proj.
    repeat split; try reflexivity; apply js_rem_in_bounds; lia.
  - intros Hne. destruct (getMissFX_nonempty g HM Hne) as (Hb & group & Hg & E).
    cbv zeta. split; [exact Hb|]. exists group. eexists.
    split; [exact Hg|]. split; [exact E|].
    rewrite nextMissFXIdx_emitAll, missFX_emitAll. proj.
    repeat split; try reflexivity; apply js_rem_in_bounds; lia.
Qed.

(** ** Reload window *)



(** ** Hitscan with a visualisation projectile *)

(** C8 (visualisation launch), as the code has it.  With a raycaster and a
    projectile launcher both set, [fireWithRaycast] launches the projectile
    with duration [d / projectileSpeed], where [d] is the distance from the
    launcher to the hit point plus 4 when the ray hit something, and that
    distance itself when it did not.  When the spray angle is approximately
    zero the launch is immediate and the launcher is not rotated; otherwise
    the launcher's local rotation is set from the spray angles and the
    launch is deferred by a 1 ms timeout.  A hit on a player or an entity
    also sends the damage event. *)
Theorem visualisation_launch (g : Gun) (r : RaycastOutcome) :
  raycaster props = true -> projectileLauncher props = true ->
  let d := match hit r with
           | Some _ => (launcherDistance r + 4)%Q
           | None => launcherDistance r
           end in
  let duration := (d / projectileSpeed props)%Q in
  let xDeg := if isVR then fst (sprayAngle r) else (- fst (sprayAngle r))%Q in
  let yDeg := if isVR then snd (sprayAngle r) else (- snd (sprayAngle r))%Q in
  let launch :=
    if sprayApproxZero r
    then [Launch (projectileSpeed props) duration false]
    else [Launch (projectileSpeed props) duration true; LauncherRotation xDeg yDeg] in
  let damaged :=
    match hit r with
    | Some h => match targetType h with
                | TargetStatic => []
                | _ => [TakeDamage (target h) (damage props) (hitPoint h)]
                end
    | None => []
    end in
  exists g', fireWithRaycast r g = Ok tt g' /\
    log g' = damaged ++ launch ++ log g /\
    firing g' = firing g /\ pools g' = pools g /\ indices g' = indices g.
Proof.
  intros HR HL. cbv zeta. unfold fireWithRaycast. rewrite HR, HL. cbn [negb].
  destruct (sprayApproxZero r), (hit r) as [[[] t p]|];
    cbv [bind exec ret sendDamageEvent]; eexists;
    (split; [reflexivity|]); repeat split.
Qed.

(** ** Bursts *)


Section Burst.

Hypothesis burst3 : bulletBurstPerFire props = 3.
Hypothesis noAuto : autoAttack props = false.
Hypothesis limited : 0 < ammoPerFire props.













End Burst.

(** * Beyond the claims: the rest of the component

    ** Field facts for the setters *)

Lemma impactFX_of_set_loadedAmmo (v : Z) (g : Gun) : impactFX (set_loadedAmmo v g) = impactFX g.
Proof. unfold set_loadedAmmo. proj. destruct (negb _); reflexivity. Qed.

Lemma missFX_of_set_loadedAmmo (v : Z) (g : Gun) : missFX (set_loadedAmmo v g) = missFX g.
Proof. unfold set_loadedAmmo. proj. destruct (negb _); reflexivity. Qed.

Lemma nextImpactFXIdx_of_set_loadedAmmo (v : Z) (g : Gun) : nextImpactFXIdx (set_loadedAmmo v g) = nextImpactFXIdx g.
Proof. unfold set_loadedAmmo. proj. destruct (negb _); reflexivity. Qed.

Lemma nextMissFXIdx_of_set_loadedAmmo (v : Z) (g : Gun) : nextMissFXIdx (set_loadedAmmo v g) = nextMissFXIdx g.
Proof. unfold set_loadedAmmo. proj. destruct (negb _); reflexivity. Qed.

Lemma attackCooldown_of_set_loadedAmmo (v : Z) (g : Gun) : attackCooldown (set_loadedAmmo v g) = attackCooldown g.
Proof. unfold set_loadedAmmo. proj. destruct (negb _); reflexivity. Qed.

Lemma attackCooldownTimer_of_set_loadedAmmo (v : Z) (g : Gun) : attackCooldownTimer (set_loadedAmmo v g) = attackCooldownTimer g.
Proof. unfold set_loadedAmmo. proj. destruct (negb _); reflexivity. Qed.

Lemma reloadTimer_of_set_loadedAmmo (v : Z) (g : Gun) : reloadTimer (set_loadedAmmo v g) = reloadTimer g.
Proof. unfold set_loadedAmmo. proj. destruct (negb _); reflexivity. Qed.

Lemma autoAttackTimer_of_set_loadedAmmo (v : Z) (g : Gun) : autoAttackTimer (set_loadedAmmo v g) = autoAttackTimer g.
Proof. unfold set_loadedAmmo. proj. destruct (negb _); reflexivity. Qed.

Lemma fireDelay_of_set_loadedAmmo (v : Z) (g : Gun) : fireDelay (set_loadedAmmo v g) = fireDelay g.
Proof. unfold set_loadedAmmo. proj. destruct (negb _); reflexivity. Qed.

Lemma bulletBurstTimer_of_set_loadedAmmo (v : Z) (g : Gun) : bulletBurstTimer (set_loadedAmmo v g) = bulletBurstTimer g.
Proof. unfold set_loadedAmmo. proj. destruct (negb _); reflexivity. Qed.

Lemma currentBurstCount_of_set_loadedAmmo (v : Z) (g : Gun) : currentBurstCount (set_loadedAmmo v g) = currentBurstCount g.
Proof. unfold set_loadedAmmo. proj. destruct (negb _); reflexivity. Qed.

Lemma reserveAmmo_of_set_loadedAmmo (v : Z) (g : Gun) : _reserveAmmo (set_loadedAmmo v g) = _reserveAmmo g.
Proof. unfold set_loadedAmmo. proj. destruct (negb _); reflexivity. Qed.

Lemma impactFX_of_set_reserveAmmo (v : Z) (g : Gun) : impactFX (set_reserveAmmo v g) = impactFX g.
Proof. unfold set_reserveAmmo. proj. destruct (negb _); reflexivity. Qed.

Lemma missFX_of_set_reserveAmmo (v : Z) (g : Gun) : missFX (set_reserveAmmo v g) = missFX g.
Proof. unfold set_reserveAmmo. proj. destruct (negb _); reflexivity. Qed.

Lemma nextImpactFXIdx_of_set_reserveAmmo (v : Z) (g : Gun) : nextImpactFXIdx (set_reserveAmmo v g) = nextImpactFXIdx g.
Proof. unfold set_reserveAmmo. proj. destruct (negb _); reflexivity. Qed.

Lemma nextMissFXIdx_of_set_reserveAmmo (v : Z) (g : Gun) : nextMissFXIdx (set_reserveAmmo v g) = nextMissFXIdx g.
Proof. unfold set_reserveAmmo. proj. destruct (negb _); reflexivity. Qed.

Lemma attackCooldown_of_set_reserveAmmo (v : Z) (g : Gun) : attackCooldown (set_reserveAmmo v g) = attackCooldown g.
Proof. unfold set_reserveAmmo. proj. destruct (negb _); reflexivity. Qed.

Lemma attackCooldownTimer_of_set_reserveAmmo (v : Z) (g : Gun) : attackCooldownTimer (set_reserveAmmo v g) = attackCooldownTimer g.
Proof. unfold set_reserveAmmo. proj. destruct (negb _); reflexivity. Qed.

Lemma reloadTimer_of_set_reserveAmmo (v : Z) (g : Gun) : reloadTimer (set_reserveAmmo v g) = reloadTimer g.
Proof. unfold set_reserveAmmo. proj. destruct (negb _); reflexivity. Qed.

Lemma autoAttackTimer_of_set_reserveAmmo (v : Z) (g : Gun) : autoAttackTimer (set_reserveAmmo v g) = autoAttackTimer g.
Proof. unfold set_reserveAmmo. proj. destruct (negb _); reflexivity. Qed.

Lemma fireDelay_of_set_reserveAmmo (v : Z) (g : Gun) : fireDelay (set_reserveAmmo v g) = fireDelay g.
Proof. unfold set_reserveAmmo. proj. destruct (negb _); reflexivity. Qed.

Lemma bulletBurstTimer_of_set_reserveAmmo (v : Z) (g : Gun) : bulletBurstTimer (set_reserveAmmo v g) = bulletBurstTimer g.
Proof. unfold set_reserveAmmo. proj. destruct (negb _); reflexivity. Qed.

Lemma currentBurstCount_of_set_reserveAmmo (v : Z) (g : Gun) : currentBurstCount (set_reserveAmmo v g) = currentBurstCount g.
Proof. unfold set_reserveAmmo. proj. destruct (negb _); reflexivity. Qed.

Lemma loadedAmmo_of_set_reserveAmmo (v : Z) (g : Gun) : _loadedAmmo (set_reserveAmmo v g) = _loadedAmmo g.
Proof. unfold set_reserveAmmo. proj. destruct (negb _); reflexivity. Qed.

Lemma raw_loadedAmmo_set_loadedAmmo (v : Z) (g : Gun) :
  _loadedAmmo (set_loadedAmmo v g) = Z.max 0 (Z.min (Z.max 0 (clipSize props)) v).
Proof. exact (loadedAmmo_set_loadedAmmo v g). Qed.

Lemma raw_reserveAmmo_set_reserveAmmo (v : Z) (g : Gun) :
  _reserveAmmo (set_reserveAmmo v g) =
  Z.max 0 (Z.min v (Z.max 0 (maxAmmo props) - _loadedAmmo g)).
Proof. exact (reserveAmmo_set_reserveAmmo v g). Qed.

Lemma tally_of_set_loadedAmmo (v : Z) (g : Gun) :
  tally (set_loadedAmmo v g) = tally g.
Proof. unfold set_loadedAmmo, tally. proj. destruct (negb _); reflexivity. Qed.

Lemma tally_of_set_reserveAmmo (v : Z) (g : Gun) :
  tally (set_reserveAmmo v g) = tally g.
Proof. unfold set_reserveAmmo, tally. proj. destruct (negb _); reflexivity. Qed.

Lemma tally_stopFX (l : list FXList) (g : Gun) : tally (stopFX l g) = tally g.
Proof. apply tally_emitAll, forallb_not_fired_stop. Qed.

Lemma tally_stops (l : list ParticleGizmo) (g : Gun) :
  tally (emitAll (map FxStop l) g) = tally g.
Proof. apply tally_emitAll, forallb_not_fired_stop. Qed.

#[local] Hint Rewrite impactFX_of_set_loadedAmmo missFX_of_set_loadedAmmo nextImpactFXIdx_of_set_loadedAmmo nextMissFXIdx_of_set_loadedAmmo attackCooldown_of_set_loadedAmmo attackCooldownTimer_of_set_loadedAmmo reloadTimer_of_set_loadedAmmo autoAttackTimer_of_set_loadedAmmo fireDelay_of_set_loadedAmmo bulletBurstTimer_of_set_loadedAmmo currentBurstCount_of_set_loadedAmmo reserveAmmo_of_set_loadedAmmo impactFX_of_set_reserveAmmo missFX_of_set_reserveAmmo nextImpactFXIdx_of_set_reserveAmmo nextMissFXIdx_of_set_reserveAmmo attackCooldown_of_set_reserveAmmo attackCooldownTimer_of_set_reserveAmmo reloadTimer_of_set_reserveAmmo autoAttackTimer_of_set_reserveAmmo fireDelay_of_set_reserveAmmo bulletBurstTimer_of_set_reserveAmmo currentBurstCount_of_set_reserveAmmo loadedAmmo_of_set_reserveAmmo raw_loadedAmmo_set_loadedAmmo raw_reserveAmmo_set_reserveAmmo : fields.

(** Pushing projections through a term built from the primitives. *)
Ltac push :=
  repeat (proj; autorewrite with fields).

Ltac cases_on_fields :=
  repeat (push;
          match goal with
          | |- context [ match ?x with _ => _ end ] => destruct x eqn:?
          end);
  push.

(** ** The ammo invariants hold in every reachable state *)

Lemma ammo_inv_same (g g' : Gun) : ammo g' = ammo g -> ammo_inv g -> ammo_inv g'.
Proof.
  unfold ammo, ammo_inv, loadedAmmo, reserveAmmo. intros E.
  injection E as -> ->. auto.
Qed.

(** Writing the reserve after the clip restores both invariants. *)
Lemma ammo_inv_after_writes (v w : Z) (g : Gun) :
  sane_config -> ammo_inv (set_reserveAmmo w (set_loadedAmmo v g)).
Proof.
  intros [C0 C1]. unfold ammo_inv.
  rewrite reserveAmmo_set_reserveAmmo, loadedAmmo_set_reserveAmmo,
    loadedAmmo_set_loadedAmmo.
  lia.
Qed.

Lemma ammo_inv_set_reserveAmmo (w : Z) (g : Gun) :
  ammo_inv g -> ammo_inv (set_reserveAmmo w g).
Proof.
  intros [[L0 L1] [R0 R1]]. unfold ammo_inv.
  rewrite reserveAmmo_set_reserveAmmo, loadedAmmo_set_reserveAmmo. lia.
Qed.

Lemma ammo_triggerReload (g : Gun) :
  ammo (triggerReload g) = ammo g \/
  exists v w g0, ammo (triggerReload g) = ammo (set_reserveAmmo w (set_loadedAmmo v g0)).
Proof.
  unfold triggerReload.
  destruct (reloadTimer g); [now left|].
  destruct hasUnlimitedAmmo; [now left|].
  destruct (_ =? 0); [now left|].
  destruct (_ <? _); [now left|].
  right. cbv zeta. eexists _, _, _. reflexivity.
Qed.

Lemma ammo_inv_triggerReload (g : Gun) :
  sane_config -> ammo_inv g -> ammo_inv (triggerReload g).
Proof.
  intros C H. destruct (ammo_triggerReload g) as [E|(v & w & g0 & E)].
  - exact (ammo_inv_same _ _ E H).
  - apply (ammo_inv_same _ _ E). apply ammo_inv_after_writes, C.
Qed.

Lemma ammo_inv_deduct (g : Gun) : ammo_inv g -> ammo_inv (deduct g).
Proof.
  intros [[L0 L1] [R0 R1]].
  pose proof (ammo_deduct g) as E. unfold ammo_inv, ammo, loadedAmmo, reserveAmmo in *.
  destruct (ammoPerFire props >? 0) eqn:EA.
  - injection E as -> ->. rewrite Z.gtb_ltb in EA. apply Z.ltb_lt in EA. lia.
  - injection E as -> ->. lia.
Qed.

Lemma ammo_inv_triggerAttack (r : RaycastOutcome) (g : Gun) :
  ammo_inv g -> ammo_inv (stateOf (triggerAttack r g)).
Proof.
  intros H. pose proof (ammo_triggerAttack r g) as E.
  destruct (canAttack g); [destruct (fireDelay g)|];
    try exact (ammo_inv_same _ _ E H).
  apply (ammo_inv_same _ _ E), ammo_inv_deduct, H.
Qed.

Lemma step_ammo_inv (i : Input) (g : Gun) :
  sane_config -> ammo_inv g -> ammo_inv (step i g).
Proof.
  intros C H.
  assert (HK : forall g', ammo g' = ammo g -> ammo_inv g')
    by (intros g' E; exact (ammo_inv_same _ _ E H)).
  destruct ammo_pure as (A1 & A2 & A3 & A4 & A5 & A6 & A7 & A8).
  unfold step. destruct i; cbn [dispatch exec stateOf].
  - destruct pressed.
    + apply ammo_inv_triggerAttack, H.
    + apply HK, ammo_onInputAttack_release.
  - destruct pressed; cbn [onInputReload negb]; [apply ammo_inv_triggerReload|]; assumption.
  - unfold onGrantAmmo. cbv zeta.
    destruct (_ && _); [apply ammo_inv_triggerReload; [exact C|]|];
      apply ammo_inv_set_reserveAmmo, H.
  - apply HK, A4.
  - apply HK. apply (proj1 (ammo_monadic r g)).
  - apply HK, A5.
  - pose proof (proj1 (proj2 (ammo_monadic r g))) as E.
    destruct (bulletBurstTimer g); [|exact (HK _ E)].
    destruct (_ =? 0); [exact (HK _ E)|].
    apply (ammo_inv_same _ _ E).
    apply ammo_inv_triggerAttack. exact H.
  - pose proof (proj2 (proj2 (ammo_monadic r g))) as E.
    destruct (autoAttackTimer g); [|exact (HK _ E)].
    apply (ammo_inv_same _ _ E).
    apply ammo_inv_triggerAttack. exact H.
  - unfold onReloadTimer. destruct (reloadTimer g) as [[d []]|];
      [apply ammo_inv_triggerReload; [exact C|]| |]; exact H.
  - apply HK, A6.
  - apply HK, A7.
  - pose proof (proj1 onProj_keeps t position g) as K. unfold keeps, firing in K.
    apply HK. unfold ammo. congruence.
  - pose proof (proj1 (proj2 onProj_keeps) t position g) as K. unfold keeps, firing in K.
    apply HK. unfold ammo. congruence.
  - pose proof (proj1 (proj2 (proj2 onProj_keeps)) position g) as K. unfold keeps, firing in K.
    apply HK. unfold ammo. congruence.
  - pose proof (proj2 (proj2 (proj2 onProj_keeps)) position g) as K. unfold keeps, firing in K.
    apply HK. unfold ammo. congruence.
  - destruct state as [s|]; cbn [receiveOwnership]; [|exact H].
    apply (ammo_inv_same (set_reserveAmmo (st_reserveAmmo s)
                            (set_loadedAmmo (st_loadedAmmo s) g)));
      [reflexivity|]. apply ammo_inv_after_writes, C.
  - apply HK, A8.
Qed.

Lemma run_ammo_inv (inputs : list Input) (g : Gun) :
  sane_config -> ammo_inv g -> ammo_inv (run inputs g).
Proof.
  intros C. revert g. induction inputs as [|i l IH]; intros g H; [exact H|].
  cbn. apply IH, step_ammo_inv; assumption.
Qed.

(** X1.  With [0 <= clipSize <= maxAmmo], every state the component can
    reach -- a fresh instance after [preStart], then any inputs, grants and
    ownership snapshots included -- satisfies the ammo invariants:
    [0 <= loadedAmmo <= clipSize] and
    [0 <= reserveAmmo <= maxAmmo - loadedAmmo]. *)
Theorem reachable_ammo_inv (g : Gun) :
  sane_config -> reachable g -> ammo_inv g.
Proof.
  intros C [inputs ->]. apply run_ammo_inv; [exact C|].
  unfold preStart. apply ammo_inv_after_writes, C.
Qed.

(** ** What a shot does, on every path *)

Lemma shotView_same (g g' : Gun) :
  firing g' = firing g -> pools g' = pools g -> tally g' = tally g ->
  shotView g' = shotView g.
Proof. unfold shotView. intros -> -> ->. reflexivity. Qed.

Lemma getImpactFX_shotView : preserves (keeps shotView) getImpactFX.
Proof.
  intros g. unfold keeps. unfold getImpactFX.
  destruct (_ =? 0); [reflexivity|]. cbv zeta.
  destruct (js_index _ _); cbn [stateOf]; [|reflexivity].
  apply shotView_same;
    rewrite ?firing_emitAll, ?pools_emitAll, ?tally_stops; reflexivity.
Qed.

Lemma getMissFX_shotView : preserves (keeps shotView) getMissFX.
Proof.
  intros g. unfold keeps. unfold getMissFX.
  destruct (_ =? 0); [reflexivity|]. cbv zeta.
  destruct (js_index _ _); cbn [stateOf]; [|reflexivity].
  apply shotView_same;
    rewrite ?firing_emitAll, ?pools_emitAll, ?tally_stops; reflexivity.
Qed.

Lemma triggerFX_shotView (p : Vec3) (l : list ParticleGizmo) (g : Gun) :
  shotView (triggerFX p l g) = shotView g.
Proof.
  apply shotView_same;
    [unfold triggerFX; apply firing_emitAll
    |unfold triggerFX; apply pools_emitAll
    |apply tally_triggerFX].
Qed.

Ltac shot_steps :=
  repeat match goal with
  | |- preserves _ (bind _ _) =>
      apply preserves_bind; [apply keeps_transitive | | intros ? ]
  | |- preserves _ getImpactFX => apply getImpactFX_shotView
  | |- preserves _ getMissFX => apply getMissFX_shotView
  | |- preserves _ (ret _) => apply preserves_ret; intros; reflexivity
  | |- preserves _ (exec (triggerFX _ _)) =>
      apply preserves_exec; intros; apply triggerFX_shotView
  | |- preserves _ (exec _) =>
      apply preserves_exec; intros; reflexivity
  | |- preserves _ (if ?b then _ else _) => destruct b
  | |- preserves _ (match ?x with _ => _ end) => destruct x
  end.

Lemma fireWithRaycast_shotView (r : RaycastOutcome) :
  preserves (keeps shotView) (fireWithRaycast r).
Proof. unfold fireWithRaycast. shot_steps. Qed.

Lemma onProj_shotView :
  (forall t p, preserves (keeps shotView) (onProjHitPlayer t p)) /\
  (forall t p, preserves (keeps shotView) (onProjHitEntity t p)) /\
  (forall p, preserves (keeps shotView) (onProjHitWorld p)) /\
  (forall p, preserves (keeps shotView) (onProjMiss p)).
Proof.
  repeat split; intros;
    unfold onProjHitPlayer, onProjHitEntity, onProjHitWorld, onProjMiss;
    shot_steps.
Qed.

Lemma tailView_of_shotView (g g' : Gun) :
  shotView g' = shotView g -> tailView g' = tailView g.
Proof.
  unfold shotView, tailView, firing, ammo, pools, tally. intros E.
  injection E. intros. congruence.
Qed.

Ltac tail_leaf :=
  intros; unfold keeps, tailView, ammo, pools, tally;
  unfold resetAutoAttack, resetBurst, resetReload, triggerAutoAttack, triggerBurst;
  cases_on_fields; reflexivity.

Lemma tailView_timers (g : Gun) :
  tailView (resetAutoAttack (resetBurst g)) = tailView g /\
  tailView (triggerAutoAttack (triggerBurst g)) = tailView g /\
  tailView (resetReload g) = tailView g.
Proof. repeat split; tail_leaf. Qed.

Lemma tailView_burstPart (g : Gun) :
  tailView (if loadedAmmo g <? ammoPerFire props
            then resetAutoAttack (resetBurst g)
            else triggerAutoAttack (triggerBurst g)) = tailView g.
Proof. destruct (_ <? _); apply tailView_timers. Qed.

Lemma tailView_reloadPart (g : Gun) :
  tailView (if autoReload props && (loadedAmmo g =? 0)
            then with_reloadTimer (Some (500, AutoReloadDue)) (resetReload g)
            else g) = tailView g.
Proof.
  destruct (_ && _); [|reflexivity].
  exact (proj2 (proj2 (tailView_timers g))).
Qed.

(** [finishFiring] on every path, a throw in hit resolution included: one
    more shot in the log, no fire delay pending, the ledger, the cooldown
    flag and the pools as they were. *)
Lemma finishFiring_effect (r : RaycastOutcome) (g : Gun) :
  tailView (stateOf (finishFiring r g)) =
  (ammo g, attackCooldown g, pools g, None, (S (shots g), outOfAmmoCues g)).
Proof.
  set (g0 := (if ammoPerFire props >? 0
              then emit ShellFX (emit Fired (with_fireDelay None g))
              else emit Fired (with_fireDelay None g))).
  assert (E0 : tailView g0 =
               (ammo g, attackCooldown g, pools g, None, (S (shots g), outOfAmmoCues g)))
    by (subst g0; destruct (ammoPerFire props >? 0); reflexivity).
  rewrite <- E0.
  assert (P : preserves (keeps tailView)
    ((if raycaster props then fireWithRaycast r
      else if projectileLauncher props then exec (fireWithProjectile r)
      else ret tt) ;;
     exec (with_attackCooldownTimer (Some (Z.max 10 (attackRate props)))) ;;
     exec (fun g =>
       if loadedAmmo g <? ammoPerFire props
       then resetAutoAttack (resetBurst g)
       else triggerAutoAttack (triggerBurst g)) ;;
     exec (fun g =>
       if autoReload props && (loadedAmmo g =? 0)
       then with_reloadTimer (Some (500, AutoReloadDue)) (resetReload g)
       else g))%gun).
  { repeat match goal with
    | |- preserves _ (bind _ _) =>
        apply preserves_bind; [apply keeps_transitive | | intros ? ]
    | |- preserves _ (fireWithRaycast _) =>
        intros x; apply tailView_of_shotView, fireWithRaycast_shotView
    | |- preserves _ (ret _) => apply preserves_ret; intros; reflexivity
    | |- preserves _ (exec (fireWithProjectile _)) =>
        apply preserves_exec; intros x; unfold keeps, fireWithProjectile;
        destruct (negb _); reflexivity
    | |- preserves _ (exec (with_attackCooldownTimer _)) =>
        apply preserves_exec; intros x; reflexivity
    | |- preserves _ (exec _) =>
        apply preserves_exec; intros x; unfold keeps;
        first [ apply tailView_burstPart | apply tailView_reloadPart ]
    | |- preserves _ (if ?b then _ else _) => destruct b
    end. }
  exact (P g0).
Qed.

Lemma tailView_deduct (g : Gun) :
  tailView (deduct g) = (ammo (deduct g), true, pools g, fireDelay g, tally g).
Proof.
  unfold deduct, tailView, pools. cbv zeta.
  destruct (ammoPerFire props >? 0); [|reflexivity].
  rewrite attackCooldown_of_set_loadedAmmo, impactFX_of_set_loadedAmmo,
    missFX_of_set_loadedAmmo, fireDelay_of_set_loadedAmmo, tally_of_set_loadedAmmo.
  reflexivity.
Qed.

Lemma tailView_inv (a b : Gun) :
  tailView a = tailView b ->
  ammo a = ammo b /\ attackCooldown a = attackCooldown b /\ pools a = pools b /\
  fireDelay a = fireDelay b /\ tally a = tally b.
Proof. unfold tailView. intros E. repeat split; congruence. Qed.

Lemma tailView_refused (g : Gun) :
  tailView (let g := resetAutoAttack (resetBurst g) in
            if loadedAmmo g <? ammoPerFire props then emit OutOfAmmoSFX g else g) =
  (ammo g, attackCooldown g, pools g, fireDelay g,
   (shots g, if loadedAmmo g <? ammoPerFire props
             then S (outOfAmmoCues g) else outOfAmmoCues g)).
Proof.
  destruct (tailView_inv _ _ (proj1 (tailView_timers g))) as (E1 & E2 & E3 & E4 & E5).
  cbv zeta.
  assert (EL : loadedAmmo (resetAutoAttack (resetBurst g)) = loadedAmmo g)
    by (unfold ammo in E1; unfold loadedAmmo; congruence).
  rewrite EL. destruct (_ <? _).
  - change (tailView (emit OutOfAmmoSFX (resetAutoAttack (resetBurst g))))
      with (ammo (resetAutoAttack (resetBurst g)),
            attackCooldown (resetAutoAttack (resetBurst g)),
            pools (resetAutoAttack (resetBurst g)),
            fireDelay (resetAutoAttack (resetBurst g)),
            (shots (resetAutoAttack (resetBurst g)),
             S (outOfAmmoCues (resetAutoAttack (resetBurst g))))).
    unfold shots, outOfAmmoCues. rewrite E1, E2, E3, E4, E5. reflexivity.
  - unfold tailView, shots, outOfAmmoCues.
    rewrite E1, E2, E3, E4, E5, <- surjective_pairing. reflexivity.
Qed.

(** [triggerAttack] on every path. *)
Lemma triggerAttack_effect (r : RaycastOutcome) (g : Gun) :
  tailView (stateOf (triggerAttack r g)) =
  if canAttack g then
    match fireDelay g with
    | Some _ => tailView g
    | None =>
        if (currentBurstCount g >? 0) || isVR
        then (ammo (deduct g), true, pools g, None, (S (shots g), outOfAmmoCues g))
        else (ammo (deduct g), true, pools g, Some 50, tally g)
    end
  else
    (ammo g, attackCooldown g, pools g, fireDelay g,
     (shots g, if loadedAmmo g <? ammoPerFire props
               then S (outOfAmmoCues g) else outOfAmmoCues g)).
Proof.
  rewrite triggerAttack_unfold. destruct (canAttack g); cbn [negb].
  - destruct (fireDelay g) eqn:EF; [reflexivity|].
    pose proof (tailView_deduct g) as ED. rewrite EF in ED.
    destruct (_ || _).
    + rewrite finishFiring_effect.
      assert (E : attackCooldown (deduct g) = true /\ pools (deduct g) = pools g /\
                  tally (deduct g) = tally g)
        by (unfold tailView in ED; repeat split; congruence).
      destruct E as (E2 & E3 & E5).
      unfold shots, outOfAmmoCues. rewrite E2, E3, E5. reflexivity.
    + cbn [stateOf].
      change (tailView (with_fireDelay (Some 50) (emit FireAnimation (deduct g))))
        with (ammo (deduct g), attackCooldown (deduct g), pools (deduct g), Some 50,
              tally (deduct g)).
      assert (E : attackCooldown (deduct g) = true /\ pools (deduct g) = pools g /\
                  tally (deduct g) = tally g)
        by (unfold tailView in ED; repeat split; congruence).
      destruct E as (E2 & E3 & E5).
      rewrite E2, E3, E5. reflexivity.
  - cbn [stateOf]. apply tailView_refused.
Qed.

(** ** The books balance *)

Lemma books_of_tailView (g' : Gun) (a : Z * Z) (c : bool)
      (p : list FXList * list FXList) (fd : option Z) (t : nat * nat) :
  tailView g' = (a, c, p, fd, t) ->
  books g' = fst a + snd a +
             ammoPerFire props *
             (Z.of_nat (fst t) + match fd with Some _ => 1 | None => 0 end).
Proof.
  unfold tailView. intros E.
  assert (E1 : ammo g' = a) by congruence.
  assert (E2 : fireDelay g' = fd) by congruence.
  assert (E3 : tally g' = t) by congruence.
  unfold books, totalAmmo, pendingShots, shots, loadedAmmo, reserveAmmo.
  rewrite E2, E3. unfold ammo in E1. rewrite <- E1. reflexivity.
Qed.

Lemma books_same (g g' : Gun) : tailView g' = tailView g -> books g' = books g.
Proof.
  intros E. rewrite (books_of_tailView g' _ _ _ _ _ E).
  symmetry. apply (books_of_tailView g _ _ _ _ _ eq_refl).
Qed.

Lemma canAttack_true_enough (g : Gun) :
  canAttack g = true -> 0 < ammoPerFire props -> ammoPerFire props <= loadedAmmo g.
Proof.
  unfold canAttack. intros H HA.
  destruct (attackCooldown g); [discriminate|].
  destruct (Z.eqb_spec (Z.max 0 (ammoPerFire props)) 0); [lia|].
  rewrite Z.gtb_ltb in H.
  destruct (Z.ltb_spec (loadedAmmo g) (Z.max 0 (ammoPerFire props))); [discriminate|lia].
Qed.

Lemma ammo_deduct_exact (g : Gun) :
  0 <= ammoPerFire props -> ammo_inv g -> canAttack g = true ->
  ammo (deduct g) = (loadedAmmo g - ammoPerFire props, reserveAmmo g).
Proof.
  intros HA [[L0 L1] _] HC. rewrite ammo_deduct.
  destruct (ammoPerFire props >? 0) eqn:E.
  - rewrite Z.gtb_ltb in E. apply Z.ltb_lt in E.
    pose proof (canAttack_true_enough g HC E). f_equal. lia.
  - rewrite Z.gtb_ltb in E. apply Z.ltb_ge in E.
    unfold ammo, loadedAmmo, reserveAmmo. f_equal. lia.
Qed.

Lemma balanced_triggerAttack (r : RaycastOutcome) (g : Gun) :
  0 <= ammoPerFire props -> ammo_inv g ->
  ammo_inv (stateOf (triggerAttack r g)) /\
  books (stateOf (triggerAttack r g)) = books g.
Proof.
  intros HA HI. split; [apply ammo_inv_triggerAttack, HI|].
  pose proof (triggerAttack_effect r g) as E.
  destruct (canAttack g) eqn:EC.
  - destruct (fireDelay g) eqn:EF; [exact (books_same _ _ E)|].
    pose proof (ammo_deduct_exact g HA HI EC) as ED. rewrite ED in E.
    destruct (_ || _); rewrite (books_of_tailView _ _ _ _ _ _ E);
      unfold books, totalAmmo, pendingShots, shots; rewrite EF; cbn [fst snd]; lia.
  - rewrite (books_of_tailView _ _ _ _ _ _ E).
    unfold books, totalAmmo, pendingShots, shots, ammo, loadedAmmo, reserveAmmo.
    cbn [fst snd]. reflexivity.
Qed.

Lemma tailView_ticks (r : RaycastOutcome) (g : Gun) :
  tailView (stateOf (onBurstTick r g)) =
    match bulletBurstTimer g with
    | Some _ => if currentBurstCount g =? 0 then tailView g
                else tailView (stateOf (triggerAttack r (with_attackCooldown false g)))
    | None => tailView g
    end /\
  tailView (stateOf (onAutoAttackTick r g)) =
    match autoAttackTimer g with
    | Some _ => tailView (stateOf (triggerAttack r (with_attackCooldown false g)))
    | None => tailView g
    end.
Proof.
  split.
  - unfold onBurstTick. destruct (bulletBurstTimer g); [|reflexivity].
    destruct (_ =? 0).
    + cbn [stateOf]. unfold resetBurst. proj.
      destruct (bulletBurstTimer g); reflexivity.
    + cbv [bind exec].
      destruct (triggerAttack r (with_attackCooldown false g)); reflexivity.
  - unfold onAutoAttackTick. destruct (autoAttackTimer g); reflexivity.
Qed.

Lemma triggerReload_conserves (g : Gun) :
  0 <= ammoPerFire props -> ammo_inv g ->
  ammo_inv (triggerReload g) /\ totalAmmo (triggerReload g) = totalAmmo g /\
  fireDelay (triggerReload g) = fireDelay g /\ tally (triggerReload g) = tally g.
Proof.
  intros HA HI. destruct (reloadTimer g) eqn:HT.
  { unfold triggerReload. rewrite HT. auto. }
  destruct (hasUnlimitedAmmo) eqn:HU.
  { unfold triggerReload. rewrite HT, HU. auto. }
  set (transfer := Z.min (clipSize props - loadedAmmo g) (reserveAmmo g)).
  destruct (Z.eq_dec transfer 0) as [E|E];
    [rewrite (triggerReload_noop g HT HU) by (left; exact E); auto|].
  destruct (Z_lt_dec transfer (ammoPerFire props)) as [E'|E'];
    [rewrite (triggerReload_noop g HT HU) by (right; exact E'); auto|].
  destruct (triggerReload_moves g HT HU HI E) as (A & B & C & D & F & G & H & I & J & K);
    [fold transfer; lia|].
  fold transfer in A, B.
  destruct HI as [[L0 L1] [R0 R1]].
  unfold ammo_inv, totalAmmo. rewrite A, B.
  repeat split; try assumption; subst transfer; lia.
Qed.

Lemma ledger_of_tail (g g' : Gun) :
  tailView g' = tailView g -> ledgerView g' = ledgerView g.
Proof.
  intros E. destruct (tailView_inv _ _ E) as (E1 & _ & _ & E4 & E5).
  unfold ledgerView. congruence.
Qed.

Lemma balanced_same (g g' : Gun) :
  ledgerView g' = ledgerView g -> ammo_inv g ->
  ammo_inv g' /\ books g' = books g.
Proof.
  unfold ledgerView. intros E HI.
  assert (E1 : ammo g' = ammo g) by congruence.
  assert (E2 : tally g' = tally g) by congruence.
  assert (E3 : fireDelay g' = fireDelay g) by congruence.
  split; [exact (ammo_inv_same g g' E1 HI)|].
  unfold books, totalAmmo, pendingShots, shots, loadedAmmo, reserveAmmo.
  unfold ammo in E1. injection E1 as -> ->. rewrite E2, E3. reflexivity.
Qed.

Lemma balanced_triggerReload (g : Gun) :
  0 <= ammoPerFire props -> ammo_inv g ->
  ammo_inv (triggerReload g) /\ books (triggerReload g) = books g.
Proof.
  intros HA HI. destruct (triggerReload_conserves g HA HI) as (I' & T & F & TL).
  split; [exact I'|]. unfold books, pendingShots, shots. rewrite T, F, TL. reflexivity.
Qed.

Lemma ledgerView_pure (g : Gun) :
  ledgerView (onGrabEnd g) = ledgerView g /\
  ledgerView (onCooldownElapsed g) = ledgerView g /\
  ledgerView (resetAutoAttack (resetBurst g)) = ledgerView g.
Proof.
  repeat split.
  - apply ledger_of_tail. unfold onGrabEnd.
    destruct (tailView_timers (resetReload g)) as (E1 & _).
    destruct (tailView_timers g) as (_ & _ & E3). congruence.
  - unfold onCooldownElapsed. destruct (attackCooldownTimer g); reflexivity.
  - apply ledger_of_tail, tailView_timers.
Qed.

Lemma ledger_of_shot (g g' : Gun) :
  shotView g' = shotView g -> ledgerView g' = ledgerView g.
Proof. intros E. apply ledger_of_tail, tailView_of_shotView, E. Qed.

Lemma tally_quiet_effects (g : Gun) :
  (forall l, tally (emit (DespawnAssets l) g) = tally g) /\
  tally (emit SetOwningPlayer g) = tally g /\
  tally (emit SetPropOwners g) = tally g /\
  (forall l, tally (with_impactFX l g) = tally g) /\
  (forall l, tally (with_missFX l g) = tally g).
Proof. repeat split. Qed.

Lemma ledgerView_stopFX (l : list FXList) (g : Gun) :
  ledgerView (stopFX l g) = ledgerView g.
Proof.
  unfold ledgerView, ammo. rewrite tally_stopFX. unfold stopFX. push. reflexivity.
Qed.

Lemma ledgerView_network (g : Gun) :
  (forall l, ledgerView (onSyncImpactFX l g) = ledgerView g) /\
  (forall l, ledgerView (onSyncMissFX l g) = ledgerView g) /\
  ledgerView (snd (transferOwnership g)) = ledgerView g.
Proof.
  repeat split; intros.
  - unfold onSyncImpactFX, syncFX. cbv zeta.
    destruct (_ && _);
      [change (ledgerView (stopFX (impactFX g) g) = ledgerView g)
      |change (ledgerView (stopFX (impactFX g) g) = ledgerView g)];
      apply ledgerView_stopFX.
  - unfold onSyncMissFX, syncFX. cbv zeta.
    destruct (_ && _);
      [change (ledgerView (stopFX (missFX g) g) = ledgerView g)
      |change (ledgerView (stopFX (missFX g) g) = ledgerView g)];
      apply ledgerView_stopFX.
  - unfold transferOwnership. cbv zeta. cbn [snd].
    destruct (assetSpawner props).
    + change (ledgerView (stopFX (missFX (stopFX (impactFX (emit SetPropOwners g))
                                            (emit SetPropOwners g)))
                            (stopFX (impactFX (emit SetPropOwners g))
                                    (emit SetPropOwners g))) = ledgerView g).
      rewrite !ledgerView_stopFX. reflexivity.
    + rewrite !ledgerView_stopFX. reflexivity.
Qed.

Lemma balanced_step (i : Input) (g : Gun) :
  0 <= ammoPerFire props -> bringsAmmo i = false -> ammo_inv g ->
  ammo_inv (step i g) /\ books (step i g) = books g.
Proof.
  intros HA Hi HI.
  destruct (ledgerView_pure g) as (P1 & P2 & P3).
  destruct (ledgerView_network g) as (N1 & N2 & N3).
  unfold step. destruct i; try discriminate Hi; cbn [dispatch exec stateOf].
  - destruct pressed; cbn [onInputAttack negb exec stateOf].
    + apply balanced_triggerAttack; assumption.
    + apply balanced_same; assumption.
  - destruct pressed; cbn [onInputReload negb]; [|auto].
    apply balanced_triggerReload; assumption.
  - apply balanced_same; assumption.
  - unfold onFireDelay. destruct (fireDelay g) eqn:EF; [|auto].
    pose proof (finishFiring_effect r g) as E.
    split.
    + apply (ammo_inv_same g); [|exact HI].
      unfold tailView in E. congruence.
    + rewrite (books_of_tailView _ _ _ _ _ _ E).
      unfold books, totalAmmo, pendingShots, shots, ammo, loadedAmmo, reserveAmmo.
      rewrite EF. cbn [fst snd]. lia.
  - apply balanced_same; assumption.
  - pose proof (proj1 (tailView_ticks r g)) as E.
    destruct (bulletBurstTimer g).
    + destruct (_ =? 0).
      * apply balanced_same; [apply ledger_of_tail, E|exact HI].
      * destruct (balanced_triggerAttack r (with_attackCooldown false g) HA HI) as [I' B'].
        destruct (balanced_same _ _ (ledger_of_tail _ _ E) I') as [I'' B''].
        split; [exact I''|]. rewrite B'', B'. reflexivity.
    + apply balanced_same; [apply ledger_of_tail, E|exact HI].
  - pose proof (proj2 (tailView_ticks r g)) as E.
    destruct (autoAttackTimer g).
    + destruct (balanced_triggerAttack r (with_attackCooldown false g) HA HI) as [I' B'].
      destruct (balanced_same _ _ (ledger_of_tail _ _ E) I') as [I'' B''].
      split; [exact I''|]. rewrite B'', B'. reflexivity.
    + apply balanced_same; [apply ledger_of_tail, E|exact HI].
  - unfold onReloadTimer. destruct (reloadTimer g) as [[d []]|]; [| |auto].
    + apply (balanced_triggerReload (with_reloadTimer None g)); assumption.
    + apply balanced_same; [reflexivity|exact HI].
  - apply balanced_same; [apply N1|exact HI].
  - apply balanced_same; [apply N2|exact HI].
  - apply balanced_same; [|exact HI].
    apply ledger_of_shot, (proj1 onProj_shotView).
  - apply balanced_same; [|exact HI].
    apply ledger_of_shot, (proj1 (proj2 onProj_shotView)).
  - apply balanced_same; [|exact HI].
    apply ledger_of_shot, (proj1 (proj2 (proj2 onProj_shotView))).
  - apply balanced_same; [|exact HI].
    apply ledger_of_shot, (proj2 (proj2 (proj2 onProj_shotView))).
  - apply balanced_same; assumption.
Qed.

Lemma balanced_run (inputs : list Input) (g : Gun) :
  0 <= ammoPerFire props ->
  forallb (fun i => negb (bringsAmmo i)) inputs = true -> ammo_inv g ->
  ammo_inv (run inputs g) /\ books (run inputs g) = books g.
Proof.
  intros HA. revert g. induction inputs as [|i l IH]; intros g Hl HI; [auto|].
  cbn in Hl. apply andb_prop in Hl as [Hi Hl]. apply negb_true_iff in Hi.
  destruct (balanced_step i g HA Hi HI) as [I' B'].
  destruct (IH (step i g) Hl I') as [I'' B''].
  cbn [run fold_left]. split; [exact I''|].
  change (books (run l (step i g)) = books g). rewrite B''. exact B'.
Qed.

(** X2.  Over any run without [grantAmmo] and ownership snapshots, from a
    state that satisfies the ammo invariants and with [ammoPerFire >= 0], the
    books balance: ammunition carried plus [ammoPerFire] times the shots
    fired and the deducted shot still waiting for its fire delay is
    constant.  So every shot is paid for once, no ammunition is lost, and
    the shots fired over the run cost no more than what was carried. *)
Theorem ammo_books_balance (inputs : list Input) (g : Gun) :
  0 <= ammoPerFire props -> ammo_inv g ->
  forallb (fun i => negb (bringsAmmo i)) inputs = true ->
  let g' := run inputs g in
  ammo_inv g' /\
  totalAmmo g' + ammoPerFire props * (Z.of_nat (shots g') + pendingShots g') =
    totalAmmo g + ammoPerFire props * (Z.of_nat (shots g) + pendingShots g) /\
  ammoPerFire props * (Z.of_nat (shots g') - Z.of_nat (shots g)) <=
    totalAmmo g + ammoPerFire props * pendingShots g.
Proof.
  intros HA HI Hl g'.
  destruct (balanced_run inputs g HA Hl HI) as [I' B']. fold g' in I', B'.
  split; [exact I'|]. split; [exact B'|].
  unfold books in B'.
  assert (0 <= totalAmmo g') by (destruct I' as [[? ?] [? ?]]; unfold totalAmmo; lia).
  assert (0 <= pendingShots g') by (unfold pendingShots; destruct (fireDelay g'); lia).
  nia.
Qed.

Lemma tailView_inv2 (a : Gun) (m : Z * Z) (c : bool) (p : list FXList * list FXList)
    (d : option Z) (t : nat * nat) :
  tailView a = (m, c, p, d, t) ->
  ammo a = m /\ attackCooldown a = c /\ pools a = p /\ fireDelay a = d /\ tally a = t.
Proof. unfold tailView. intros E. repeat split; congruence. Qed.

(** ** Unlimited ammunition *)

(** C5 (unlimited ammo).  With [ammoPerFire <= 0], [hasUnlimitedAmmo] holds,
    [canAttack] is decided by the cooldown flag alone whatever the two
    counters are, [triggerAttack] leaves [loadedAmmo] and [reserveAmmo] as
    they were, and [triggerReload] changes nothing.  And the attack goes
    through: on a weapon that is not cooling down and has no fire delay
    pending, whatever it holds, [triggerAttack] sets the cooldown flag, plays
    no out-of-ammo cue, and fires the shot -- at once in VR and inside a
    burst, otherwise when the 50 ms fire delay it arms elapses. *)
Theorem unlimited_ammo_never_blocks (g : Gun) (r : RaycastOutcome) :
  ammoPerFire props <= 0 ->
  hasUnlimitedAmmo = true /\
  canAttack g = negb (attackCooldown g) /\
  loadedAmmo (stateOf (triggerAttack r g)) = loadedAmmo g /\
  reserveAmmo (stateOf (triggerAttack r g)) = reserveAmmo g /\
  triggerReload g = g /\
  (attackCooldown g = false -> fireDelay g = None ->
     let g' := stateOf (triggerAttack r g) in
     attackCooldown g' = true /\
     outOfAmmoCues g' = outOfAmmoCues g /\
     if (currentBurstCount g >? 0) || isVR
     then shots g' = S (shots g) /\ fireDelay g' = None
     else shots g' = shots g /\ fireDelay g' = Some 50 /\
          forall r', shots (step (FireDelayElapsed r') g') = S (shots g)).
Proof.
  intros H.
  assert (HU : hasUnlimitedAmmo = true) by (apply Z.leb_le; exact H).
  assert (HA : ammo (stateOf (triggerAttack r g)) = ammo g).
  { rewrite ammo_triggerAttack, ammo_deduct.
    rewrite Z.gtb_ltb. destruct (Z.ltb_spec 0 (ammoPerFire props)); [lia|].
    destruct (canAttack g); [destruct (fireDelay g)|]; reflexivity. }
  assert (HC : canAttack g = negb (attackCooldown g)).
  { unfold canAttack. destruct (attackCooldown g); [reflexivity|].
    destruct (Z.eqb_spec (Z.max 0 (ammoPerFire props)) 0); [reflexivity|lia]. }
  unfold ammo in HA. injection HA as HA1 HA2.
  split; [exact HU|]. split; [exact HC|]. split; [exact HA1|]. split; [exact HA2|].
  split; [unfold triggerReload; rewrite HU; destruct (reloadTimer g); reflexivity|].
  intros C F g'.
  pose proof (triggerAttack_effect r g) as E. fold g' in E.
  rewrite HC, C, F in E. cbn [negb] in E.
  destruct ((currentBurstCount g >? 0) || isVR).
  - destruct (tailView_inv2 _ _ _ _ _ _ E) as (_ & E2 & _ & E4 & E5).
    unfold shots, outOfAmmoCues. rewrite E5. auto.
  - destruct (tailView_inv2 _ _ _ _ _ _ E) as (_ & E2 & _ & E4 & E5).
    unfold shots at 1, outOfAmmoCues at 1. rewrite E5.
    repeat split; try assumption.
    intros r'. unfold step; cbn [dispatch]. unfold onFireDelay. rewrite E4.
    pose proof (finishFiring_effect r' g') as W.
    destruct (tailView_inv2 _ _ _ _ _ _ W) as (_ & _ & _ & _ & W5).
    unfold shots at 1. rewrite W5. cbn [fst]. unfold shots. rewrite E5. reflexivity.
Qed.

(** ** Rate limiting *)

Lemma canAttack_of_view (g g' : Gun) :
  attackCooldown g' = attackCooldown g -> ammo g' = ammo g ->
  canAttack g' = canAttack g.
Proof.
  unfold canAttack, ammo, loadedAmmo. intros -> E. injection E as -> _. reflexivity.
Qed.

Lemma canAttack_cooling (g : Gun) : attackCooldown g = true -> canAttack g = false.
Proof. unfold canAttack. intros ->. reflexivity. Qed.

(** X3.  A second [triggerAttack] right after a first one -- in the same
    tick, before any timer callback -- deducts nothing, fires nothing and
    leaves the fire delay as it was, whatever the first call did. *)
Theorem second_attack_same_tick (g : Gun) (r1 r2 : RaycastOutcome) :
  let g1 := step (AttackInput true r1) g in
  let g2 := step (AttackInput true r2) g1 in
  ammo g2 = ammo g1 /\ shots g2 = shots g1 /\ fireDelay g2 = fireDelay g1 /\
  attackCooldown g2 = attackCooldown g1.
Proof.
  cbv zeta. unfold step. cbn [dispatch onInputAttack negb].
  set (g1 := stateOf (triggerAttack r1 g)).
  pose proof (triggerAttack_effect r1 g) as E1. fold g1 in E1.
  pose proof (triggerAttack_effect r2 g1) as E2.
  assert (HR : canAttack g1 = false \/ (canAttack g1 = true /\ fireDelay g1 <> None)).
  { destruct (canAttack g) eqn:EC.
    - destruct (fireDelay g) eqn:EF.
      + right. destruct (tailView_inv _ _ E1) as (A & C & _ & F & _).
        split; [rewrite (canAttack_of_view g g1 C A); exact EC|congruence].
      + left. apply canAttack_cooling.
        destruct (_ || _); unfold tailView in E1; congruence.
    - left. rewrite <- EC. apply canAttack_of_view; unfold tailView in E1; congruence. }
  destruct HR as [HR|[HR HF]]; rewrite HR in E2.
  - unfold tailView in E2.
    assert (A : ammo (stateOf (triggerAttack r2 g1)) = ammo g1) by congruence.
    assert (C : attackCooldown (stateOf (triggerAttack r2 g1)) = attackCooldown g1)
      by congruence.
    assert (F : fireDelay (stateOf (triggerAttack r2 g1)) = fireDelay g1) by congruence.
    assert (T : tally (stateOf (triggerAttack r2 g1)) =
                (shots g1, if loadedAmmo g1 <? ammoPerFire props
                           then S (outOfAmmoCues g1) else outOfAmmoCues g1))
      by congruence.
    unfold shots at 1. rewrite T. auto.
  - destruct (fireDelay g1) eqn:EF1; [|congruence].
    destruct (tailView_inv _ _ E2) as (A & C & _ & F & T).
    unfold shots. rewrite T. repeat split; congruence.
Qed.

(** ** Silence: release, grab end and dispose *)

Lemma resets_clear (g : Gun) :
  bulletBurstTimer (resetAutoAttack (resetBurst g)) = None /\
  autoAttackTimer (resetAutoAttack (resetBurst g)) = None /\
  currentBurstCount (resetAutoAttack (resetBurst g)) = 0.
Proof.
  destruct g as [? ? ? ? ? ? ? a ? b ? ? ? ?].
  unfold resetAutoAttack, resetBurst; cbn.
  destruct b, a; cbn; auto.
Qed.

Lemma triggerReload_quiet (g : Gun) :
  fireDelay (triggerReload g) = fireDelay g /\
  tally (triggerReload g) = tally g /\
  pools (triggerReload g) = pools g /\
  (bulletBurstTimer g = None -> bulletBurstTimer (triggerReload g) = None) /\
  (autoAttackTimer g = None -> autoAttackTimer (triggerReload g) = None).
Proof.
  unfold triggerReload.
  destruct (reloadTimer g); [auto|].
  destruct hasUnlimitedAmmo; [auto|].
  destruct (_ =? 0); [auto|].
  destruct (_ <? _); [auto|].
  cbv zeta.
  destruct (tailView_inv _ _ (proj1 (tailView_timers g))) as (_ & _ & P & F & T).
  destruct (resets_clear g) as (B & A & _).
  set (g1 := resetAutoAttack (resetBurst g)) in *.
  assert (T' : forall x, tally (emit ReloadSFX x) = tally x) by reflexivity.
  rewrite T', tally_of_set_reserveAmmo, tally_of_set_loadedAmmo.
  unfold pools in *.
  repeat split; intros; push; try assumption; try congruence.
Qed.

Lemma quiet_step (i : Input) (g : Gun) :
  timerInput i = true -> quiet g ->
  quiet (step i g) /\ tally (step i g) = tally g /\ pools (step i g) = pools g /\
  (reloadTimer g = None -> ammo (step i g) = ammo g /\ reloadTimer (step i g) = None).
Proof.
  intros Hi (F & B & A).
  unfold step. destruct i; try discriminate Hi; cbn [dispatch exec stateOf].
  - unfold onFireDelay. rewrite F. unfold quiet. auto.
  - unfold onCooldownElapsed. destruct (attackCooldownTimer g); unfold quiet; auto.
  - unfold onBurstTick. rewrite B. unfold quiet. auto.
  - unfold onAutoAttackTick. rewrite A. unfold quiet. auto.
  - unfold onReloadTimer. destruct (reloadTimer g) as [[d []]|] eqn:ER.
    + destruct (triggerReload_quiet (with_reloadTimer None g)) as (F' & T' & P' & B' & A').
      unfold quiet. rewrite F'. repeat split; auto; discriminate.
    + unfold quiet. repeat split; auto; discriminate.
    + unfold quiet. auto.
Qed.

Lemma quiet_run (inputs : list Input) :
  forall g, forallb timerInput inputs = true -> quiet g ->
  quiet (run inputs g) /\ tally (run inputs g) = tally g /\
  pools (run inputs g) = pools g /\
  (reloadTimer g = None ->
   ammo (run inputs g) = ammo g /\ reloadTimer (run inputs g) = None).
Proof.
  induction inputs as [|i l IH]; intros g Hl Q; [auto|].
  cbn in Hl. apply andb_prop in Hl as [Hi Hl].
  destruct (quiet_step i g Hi Q) as (Q1 & T1 & P1 & R1).
  destruct (IH (step i g) Hl Q1) as (Q2 & T2 & P2 & R2).
  cbn [run fold_left]. change (fold_left _ l (step i g)) with (run l (step i g)).
  repeat split; try apply Q2; try congruence;
    destruct (R1 H) as [A1 N1]; destruct (R2 N1) as [A2 N2]; congruence.
Qed.

(** X5.  Releasing the attack input clears the burst and auto-attack timers
    and the burst count and leaves the ledger alone; when no fire delay is
    pending at that moment, no timer callback that runs afterwards, in any
    number and order, fires a shot. *)
Theorem release_stops_firing (g : Gun) (r : RaycastOutcome) (timers : list Input) :
  forallb timerInput timers = true ->
  let g' := step (AttackInput false r) g in
  bulletBurstTimer g' = None /\ autoAttackTimer g' = None /\
  currentBurstCount g' = 0 /\ ammo g' = ammo g /\ shots g' = shots g /\
  (fireDelay g = None -> shots (run timers g') = shots g).
Proof.
  intros Hl g'.
  assert (E : g' = resetAutoAttack (resetBurst g)) by reflexivity.
  destruct (tailView_inv _ _ (proj1 (tailView_timers g))) as (A & _ & _ & F & T).
  rewrite <- E in A, F, T.
  destruct (resets_clear g) as (B1 & B2 & B3). rewrite <- E in B1, B2, B3.
  repeat split; try assumption.
  - unfold shots. rewrite T. reflexivity.
  - intros HF.
    assert (Q : quiet g') by (unfold quiet; repeat split; congruence).
    destruct (quiet_run timers g' Hl Q) as (_ & T' & _).
    unfold shots. rewrite T', T. reflexivity.
Qed.

Lemma resetReload_clear (g : Gun) :
  reloadTimer (resetReload g) = None /\
  bulletBurstTimer (resetReload g) = bulletBurstTimer g /\
  autoAttackTimer (resetReload g) = autoAttackTimer g /\
  currentBurstCount (resetReload g) = currentBurstCount g /\
  tailView (resetReload g) = tailView g.
Proof.
  unfold resetReload. destruct (reloadTimer g) eqn:E; auto 10.
Qed.

Lemma resets_keep_reloadTimer (g : Gun) :
  reloadTimer (resetAutoAttack (resetBurst g)) = reloadTimer g.
Proof.
  destruct g as [? ? ? ? ? ? ? a ? b ? ? ? ?].
  unfold resetAutoAttack, resetBurst; cbn.
  destruct b, a; reflexivity.
Qed.

Lemma onGrabEnd_effect (g : Gun) :
  reloadTimer (onGrabEnd g) = None /\ bulletBurstTimer (onGrabEnd g) = None /\
  autoAttackTimer (onGrabEnd g) = None /\ currentBurstCount (onGrabEnd g) = 0 /\
  tailView (onGrabEnd g) = tailView g.
Proof.
  unfold onGrabEnd.
  destruct (resetReload_clear g) as (R & _ & _ & _ & V).
  destruct (resets_clear (resetReload g)) as (B & A & C).
  pose proof (resets_keep_reloadTimer (resetReload g)) as R'.
  pose proof (proj1 (tailView_timers (resetReload g))) as V'.
  repeat split; congruence.
Qed.

Lemma dispose_effect (g : Gun) :
  quiet (dispose g) /\ reloadTimer (dispose g) = None /\
  pools (dispose g) = ([], []) /\ currentBurstCount (dispose g) = 0 /\
  ammo (dispose g) = ammo g /\ tally (dispose g) = tally g /\
  attackCooldown (dispose g) = attackCooldown g /\
  attackCooldownTimer (dispose g) = attackCooldownTimer g.
Proof.
  destruct g as [? ? ? ? ? ? rt a fd b ? ? ? ?].
  unfold dispose, quiet, resetAutoAttack, resetBurst, resetReload; cbn.
  destruct rt, b, a, fd; cbn; repeat split; reflexivity.
Qed.

(** X7.  [dispose] empties both pools, clears the reload, burst, auto-attack
    and fire-delay timers and leaves ammunition and the cooldown flag and
    its timer alone; whatever timer callbacks run afterwards, no shot is
    fired, no out-of-ammo cue is played and ammunition stays as it was. *)
Theorem dispose_silences (g : Gun) (timers : list Input) :
  forallb timerInput timers = true ->
  let g' := dispose g in
  impactFX g' = [] /\ missFX g' = [] /\
  fireDelay g' = None /\ reloadTimer g' = None /\
  bulletBurstTimer g' = None /\ autoAttackTimer g' = None /\
  attackCooldownTimer g' = attackCooldownTimer g /\
  ammo g' = ammo g /\ tally g' = tally g /\
  tally (run timers g') = tally g /\ ammo (run timers g') = ammo g /\
  pools (run timers g') = ([], []).
Proof.
  intros Hl g'.
  destruct (dispose_effect g) as (Q & R & P & _ & A & T & _ & CT).
  fold g' in Q, R, P, A, T, CT.
  destruct (quiet_run timers g' Hl Q) as (_ & T' & P' & K).
  destruct (K R) as [A' _]. destruct Q as (F & B & AT).
  pose proof (f_equal fst P) as P1. pose proof (f_equal snd P) as P2.
  cbn [fst snd pools] in P1, P2.
  repeat split; try assumption; try congruence.
Qed.

(** X6.  Letting go of the weapon is not disposing of it.  [onGrabEnd]
    clears the reload, burst and auto-attack timers and hands the entity to
    the server player; it leaves ammunition and the shot count alone and
    does not clear a pending fire delay -- only [dispose] does.  With no
    fire delay pending, no timer callback that runs afterwards fires a shot
    or moves ammunition.  And once [transferOwnership] and [dispose] have
    run on the instance, as the hand-over may make them, no timer callback
    fires a shot any more, a pending one included, while the round deducted
    for it stays deducted. *)
Theorem grab_end_does_not_cancel_fire_delay (g : Gun) (h : Hold)
    (timers : list Input) :
  forallb timerInput timers = true ->
  let w1 := handle (Callback GrabEnd) (g, h) in
  let g1 := fst w1 in
  let g2 := dispose (snd (transferOwnership g1)) in
  owner (snd w1) = ServerPlayer /\
  reloadTimer g1 = None /\ bulletBurstTimer g1 = None /\ autoAttackTimer g1 = None /\
  ammo g1 = ammo g /\ shots g1 = shots g /\ fireDelay g1 = fireDelay g /\
  (fireDelay g = None ->
   shots (run timers g1) = shots g /\ ammo (run timers g1) = ammo g) /\
  fireDelay g2 = None /\ ammo g2 = ammo g /\
  shots (run timers g2) = shots g /\ ammo (run timers g2) = ammo g.
Proof.
  intros Hl w1 g1 g2.
  assert (E : g1 = onGrabEnd g) by reflexivity.
  assert (O : owner (snd w1) = ServerPlayer) by reflexivity.
  destruct (onGrabEnd_effect g) as (R & B & A & _ & V).
  destruct (tailView_inv _ _ V) as (HA & _ & _ & HF & HT).
  rewrite <- E in R, B, A, HA, HF, HT.
  assert (HS : shots g1 = shots g) by (unfold shots; rewrite HT; reflexivity).
  destruct (ledgerView_network g1) as (_ & _ & N).
  assert (N1 : ammo (snd (transferOwnership g1)) = ammo g1 /\
               tally (snd (transferOwnership g1)) = tally g1)
    by (unfold ledgerView in N; split; congruence).
  destruct N1 as [NA NT].
  destruct (dispose_effect (snd (transferOwnership g1)))
    as (Q & DR & _ & _ & DA & DT & _).
  fold g2 in Q, DR, DA, DT.
  destruct (quiet_run timers g2 Hl Q) as (_ & T2 & _ & K2).
  destruct (K2 DR) as [A2 _].
  split; [exact O|].
  repeat split; try assumption.
  - destruct (quiet_run timers g1 Hl) as (_ & T & _ & _);
      [unfold quiet; repeat split; congruence|].
    unfold shots. rewrite T, HT. reflexivity.
  - destruct (quiet_run timers g1 Hl) as (_ & _ & _ & K);
      [unfold quiet; repeat split; congruence|].
    destruct (K R) as [K1 _]. congruence.
  - apply Q.
  - congruence.
  - unfold shots. rewrite T2, DT, NT, HT. reflexivity.
  - congruence.
Qed.

(** ** Reloading *)

Lemma triggerReload_started (g : Gun) :
  triggerReload g = g \/ reloadTimer (triggerReload g) = Some (1000, ReloadWindowEnd).
Proof.
  unfold triggerReload.
  destruct (reloadTimer g); [now left|].
  destruct hasUnlimitedAmmo; [now left|].
  destruct (_ =? 0); [now left|].
  destruct (_ <? _); [now left|].
  right. cbv zeta.
  assert (T : forall x, reloadTimer (emit ReloadSFX x) = reloadTimer x) by reflexivity.
  rewrite T, reloadTimer_of_set_reserveAmmo, reloadTimer_of_set_loadedAmmo.
  reflexivity.
Qed.

Lemma triggerReload_idem (g : Gun) : triggerReload (triggerReload g) = triggerReload g.
Proof.
  destruct (triggerReload_started g) as [E|E]; [rewrite !E; reflexivity|].
  unfold triggerReload at 1. rewrite E. reflexivity.
Qed.

(** X8.  Pressing reload again while the reload window is open does
    nothing: any number of presses, with releases in between, leaves the
    weapon exactly where the first press left it, the event log included. *)
Theorem reload_presses_collapse (presses : list bool) (g : Gun) :
  let g1 := step (ReloadInput true) g in
  run (map ReloadInput presses) g1 = g1.
Proof.
  cbv zeta. induction presses as [|p l IH]; [reflexivity|].
  cbn [map run fold_left].
  change (fold_left _ (map ReloadInput l) ?x) with (run (map ReloadInput l) x).
  assert (E : step (ReloadInput p) (step (ReloadInput true) g) = step (ReloadInput true) g).
  { unfold step; cbn [dispatch exec stateOf onInputReload negb].
    destruct p; cbn [negb]; [apply triggerReload_idem|reflexivity]. }
  rewrite E. exact IH.
Qed.

(** X9.  A grant of [amount] rounds, negative amounts included, leaves the
    weapon carrying [max loaded (min (carried + amount) maxAmmo)] rounds: the
    grant is capped at [maxAmmo], a negative grant never takes rounds out of
    the clip, and the auto-reload the grant may trigger moves rounds without
    creating or losing any. *)
Theorem grant_is_capped (amount : Z) (g : Gun) :
  0 <= ammoPerFire props -> ammo_inv g ->
  totalAmmo (step (GrantAmmo amount) g) =
    Z.max (loadedAmmo g) (Z.min (totalAmmo g + amount) (maxAmmo props)) /\
  ammo_inv (step (GrantAmmo amount) g).
Proof.
  intros HA HI.
  change (step (GrantAmmo amount) g) with (onGrantAmmo amount g).
  unfold onGrantAmmo. cbv zeta.
  set (g1 := set_reserveAmmo (reserveAmmo g + amount) g).
  assert (I1 : ammo_inv g1) by (apply ammo_inv_set_reserveAmmo, HI).
  assert (T1 : totalAmmo g1 =
               Z.max (loadedAmmo g) (Z.min (totalAmmo g + amount) (maxAmmo props))).
  { unfold totalAmmo, g1.
    rewrite reserveAmmo_set_reserveAmmo, loadedAmmo_set_reserveAmmo.
    destruct HI as [[L0 L1] [R0 R1]]. lia. }
  destruct (_ && _); [|split; assumption].
  destruct (triggerReload_conserves g1 HA I1) as (I2 & T2 & _).
  split; [congruence|exact I2].
Qed.

Lemma afterShot_dry (g : Gun) :
  autoReload props = true -> 0 < ammoPerFire props -> loadedAmmo g = 0 ->
  reloadTimer (afterShot g) = Some (500, AutoReloadDue) /\
  bulletBurstTimer (afterShot g) = None /\ autoAttackTimer (afterShot g) = None /\
  ammo (afterShot g) = ammo g.
Proof.
  intros HR HA HL. unfold afterShot. cbv zeta.
  set (g1 := with_attackCooldownTimer _ g).
  assert (L1 : loadedAmmo g1 = 0) by exact HL.
  rewrite L1. destruct (Z.ltb_spec 0 (ammoPerFire props)); [|lia].
  destruct (resets_clear g1) as (B & A & _).
  destruct (tailView_inv _ _ (proj1 (tailView_timers g1))) as (M & _).
  set (g2 := resetAutoAttack (resetBurst g1)) in *.
  assert (L2 : loadedAmmo g2 = 0).
  { unfold loadedAmmo in *. apply (f_equal fst) in M. cbn [fst ammo] in M. congruence. }
  rewrite HR, L2. cbn [andb Z.eqb].
  destruct (resetReload_clear g2) as (_ & B' & A' & _ & V).
  destruct (tailView_inv _ _ V) as (M' & _).
  repeat split; try (cbn; congruence).
  change (ammo (with_reloadTimer (Some (500, AutoReloadDue)) (resetReload g2)))
    with (ammo (resetReload g2)).
  rewrite M', M. reflexivity.
Qed.

(** X10.  With [autoReload] set, the shot that leaves the clip empty arms a
    500 ms timer and stops burst and auto-attack.  When the timer elapses the
    clip is refilled from the reserve with [min clipSize reserve] rounds and
    the 1000 ms reload window opens -- unless the reserve holds fewer than
    [ammoPerFire] rounds, in which case nothing moves and no further timer is
    armed: the weapon stays empty until ammunition is granted. *)
Theorem auto_reload_after_last_round (r : RaycastOutcome) (g : Gun) :
  autoReload props = true -> 0 < ammoPerFire props ->
  ammo_inv g -> pool_inv g -> loadedAmmo g = 0 ->
  let g1 := stateOf (finishFiring r g) in
  let g2 := step ReloadTimerElapsed g1 in
  let transfer := Z.min (clipSize props) (reserveAmmo g) in
  reloadTimer g1 = Some (500, AutoReloadDue) /\
  bulletBurstTimer g1 = None /\ autoAttackTimer g1 = None /\ ammo g1 = ammo g /\
  (transfer < ammoPerFire props -> ammo g2 = ammo g /\ reloadTimer g2 = None) /\
  (ammoPerFire props <= transfer ->
     loadedAmmo g2 = transfer /\ reserveAmmo g2 = reserveAmmo g - transfer /\
     reloadTimer g2 = Some (1000, ReloadWindowEnd)).
Proof.
  intros HR HA HI HP HL g1 g2 transfer.
  destruct (finishFiring_ok r g HP) as (g0 & E & F & _ & _ & _).
  assert (E1 : g1 = afterShot g0) by (unfold g1; rewrite E; reflexivity).
  assert (A0 : ammo g0 = ammo g).
  { unfold firing in F. unfold ammo. cbn in F. congruence. }
  assert (L0 : loadedAmmo g0 = 0).
  { unfold loadedAmmo in *. apply (f_equal fst) in A0. cbn [fst ammo] in A0. congruence. }
  destruct (afterShot_dry g0 HR HA L0) as (R1 & B1 & T1 & A1).
  rewrite <- E1 in R1, B1, T1, A1.
  assert (AG : ammo g1 = ammo g) by congruence.
  assert (E2 : g2 = triggerReload (with_reloadTimer None g1)).
  { unfold g2, step; cbn [dispatch exec stateOf]. unfold onReloadTimer.
    rewrite R1. reflexivity. }
  set (g1' := with_reloadTimer None g1) in *.
  assert (A1' : ammo g1' = ammo g) by exact AG.
  assert (I1 : ammo_inv g1') by exact (ammo_inv_same _ _ A1' HI).
  assert (HU : hasUnlimitedAmmo = false) by (unfold hasUnlimitedAmmo; lia).
  assert (L1 : loadedAmmo g1' = 0 /\ reserveAmmo g1' = reserveAmmo g).
  { unfold loadedAmmo, reserveAmmo in *. unfold ammo in A1'.
    split; [apply (f_equal fst) in A1'|apply (f_equal snd) in A1'];
      cbn [fst snd] in A1'; congruence. }
  destruct L1 as [L1 L2].
  assert (TR : Z.min (clipSize props - loadedAmmo g1') (reserveAmmo g1') = transfer).
  { unfold transfer. rewrite L1, L2. f_equal. lia. }
  repeat split; try assumption.
  - rewrite E2, (triggerReload_noop g1' eq_refl HU) by (rewrite TR; lia). exact A1'.
  - rewrite E2, (triggerReload_noop g1' eq_refl HU) by (rewrite TR; lia). reflexivity.
  - destruct (triggerReload_moves g1' eq_refl HU I1) as (M1 & _);
      [rewrite TR; lia|rewrite TR; lia|].
    rewrite E2, M1, TR, L1. lia.
  - destruct (triggerReload_moves g1' eq_refl HU I1) as (_ & M2 & _);
      [rewrite TR; lia|rewrite TR; lia|].
    rewrite E2, M2, TR, L2. reflexivity.
  - destruct (triggerReload_moves g1' eq_refl HU I1) as (_ & _ & M3 & _);
      [rewrite TR; lia|rewrite TR; lia|].
    rewrite E2. exact M3.
Qed.

(** ** The effect pools *)

Lemma existsb_eqb_In (e : ParticleGizmo) (l : list ParticleGizmo) :
  existsb (Nat.eqb e) l = true <-> In e l.
Proof.
  rewrite existsb_exists. split.
  - intros (x & Hx & E). apply Nat.eqb_eq in E. subst. exact Hx.
  - intros H. exists e. split; [exact H|apply Nat.eqb_refl].
Qed.

Lemma setAdd_fold (l : list ParticleGizmo) :
  forall s, NoDup s ->
  NoDup (fold_left (fun s e => setAdd e s) l s) /\
  forall x, In x (fold_left (fun s e => setAdd e s) l s) <-> In x s \/ In x l.
Proof.
  induction l as [|e l IH]; intros s ND; cbn [fold_left].
  - split; [exact ND|]. intros x. cbn. tauto.
  - assert (ND' : NoDup (setAdd e s) /\ forall x, In x (setAdd e s) <-> In x s \/ e = x).
    { unfold setAdd. destruct (existsb (Nat.eqb e) s) eqn:E.
      - split; [exact ND|]. intros x. split; [auto|].
        intros [H|<-]; [exact H|]. apply existsb_eqb_In, E.
      - split.
        + apply NoDup_app; [exact ND|repeat constructor; intros []|].
          intros a Ha [<-|[]].
          apply existsb_eqb_In in Ha. congruence.
        + intros x. rewrite in_app_iff. cbn. tauto. }
    destruct ND' as [ND' M]. destruct (IH _ ND') as [N I].
    split; [exact N|]. intros x. rewrite I, M. cbn. tauto.
Qed.

Lemma setDelete_fold (l : list ParticleGizmo) :
  forall s, NoDup s ->
  NoDup (fold_left (fun s e => setDelete e s) l s) /\
  forall x, In x (fold_left (fun s e => setDelete e s) l s) <-> In x s /\ ~ In x l.
Proof.
  induction l as [|e l IH]; intros s ND; cbn [fold_left].
  - split; [exact ND|]. intros x. cbn. tauto.
  - assert (ND' : NoDup (setDelete e s)) by (apply NoDup_filter, ND).
    destruct (IH _ ND') as [N I]. split; [exact N|].
    intros x. rewrite I. unfold setDelete. rewrite filter_In, negb_true_iff, Nat.eqb_neq.
    cbn. split; [intros [[H1 H2] H3]|intros [H1 H2]]; repeat split; auto.
    intros [E|E]; [apply H2; symmetry; exact E|apply H3; exact E].
Qed.

Lemma fxToDespawn_NoDup (spawned existing : list FXList) :
  NoDup (fxToDespawn spawned existing).
Proof.
  unfold fxToDespawn. cbv zeta.
  apply setDelete_fold, setAdd_fold. constructor.
Qed.

Lemma fxToDespawn_In (spawned existing : list FXList) (e : ParticleGizmo) :
  In e (fxToDespawn spawned existing) <->
  In e (allFX existing) /\ ~ In e (allFX spawned).
Proof.
  unfold fxToDespawn. cbv zeta.
  destruct (setAdd_fold (allFX existing) [] (NoDup_nil _)) as [N I].
  destruct (setDelete_fold (allFX spawned) _ N) as [_ D].
  rewrite D, I. cbn. tauto.
Qed.

(** X11.  [syncFX] sends for despawn exactly the handles of the old pool
    that the new pool no longer holds, each once, and only when an asset
    spawner is configured and there is such a handle; it returns the new
    pool.  Receiving the pool already held despawns nothing. *)
Theorem sync_despawns_stale_handles (spawned existing : list FXList) (g : Gun) :
  let gone := fxToDespawn spawned existing in
  (forall e, In e gone <-> In e (allFX existing) /\ ~ In e (allFX spawned)) /\
  NoDup gone /\
  fst (syncFX spawned existing g) = spawned /\
  snd (syncFX spawned existing g) =
    (if assetSpawner props
     then match gone with [] => g | _ :: _ => emit (DespawnAssets gone) g end
     else g) /\
  snd (syncFX spawned spawned g) = g /\
  impactFX (onSyncImpactFX spawned g) = spawned /\
  missFX (onSyncMissFX spawned g) = spawned.
Proof.
  intros gone.
  split; [intros e; apply fxToDespawn_In|].
  split; [apply fxToDespawn_NoDup|].
  split; [reflexivity|].
  split.
  { unfold syncFX. cbn [snd]. fold gone.
    destruct (assetSpawner props); [|reflexivity].
    destruct gone; reflexivity. }
  split.
  { unfold syncFX. cbn [snd].
    assert (E : fxToDespawn spawned spawned = []).
    { destruct (fxToDespawn spawned spawned) as [|e l] eqn:E; [reflexivity|].
      assert (H : In e (fxToDespawn spawned spawned)) by (rewrite E; left; reflexivity).
      apply fxToDespawn_In in H. tauto. }
    rewrite E. rewrite andb_false_r. reflexivity. }
  split; reflexivity.
Qed.

Lemma getImpactFX_next (g : Gun) :
  0 <= nextImpactFXIdx g -> impactFX g <> [] ->
  let n := Z.of_nat (length (impactFX g)) in
  exists g', getImpactFX g = Ok (groupAt (impactFX g) (nextImpactFXIdx g mod n)) g' /\
    impactFX g' = impactFX g /\
    nextImpactFXIdx g' = nextImpactFXIdx g mod n + 1.
Proof.
  intros H0 HN n.
  destruct (getImpactFX_nonempty g H0 HN) as (HB & group & HG & E).
  fold n in HB, HG, E. unfold js_rem in HB, HG, E.
  assert (Hn : 0 < n) by lia.
  rewrite Z.rem_mod_nonneg in HB, HG, E by lia.
  eexists. split; [|split].
  - rewrite E. unfold groupAt. rewrite HG. reflexivity.
  - push. reflexivity.
  - push. reflexivity.
Qed.

Lemma retrieveImpactFX_walk (k : nat) :
  forall g, 0 <= nextImpactFXIdx g -> impactFX g <> [] ->
  let n := Z.of_nat (length (impactFX g)) in
  exists g', retrieveImpactFX k g =
    Ok (map (fun j => groupAt (impactFX g) ((nextImpactFXIdx g + Z.of_nat j) mod n))
            (seq 0 k)) g' /\
    impactFX g' = impactFX g /\ 0 <= nextImpactFXIdx g'.
Proof.
  induction k as [|k IH]; intros g H0 HN n.
  - exists g. cbn. auto.
  - destruct (getImpactFX_next g H0 HN) as (g1 & E1 & P1 & I1). fold n in E1, I1.
    assert (Hn : 0 < n)
      by (unfold n; destruct (impactFX g); cbn in *; [congruence|lia]).
    assert (H1 : 0 <= nextImpactFXIdx g1)
      by (rewrite I1; pose proof (Z.mod_pos_bound (nextImpactFXIdx g) n Hn); lia).
    assert (HN1 : impactFX g1 <> []) by congruence.
    destruct (IH g1 H1 HN1) as (g2 & E2 & P2 & I2).
    rewrite P1 in E2. fold n in E2.
    exists g2. split; [|split; [congruence|exact I2]].
    cbn [retrieveImpactFX]. rewrite (bind_Ok _ _ _ _ _ E1), (bind_Ok _ _ _ _ _ E2).
    unfold ret. f_equal.
    cbn [seq map]. rewrite Z.add_0_r. f_equal.
    rewrite <- seq_shift, map_map. apply map_ext. intros j.
    f_equal. rewrite I1.
    replace (nextImpactFXIdx g + Z.of_nat (S j)) with (nextImpactFXIdx g + 1 + Z.of_nat j) by lia.
    rewrite <- Z.add_assoc, Z.add_mod_idemp_l by lia. f_equal. lia.
Qed.

(** X12.  The impact pool is used round robin: in a reachable state with a
    non-empty pool of [n] groups, [k] consecutive retrievals all return, and
    the [j]-th of them (from 0) returns the group at position
    [(nextImpactFXIdx + j) mod n]; so [n] consecutive hits use every group
    once before any group is used again.  The pool itself is not changed. *)
Theorem impact_pool_round_robin (k : nat) (g : Gun) :
  reachable g -> impactFX g <> [] ->
  let n := Z.of_nat (length (impactFX g)) in
  exists g', retrieveImpactFX k g =
    Ok (map (fun j => groupAt (impactFX g) ((nextImpactFXIdx g + Z.of_nat j) mod n))
            (seq 0 k)) g' /\
    impactFX g' = impactFX g /\
    (forall j, 0 <= (nextImpactFXIdx g + Z.of_nat j) mod n < n).
Proof.
  intros HR HN n.
  destruct (reachable_pool_inv g HR) as [H0 _].
  destruct (retrieveImpactFX_walk k g H0 HN) as (g' & E & P & _).
  exists g'. repeat split; try assumption;
    apply Z.mod_pos_bound; unfold n; destruct (impactFX g); cbn in *; [congruence|lia|congruence|lia].
Qed.

(** ** The ammo display follows the weapon *)

Lemma reports_refl (g : Gun) : reports g g.
Proof. exists []. split; [reflexivity|]. intros ui H. cbn. auto. Qed.

Lemma reports_trans : transitive reports.
Proof.
  intros a b c (n1 & L1 & H1) (n2 & L2 & H2).
  exists (n2 ++ n1). split; [rewrite L2, L1; apply app_assoc|].
  intros ui S. unfold notifyAll in *. rewrite fold_right_app.
  destruct (H1 ui S) as (S1 & D1 & R1).
  destruct (H2 _ S1) as (S2 & D2 & R2).
  repeat split; try apply S2; congruence.
Qed.

Lemma reports_same (g g' : Gun) :
  log g' = log g -> ammo g' = ammo g -> reports g g'.
Proof.
  intros L A. exists []. split; [exact L|].
  intros ui (S & HL & HR). cbn. unfold shows, loadedAmmo, reserveAmmo in *.
  unfold ammo in A. 
  assert (A1 := f_equal fst A). assert (A2 := f_equal snd A). cbn [fst snd] in A1, A2.
  rewrite A1, A2. auto.
Qed.

Lemma reports_emit (e : Effect) (g : Gun) :
  isAmmoEvent e = false -> reports g (emit e g).
Proof.
  intros HE. exists [e]. split; [reflexivity|].
  intros ui S. unfold notifyAll. cbn [fold_right].
  assert (N : notify e ui = ui)
    by (unfold notify; destruct (subscribed ui); [destruct e; try reflexivity; discriminate|reflexivity]).
  rewrite N. auto.
Qed.

Lemma reports_emitAll (es : list Effect) :
  forallb (fun e => negb (isAmmoEvent e)) es = true ->
  forall g, reports g (emitAll es g).
Proof.
  induction es as [|e es IH]; intros H g; [apply reports_refl|].
  cbn in H. apply andb_prop in H as [H1 H2].
  change (emitAll (e :: es) g) with (emitAll es (emit e g)).
  apply (reports_trans g (emit e g)); [|apply IH, H2].
  apply reports_emit. destruct (isAmmoEvent e); [discriminate|reflexivity].
Qed.

Lemma reports_stops (l : list ParticleGizmo) (g : Gun) :
  reports g (emitAll (map FxStop l) g).
Proof. apply reports_emitAll. induction l; [reflexivity|exact IHl]. Qed.

Lemma reports_plays (p : Vec3) (l : list ParticleGizmo) (g : Gun) :
  reports g (triggerFX p l g).
Proof. apply reports_emitAll. induction l; [reflexivity|exact IHl]. Qed.

Lemma reports_stopFX (l : list FXList) (g : Gun) : reports g (stopFX l g).
Proof. apply reports_stops. Qed.

Lemma reports_set_loadedAmmo (v : Z) (g : Gun) : reports g (set_loadedAmmo v g).
Proof.
  unfold set_loadedAmmo. cbv zeta.
  set (x := Z.max 0 (Z.min (Z.max 0 (clipSize props)) v)).
  change (loadedAmmo (with_loadedAmmo x g)) with x.
  destruct (Z.eqb_spec (loadedAmmo g) x) as [E|E]; cbn [negb].
  - apply reports_same; [reflexivity|].
    unfold ammo, loadedAmmo in *. cbn. congruence.
  - exists [LoadedAmmoChanged x (loadedAmmo g)]. split; [reflexivity|].
    intros ui (S & HL & HR). unfold notifyAll, notify. cbn [fold_right].
    rewrite S. unfold shows. cbn. auto.
Qed.

Lemma reports_set_reserveAmmo (v : Z) (g : Gun) : reports g (set_reserveAmmo v g).
Proof.
  unfold set_reserveAmmo. cbv zeta.
  set (x := Z.max 0 (Z.min v (Z.max 0 (maxAmmo props) - loadedAmmo g))).
  change (reserveAmmo (with_reserveAmmo x g)) with x.
  destruct (Z.eqb_spec (reserveAmmo g) x) as [E|E]; cbn [negb].
  - apply reports_same; [reflexivity|].
    unfold ammo, reserveAmmo in *. cbn. congruence.
  - exists [ReserveAmmoChanged x (reserveAmmo g)]. split; [reflexivity|].
    intros ui (S & HL & HR). unfold notifyAll, notify. cbn [fold_right].
    rewrite S. unfold shows. cbn. auto.
Qed.

Ltac reports_leaf :=
  cbv zeta;
  repeat match goal with
  | |- reports ?g ?g => apply reports_refl
  | |- reports ?g (emit ?e ?x) =>
      apply (reports_trans g x); [|apply reports_emit; reflexivity]
  | |- reports ?g (set_loadedAmmo ?v ?x) =>
      apply (reports_trans g x); [|apply reports_set_loadedAmmo]
  | |- reports ?g (set_reserveAmmo ?v ?x) =>
      apply (reports_trans g x); [|apply reports_set_reserveAmmo]
  | |- reports ?g (stopFX ?l ?x) =>
      apply (reports_trans g x); [|apply reports_stopFX]
  | |- reports ?g (triggerFX ?p ?l ?x) =>
      apply (reports_trans g x); [|apply reports_plays]
  | |- reports ?g (emitAll (map FxStop ?l) ?x) =>
      apply (reports_trans g x); [|apply reports_stops]
  | |- reports ?g (resetReload ?x) =>
      apply (reports_trans g x);
      [|apply reports_same; unfold resetReload; destruct (reloadTimer x); reflexivity]
  | |- reports ?g (resetBurst ?x) =>
      apply (reports_trans g x);
      [|apply reports_same; unfold resetBurst; cbv zeta;
        destruct (bulletBurstTimer _); reflexivity]
  | |- reports ?g (resetAutoAttack ?x) =>
      apply (reports_trans g x);
      [|apply reports_same; unfold resetAutoAttack;
        destruct (autoAttackTimer x); reflexivity]
  | |- reports ?g (triggerBurst ?x) =>
      apply (reports_trans g x);
      [|apply reports_same; unfold triggerBurst;
        destruct (_ <=? _); try reflexivity;
        destruct (bulletBurstTimer x); try reflexivity;
        destruct (_ <? _); reflexivity]
  | |- reports ?g (triggerAutoAttack ?x) =>
      apply (reports_trans g x);
      [|apply reports_same; unfold triggerAutoAttack;
        destruct (negb _); try reflexivity;
        destruct (autoAttackTimer x); reflexivity]
  | |- reports ?g (with_impactFX _ ?x) =>
      apply (reports_trans g x); [|apply reports_same; reflexivity]
  | |- reports ?g (with_missFX _ ?x) =>
      apply (reports_trans g x); [|apply reports_same; reflexivity]
  | |- reports ?g (with_nextImpactFXIdx _ ?x) =>
      apply (reports_trans g x); [|apply reports_same; reflexivity]
  | |- reports ?g (with_nextMissFXIdx _ ?x) =>
      apply (reports_trans g x); [|apply reports_same; reflexivity]
  | |- reports ?g (with_attackCooldown _ ?x) =>
      apply (reports_trans g x); [|apply reports_same; reflexivity]
  | |- reports ?g (with_attackCooldownTimer _ ?x) =>
      apply (reports_trans g x); [|apply reports_same; reflexivity]
  | |- reports ?g (with_reloadTimer _ ?x) =>
      apply (reports_trans g x); [|apply reports_same; reflexivity]
  | |- reports ?g (with_autoAttackTimer _ ?x) =>
      apply (reports_trans g x); [|apply reports_same; reflexivity]
  | |- reports ?g (with_fireDelay _ ?x) =>
      apply (reports_trans g x); [|apply reports_same; reflexivity]
  | |- reports ?g (with_bulletBurstTimer _ ?x) =>
      apply (reports_trans g x); [|apply reports_same; reflexivity]
  | |- reports ?g (with_currentBurstCount _ ?x) =>
      apply (reports_trans g x); [|apply reports_same; reflexivity]
  | |- reports ?g (if ?b then _ else _) => destruct b
  | |- reports ?g (match ?o with Some _ => _ | None => _ end) => destruct o
  end.

Lemma reports_triggerReload (g : Gun) : reports g (triggerReload g).
Proof. unfold triggerReload. reports_leaf. Qed.

Ltac reports_leaf' :=
  repeat (reports_leaf;
    match goal with
    | |- reports ?g (triggerReload ?x) =>
        apply (reports_trans g x); [|apply reports_triggerReload]
    end); reports_leaf.

Lemma reports_pure :
  (forall a g, reports g (onGrantAmmo a g)) /\
  (forall p g, reports g (onInputReload p g)) /\
  (forall g, reports g (onGrabEnd g)) /\
  (forall g, reports g (onCooldownElapsed g)) /\
  (forall g, reports g (onReloadTimer g)) /\
  (forall l g, reports g (onSyncImpactFX l g)) /\
  (forall l g, reports g (onSyncMissFX l g)) /\
  (forall s g, reports g (receiveOwnership s g)) /\
  (forall g, reports g (snd (transferOwnership g))) /\
  (forall g, reports g (dispose g)) /\
  (forall g, reports g (preStart g)).
Proof.
  repeat split; intros.
  - unfold onGrantAmmo. reports_leaf'.
  - unfold onInputReload. reports_leaf'.
  - unfold onGrabEnd. reports_leaf'.
  - unfold onCooldownElapsed. reports_leaf'.
  - unfold onReloadTimer. destruct (reloadTimer g) as [[d []]|]; reports_leaf'.
  - unfold onSyncImpactFX, syncFX. cbv zeta. reports_leaf'.
  - unfold onSyncMissFX, syncFX. cbv zeta. reports_leaf'.
  - unfold receiveOwnership. destruct s; reports_leaf'.
  - unfold transferOwnership. cbn [snd]. reports_leaf'.
  - unfold dispose. reports_leaf'.
  - unfold preStart. reports_leaf'.
Qed.

Lemma getFX_reports : preserves reports getImpactFX /\ preserves reports getMissFX.
Proof.
  split; intros g; [unfold getImpactFX|unfold getMissFX];
    (destruct (_ =? 0); [apply reports_refl|]); cbv zeta;
    (destruct (js_index _ _); cbn [stateOf]; reports_leaf).
Qed.

Ltac reports_steps :=
  repeat match goal with
  | |- preserves _ (bind _ _) =>
      apply preserves_bind; [apply reports_trans | | intros ? ]
  | |- preserves _ getImpactFX => apply getFX_reports
  | |- preserves _ getMissFX => apply getFX_reports
  | |- preserves _ (ret _) => apply preserves_ret; intros; apply reports_refl
  | |- preserves _ (exec _) =>
      apply preserves_exec; intros;
      cbv beta delta [sendDamageEvent fireWithProjectile]; reports_leaf'
  | |- preserves _ (if ?b then _ else _) => destruct b
  | |- preserves _ (match ?x with _ => _ end) => destruct x
  end.

Lemma fireWithRaycast_reports (r : RaycastOutcome) : preserves reports (fireWithRaycast r).
Proof. unfold fireWithRaycast. cbv zeta. reports_steps. Qed.

Lemma onProj_reports :
  (forall t p, preserves reports (onProjHitPlayer t p)) /\
  (forall t p, preserves reports (onProjHitEntity t p)) /\
  (forall p, preserves reports (onProjHitWorld p)) /\
  (forall p, preserves reports (onProjMiss p)).
Proof.
  repeat split; intros;
    unfold onProjHitPlayer, onProjHitEntity, onProjHitWorld, onProjMiss;
    reports_steps.
Qed.

Lemma finishFiring_reports (r : RaycastOutcome) : preserves reports (finishFiring r).
Proof.
  unfold finishFiring.
  repeat match goal with
  | |- preserves _ (bind _ _) =>
      apply preserves_bind; [apply reports_trans | | intros ? ]
  | |- preserves _ (fireWithRaycast _) => apply fireWithRaycast_reports
  | |- preserves _ (ret _) => apply preserves_ret; intros; apply reports_refl
  | |- preserves _ (exec _) =>
      apply preserves_exec; intros;
      cbv beta delta [sendDamageEvent fireWithProjectile]; reports_leaf'
  | |- preserves _ (if ?b then _ else _) => destruct b
  end.
Qed.

Lemma triggerAttack_reports (r : RaycastOutcome) : preserves reports (triggerAttack r).
Proof.
  intros g. rewrite triggerAttack_unfold.
  destruct (negb (canAttack g)); [cbn [stateOf]; reports_leaf'|].
  destruct (fireDelay g); [apply reports_refl|].
  assert (D : reports g (deduct g)) by (unfold deduct; reports_leaf').
  destruct (_ || _).
  - apply (reports_trans g (deduct g)); [exact D|apply finishFiring_reports].
  - cbn [stateOf]. apply (reports_trans g (deduct g)); [exact D|]. reports_leaf'.
Qed.

Lemma step_reports (i : Input) (g : Gun) : reports g (step i g).
Proof.
  destruct reports_pure as (P1 & P2 & P3 & P4 & P5 & P6 & P7 & P8 & P9 & _).
  destruct onProj_reports as (Q1 & Q2 & Q3 & Q4).
  unfold step. destruct i; cbn [dispatch exec stateOf]; auto;
    try (apply Q1 || apply Q2 || apply Q3 || apply Q4).
  - unfold onInputAttack. destruct pressed; cbn [negb].
    + apply triggerAttack_reports.
    + cbn [exec stateOf]. reports_leaf'.
  - unfold onFireDelay. destruct (fireDelay g);
      [apply finishFiring_reports|apply reports_refl].
  - unfold onBurstTick. destruct (bulletBurstTimer g); [|apply reports_refl].
    destruct (_ =? 0); [cbn [stateOf]; reports_leaf'|].
    revert g. change (preserves reports
      (exec (with_attackCooldown false) ;; triggerAttack r ;;
       exec (fun g => with_currentBurstCount (currentBurstCount g - 1) g))%gun).
    repeat match goal with
    | |- preserves _ (bind _ _) =>
        apply preserves_bind; [apply reports_trans | | intros ? ]
    | |- preserves _ (triggerAttack _) => apply triggerAttack_reports
    | |- preserves _ (exec _) => apply preserves_exec; intros; reports_leaf'
    end.
  - unfold onAutoAttackTick. destruct (autoAttackTimer g); [|apply reports_refl].
    revert g. change (preserves reports
      (exec (with_attackCooldown false) ;; triggerAttack r)%gun).
    repeat match goal with
    | |- preserves _ (bind _ _) =>
        apply preserves_bind; [apply reports_trans | | intros ? ]
    | |- preserves _ (triggerAttack _) => apply triggerAttack_reports
    | |- preserves _ (exec _) => apply preserves_exec; intros; reports_leaf'
    end.
Qed.

Lemma run_reports (inputs : list Input) : forall g, reports g (run inputs g).
Proof.
  induction inputs as [|i l IH]; intros g; [apply reports_refl|].
  cbn [run fold_left]. change (fold_left _ l ?x) with (run l x).
  apply (reports_trans g (step i g)); [apply step_reports|apply IH].
Qed.

(** X13.  The ammo display never goes stale.  Once the weapon has sent
    [setAmmoSource] with its counts, whatever happens to the weapon
    afterwards, a display that receives the change events the weapon sends
    shows exactly the loaded and the reserve count the weapon holds; it is
    displayed unless ammunition is unlimited, and its handedness stays as
    set. *)
Theorem ammo_display_tracks (inputs : list Input) (rightHand : bool)
    (ui : AmmoUI) (g : Gun) :
  sane_config -> ammo_inv g ->
  let ui0 := onSetAmmoSource (ammoSourceOf rightHand g) ui in
  let g' := run inputs g in
  exists new, log g' = new ++ log g /\
    ui_loadedAmmo (notifyAll new ui0) = loadedAmmo g' /\
    ui_reserveAmmo (notifyAll new ui0) = reserveAmmo g' /\
    displayAmmoUI (notifyAll new ui0) = negb hasUnlimitedAmmo /\
    rightHanded (notifyAll new ui0) = rightHand.
Proof.
  intros C I ui0 g'.
  destruct (run_reports inputs g) as (new & L & H). fold g' in L.
  assert (S0 : shows ui0 g) by (unfold shows, ui0; cbn; auto).
  destruct (H ui0 S0) as ((_ & HL & HR) & D & R). fold g' in HL, HR.
  destruct (run_ammo_inv inputs g C I) as [[L0 _] [R0 _]]. fold g' in L0, R0.
  exists new. split; [exact L|].
  rewrite HL, HR, D, R.
  split; [lia|]. split; [lia|].
  split; [unfold ui0; cbn; destruct hasUnlimitedAmmo; reflexivity|reflexivity].
Qed.

(** ** Grabbing *)

Lemma actions_apart (a b : bool) : getAttackInputAction a <> getReloadInputAction b.
Proof.
  unfold getAttackInputAction, getReloadInputAction.
  destruct device, a, b; discriminate.
Qed.

Lemma Input_eq_GrabEnd (i : Input) : i = GrabEnd \/ i <> GrabEnd.
Proof. destruct i; (left; reflexivity) || (right; discriminate). Qed.

Lemma callback_keeps_hold (i : Input) (g : Gun) (h : Hold) :
  i <> GrabEnd -> snd (handle (Callback i) (g, h)) = h.
Proof.
  intros N. destruct i; cbn [handle]; try reflexivity; try congruence.
  - destruct (liveInput _); reflexivity.
  - destruct (liveInput _); reflexivity.
Qed.

Ltac hold_cases :=
  unfold hold_inv, onGrabStart, onGrabInitial, onGrabEndHold, onMultiGrabStart,
    onMultiGrabEnd, setupAmmoUI, setupReloadInput, setupAttackInput,
    mainHandIsRight, disconnect, liveInput;
  cbn [mainHand attackInput reloadInput grantAmmo ammoUIVisible ammoSources owner
       with_mainHand with_attackInput with_reloadInput with_grantAmmo with_ammoUI
       with_owner
       action connected snd fst negb orb andb].

Lemma hold_inv_intro (h : Hold) :
  (forall p, reloadInput h = Some p ->
     hasUnlimitedAmmo = false /\ exists r, action p = getReloadInputAction r) ->
  (forall p, attackInput h = Some p -> exists r, action p = getAttackInputAction r) ->
  (is2Handed grabProps = false ->
     liveInput (attackInput h) = match mainHand h with Some _ => true | None => false end /\
     liveInput (reloadInput h) =
       match mainHand h with Some _ => negb hasUnlimitedAmmo | None => false end) ->
  hold_inv h.
Proof. unfold hold_inv. auto. Qed.

Lemma disconnect_bound (i : option PlayerInput) (p : PlayerInput) :
  disconnect i = Some p ->
  exists q, i = Some q /\ action p = action q /\ connected p = false.
Proof.
  destruct i as [q|]; cbn; [|discriminate].
  intros E. injection E as <-. exists q. auto.
Qed.

Lemma setupInputs_inv (h : Hold) :
  let h' := setupReloadInput (setupAttackInput h) in
  mainHand h' = mainHand h /\ ammoUIVisible h' = ammoUIVisible h /\
  ammoSources h' = ammoSources h /\ grantAmmo h' = grantAmmo h /\
  attackInput h' =
    Some {| action := getAttackInputAction (mainHandIsRight h); connected := true |} /\
  liveInput (reloadInput h') = negb hasUnlimitedAmmo /\
  ((forall p, reloadInput h = Some p ->
      hasUnlimitedAmmo = false /\ exists r, action p = getReloadInputAction r) ->
   forall p, reloadInput h' = Some p ->
      hasUnlimitedAmmo = false /\ exists r, action p = getReloadInputAction r) /\
  (hasUnlimitedAmmo = false ->
   reloadInput h' =
     Some {| action := getReloadInputAction (mainHandIsRight h); connected := true |}).
Proof.
  destruct h as [mh ai ri ga v srcs ow]. hold_cases.
  destruct hasUnlimitedAmmo eqn:U; hold_cases.
  - repeat split; try discriminate.
    + destruct ri; reflexivity.
    + apply disconnect_bound in H0 as (q & -> & _). apply (H q eq_refl).
    + apply disconnect_bound in H0 as (q & -> & E & _).
      destruct (H q eq_refl) as [_ [r Hr]]. exists r. congruence.
  - repeat split; intros; try reflexivity.
    injection H0 as <-. cbn. eauto.
Qed.

Lemma hold_inv_grant (v : list bool) (h : Hold) : hold_inv h -> hold_inv (with_grantAmmo v h).
Proof. intros H. exact H. Qed.

Lemma hold_inv_disconnect (h : Hold) :
  hold_inv h -> is2Handed grabProps = true ->
  hold_inv (with_reloadInput (disconnect (reloadInput (with_attackInput (disconnect (attackInput h)) h)))
              (with_attackInput (disconnect (attackInput h)) h)).
Proof.
  intros (H1 & H2 & H3) T. apply hold_inv_intro; hold_cases.
  - intros p E. apply disconnect_bound in E as (q & E & A & _).
    destruct (H1 q E) as [U [r Hr]]. split; [exact U|exists r; congruence].
  - intros p E. apply disconnect_bound in E as (q & E & A & _).
    destruct (H2 q E) as [r Hr]. exists r; congruence.
  - congruence.
Qed.

Lemma onGrabEndHold_inv (h : Hold) : hold_inv h -> hold_inv (onGrabEndHold h).
Proof.
  intros (H1 & H2 & H3). apply hold_inv_intro; unfold onGrabEndHold; cbv zeta.
  - destruct (ammoUI grabProps); hold_cases;
      intros p E; apply disconnect_bound in E as (q & E & A & _);
      destruct (H1 q E) as [U [r Hr]]; (split; [exact U|exists r; congruence]).
  - destruct (ammoUI grabProps); hold_cases;
      intros p E; apply disconnect_bound in E as (q & E & A & _);
      destruct (H2 q E) as [r Hr]; exists r; congruence.
  - intros _. destruct (ammoUI grabProps); hold_cases;
      destruct (attackInput h), (reloadInput h); auto.
Qed.

Lemma onGrabInitial_inv (b : bool) (g : Gun) (h : Hold) :
  hold_inv h -> hold_inv (onGrabInitial b g h).
Proof.
  intros HI. unfold onGrabInitial. destruct (mainHand h) eqn:M; [exact HI|].
  cbv zeta.
  set (h1 := with_mainHand _ h).
  destruct HI as (H1 & H2 & H3).
  destruct (negb isVR || negb (is2Handed grabProps)) eqn:C.
  - destruct (setupInputs_inv h1) as (E1 & E2 & E3 & E4 & E5 & E6 & E7 & E8).
    set (h2 := setupReloadInput (setupAttackInput h1)) in *.
    unfold setupAmmoUI.
    destruct (ammoUI grabProps) eqn:U; apply hold_inv_intro;
      cbn [with_ammoUI mainHand attackInput reloadInput ammoUIVisible];
      try (apply E7; exact H1);
      try (rewrite E5; intros p E; injection E as <-; cbn; eauto);
      try (intros _; rewrite E1, E5, E6; cbn; auto; fail).
  - assert (T : is2Handed grabProps = true)
      by (destruct (is2Handed grabProps); [reflexivity|destruct isVR; discriminate]).
    unfold setupAmmoUI.
    destruct (ammoUI grabProps) eqn:U; apply hold_inv_intro;
      cbn [with_ammoUI mainHand attackInput reloadInput ammoUIVisible h1 with_mainHand];
      try assumption; try congruence.
Qed.

Lemma handle_inv (e : Event) (g : Gun) (h : Hold) :
  hold_inv h -> hold_inv (snd (handle e (g, h))).
Proof.
  intros HI. destruct e.
  - cbn [handle snd]. unfold onGrabStart. cbv zeta.
    apply hold_inv_grant, onGrabInitial_inv, HI.
  - cbn [handle snd]. unfold onMultiGrabStart.
    destruct (is2Handed grabProps) eqn:T; [|exact HI].
    destruct HI as (H1 & H2 & H3).
    destruct (setupInputs_inv h) as (E1 & E2 & E3 & E4 & E5 & E6 & E7 & E8).
    apply hold_inv_intro.
    + apply E7, H1.
    + rewrite E5. intros p E. injection E as <-. cbn. eauto.
    + congruence.
  - cbn [handle]. unfold onMultiGrabEnd.
    destruct (is2Handed grabProps) eqn:T; [|exact HI].
    cbv zeta. cbn [snd]. apply hold_inv_disconnect; assumption.
  - destruct (Input_eq_GrabEnd i) as [->|N].
    + cbn [handle snd]. apply onGrabEndHold_inv, HI.
    + rewrite callback_keeps_hold by exact N. exact HI.
Qed.

Lemma play_inv (events : list Event) :
  forall w, hold_inv (snd w) -> hold_inv (snd (play events w)).
Proof.
  induction events as [|e l IH]; intros w H; [exact H|].
  cbn [play fold_left]. change (fold_left _ l ?x) with (play l x).
  apply IH. destruct w as [g h]. apply handle_inv, H.
Qed.

(** The display of a weapon that starts out not held: as the world had it
    until the component first writes the flag, visible exactly while the
    weapon is held from then on. *)
Lemma display_step (v0 seen : bool) (e : Event) (g : Gun) (h : Hold) :
  ammoUI grabProps = true ->
  (if seen then ammoUIVisible h = held h
   else ammoUIVisible h = v0 /\ held h = false) ->
  if seen || grabTouches e
  then ammoUIVisible (snd (handle e (g, h))) = held (snd (handle e (g, h)))
  else ammoUIVisible (snd (handle e (g, h))) = v0 /\
       held (snd (handle e (g, h))) = false.
Proof.
  intros U D.
  assert (Same : forall h', ammoUIVisible h' = ammoUIVisible h -> mainHand h' = mainHand h ->
            if seen then ammoUIVisible h' = held h'
            else ammoUIVisible h' = v0 /\ held h' = false).
  { intros h' V M. unfold held in *. rewrite V, M. exact D. }
  destruct e as [b| | |i].
  - cbn [grabTouches handle snd]. rewrite orb_true_r.
    unfold onGrabStart. cbv zeta.
    change (ammoUIVisible (onGrabInitial b g h) = held (onGrabInitial b g h)).
    unfold onGrabInitial, held. destruct (mainHand h) eqn:M.
    + rewrite M. unfold held in D. rewrite M in D.
      destruct seen; [exact D|destruct D; discriminate].
    + cbv zeta. set (h1 := with_mainHand _ h).
      destruct (setupInputs_inv h1) as (E1 & _).
      unfold setupAmmoUI. rewrite U.
      destruct (negb isVR || negb (is2Handed grabProps)); cbn; rewrite ?E1; reflexivity.
  - cbn [grabTouches handle snd]. rewrite orb_false_r. unfold onMultiGrabStart.
    destruct (is2Handed grabProps); [|exact D].
    destruct (setupInputs_inv h) as (E1 & E2 & _). apply Same; assumption.
  - cbn [grabTouches handle]. rewrite orb_false_r. unfold onMultiGrabEnd.
    destruct (is2Handed grabProps); [|exact D].
    cbv zeta. cbn [snd]. apply Same; reflexivity.
  - destruct (Input_eq_GrabEnd i) as [->|N].
    + cbn [grabTouches handle snd]. rewrite orb_true_r.
      unfold onGrabEndHold, held. cbv zeta. rewrite U. reflexivity.
    + rewrite callback_keeps_hold by exact N.
      assert (T : grabTouches (Callback i) = false)
        by (destruct i; try reflexivity; congruence).
      rewrite T, orb_false_r. exact D.
Qed.

Lemma display_play (v0 : bool) (events : list Event) :
  ammoUI grabProps = true ->
  forall (seen : bool) (w : Gun * Hold),
  (if seen then ammoUIVisible (snd w) = held (snd w)
   else ammoUIVisible (snd w) = v0 /\ held (snd w) = false) ->
  if seen || existsb grabTouches events
  then ammoUIVisible (snd (play events w)) = held (snd (play events w))
  else ammoUIVisible (snd (play events w)) = v0 /\
       held (snd (play events w)) = false.
Proof.
  intros U. induction events as [|e l IH]; intros seen w D.
  - cbn [existsb play fold_left]. rewrite orb_false_r. exact D.
  - cbn [existsb play fold_left]. change (fold_left _ l ?x) with (play l x).
    rewrite orb_assoc. apply IH. destruct w as [g h]. apply display_step; assumption.
Qed.

(** X14.  Whatever the hands do and whatever else happens, in any order:
    the reload input is never connected on a weapon with unlimited
    ammunition; the attack and the reload input are never bound to the same
    action; on a one-handed weapon the attack input is connected exactly
    while the weapon is held, and the reload input exactly while it is held
    and ammunition is limited.  The ammo display, where there is one, of a
    weapon that starts out not held is left as the world shows it until the
    first grab start or grab end, and from then on is visible exactly while
    the weapon is held. *)
Theorem inputs_follow_the_hands (events : list Event) (g : Gun) (h : Hold) :
  hold_inv h ->
  let h' := snd (play events (g, h)) in
  (liveInput (reloadInput h') = true -> hasUnlimitedAmmo = false) /\
  (forall a r, attackInput h' = Some a -> reloadInput h' = Some r ->
     action a <> action r) /\
  (is2Handed grabProps = false ->
     liveInput (attackInput h') = held h' /\
     liveInput (reloadInput h') = held h' && negb hasUnlimitedAmmo) /\
  (ammoUI grabProps = true -> mainHand h = None ->
     if existsb grabTouches events
     then ammoUIVisible h' = held h'
     else ammoUIVisible h' = ammoUIVisible h /\ held h' = false).
Proof.
  intros HI h'.
  destruct (play_inv events (g, h) HI) as (H1 & H2 & H3). fold h' in H1, H2, H3.
  split; [|split; [|split]].
  - unfold liveInput. destruct (reloadInput h') as [p|]; [|discriminate].
    intros _. apply (H1 p eq_refl).
  - intros a r Ea Er. destruct (H1 r Er) as [_ [x Hx]]. destruct (H2 a Ea) as [y Hy].
    rewrite Hx, Hy. apply actions_apart.
  - intros T. destruct (H3 T) as [A R]. unfold held. rewrite A, R.
    destruct (mainHand h'); auto.
  - intros U M.
    apply (display_play (ammoUIVisible h) events U false (g, h)).
    cbn [snd]. unfold held. rewrite M. auto.
Qed.

Lemma gated_presses (events : list Event) (g : Gun) (h : Hold) :
  liveInput (attackInput h) = false -> liveInput (reloadInput h) = false ->
  forallb isPress events = true -> play events (g, h) = (g, h).
Proof.
  intros A R. induction events as [|e l IH]; intros H; [reflexivity|].
  cbn in H. apply andb_prop in H as [He Hl].
  cbn [play fold_left]. change (fold_left _ l ?x) with (play l x).
  assert (E : handle e (g, h) = (g, h)).
  { destruct e as [| | |i]; try discriminate He.
    destruct i; try discriminate He; cbn [handle]; rewrite ?A, ?R; reflexivity. }
  rewrite E. apply IH, Hl.
Qed.

(** X15.  A two-handed weapon in VR.  Whichever hand grabs it first, the
    main hand is the one [rightHandIs2HMain] names, and with one hand on the
    weapon no input is connected: presses of attack and reload do nothing.
    The second hand connects the inputs, the attack input to the trigger of
    the main hand; when the second hand lets go, both inputs are
    disconnected again and the reload, burst and auto-attack timers are
    cleared, ammunition and main hand staying as they were. *)
Theorem two_handed_vr_needs_both_hands (isRightHand : bool) (g : Gun) (h : Hold)
    (presses : list Event) :
  device = VR -> is2Handed grabProps = true -> mainHand h = None ->
  liveInput (attackInput h) = false -> liveInput (reloadInput h) = false ->
  forallb isPress presses = true ->
  let w1 := handle (OnGrabStart isRightHand) (g, h) in
  let w2 := handle OnMultiGrabStart w1 in
  let w3 := handle OnMultiGrabEnd w2 in
  mainHand (snd w1) =
    Some (if rightHandIs2HMain grabProps then RightHand else LeftHand) /\
  play presses w1 = w1 /\
  attackInput (snd w2) =
    Some {| action := if rightHandIs2HMain grabProps then RightTrigger else LeftTrigger;
            connected := true |} /\
  liveInput (reloadInput (snd w2)) = negb hasUnlimitedAmmo /\
  liveInput (attackInput (snd w3)) = false /\
  liveInput (reloadInput (snd w3)) = false /\
  play presses w3 = w3 /\
  mainHand (snd w3) = mainHand (snd w1) /\
  reloadTimer (fst w3) = None /\ bulletBurstTimer (fst w3) = None /\
  autoAttackTimer (fst w3) = None /\ ammo (fst w3) = ammo g.
Proof.
  intros D T M A R P w1 w2 w3.
  assert (V : isVR = true) by (unfold isVR; rewrite D; reflexivity).
  assert (E1 : w1 = (g, with_grantAmmo (true :: grantAmmo (setupAmmoUI g
                  (with_mainHand (Some (if rightHandIs2HMain grabProps
                                        then RightHand else LeftHand)) h)))
                 (setupAmmoUI g (with_mainHand (Some (if rightHandIs2HMain grabProps
                                        then RightHand else LeftHand)) h)))).
  { unfold w1. cbn [handle]. unfold onGrabStart, onGrabInitial.
    rewrite M, T, V. reflexivity. }
  set (h0 := with_mainHand _ h) in E1.
  assert (U : mainHand (setupAmmoUI g h0) = mainHand h0 /\
              attackInput (setupAmmoUI g h0) = attackInput h /\
              reloadInput (setupAmmoUI g h0) = reloadInput h)
    by (unfold setupAmmoUI; destruct (ammoUI grabProps); auto).
  destruct U as (U1 & U2 & U3).
  set (h1 := with_grantAmmo _ (setupAmmoUI g h0)) in E1.
  assert (K1 : mainHand h1 = mainHand h0 /\ attackInput h1 = attackInput h /\
               reloadInput h1 = reloadInput h) by (unfold h1; cbn; auto).
  destruct K1 as (K1 & K2 & K3).
  assert (E2 : w2 = (g, setupReloadInput (setupAttackInput h1)))
    by (unfold w2; rewrite E1; cbn [handle]; unfold onMultiGrabStart; rewrite T; reflexivity).
  destruct (setupInputs_inv h1) as (S1 & _ & _ & _ & S5 & S6 & _ & _).
  set (h2 := setupReloadInput (setupAttackInput h1)) in *.
  assert (E3 : w3 = (resetAutoAttack (resetBurst (resetReload g)),
                     with_reloadInput (disconnect (reloadInput (with_attackInput (disconnect (attackInput h2)) h2)))
                       (with_attackInput (disconnect (attackInput h2)) h2)))
    by (unfold w3; rewrite E2; cbn [handle]; unfold onMultiGrabEnd; rewrite T; reflexivity).
  set (h3 := with_reloadInput _ _) in E3.
  assert (L3 : liveInput (attackInput h3) = false /\ liveInput (reloadInput h3) = false /\
               mainHand h3 = mainHand h2).
  { unfold h3. cbn. destruct (attackInput h2), (reloadInput h2); auto. }
  destruct L3 as (L1 & L2 & L3).
  destruct (onGrabEnd_effect g) as (G1 & G2 & G3 & _ & G5).
  unfold onGrabEnd in G1, G2, G3, G5.
  destruct (tailView_inv _ _ G5) as (G6 & _).
  rewrite E1, E3, E2. cbn [fst snd].
  repeat split; try assumption; try congruence.
  - apply gated_presses; congruence.
  - rewrite S5. unfold mainHandIsRight. rewrite K1. unfold h0. cbn.
    unfold getAttackInputAction. rewrite D.
    destruct (rightHandIs2HMain grabProps); reflexivity.
  - apply gated_presses; assumption.
Qed.

Lemma handsOff_step (e : Event) (g : Gun) (h : Hold) :
  handsOff e = true ->
  liveInput (attackInput h) = false -> liveInput (reloadInput h) = false ->
  snd (handle e (g, h)) = h /\
  (fst (handle e (g, h)) = g \/
   exists i, timerInput i = true /\ fst (handle e (g, h)) = step i g).
Proof.
  intros He A R. destruct e as [| | |i]; try discriminate He.
  destruct i; try discriminate He; cbn [handle]; rewrite ?A, ?R; cbn [fst snd];
    (split; [reflexivity|]); auto;
    right; eexists; (split; [|reflexivity]); reflexivity.
Qed.

Lemma handsOff_play (events : list Event) :
  forall g h, forallb handsOff events = true ->
  liveInput (attackInput h) = false -> liveInput (reloadInput h) = false ->
  quiet g -> reloadTimer g = None ->
  snd (play events (g, h)) = h /\
  tally (fst (play events (g, h))) = tally g /\
  ammo (fst (play events (g, h))) = ammo g.
Proof.
  induction events as [|e l IH]; intros g h H A R Q T; [auto|].
  cbn in H. apply andb_prop in H as [He Hl].
  cbn [play fold_left]. change (fold_left _ l ?x) with (play l x).
  destruct (handsOff_step e g h He A R) as [Eh Eg].
  destruct (handle e (g, h)) as [g1 h1]. cbn [fst snd] in Eh, Eg. subst h1.
  destruct Eg as [->|(i & Hi & ->)]; [apply IH; assumption|].
  destruct (quiet_step i g Hi Q) as (Q1 & T1 & _ & K).
  destruct (K T) as [A1 R1].
  destruct (IH (step i g) h Hl A R Q1 R1) as (X1 & X2 & X3).
  repeat split; congruence.
Qed.

(** X16.  A weapon that has been let go cannot be fired.  After
    [onGrabEnd], with no fire delay pending at that moment, whatever presses
    of attack and reload arrive and whatever timers elapse, in any order, no
    shot is fired and ammunition stays as it was; both inputs are
    disconnected and stay so. *)
Theorem dropped_weapon_is_inert (events : list Event) (g : Gun) (h : Hold) :
  forallb handsOff events = true -> fireDelay g = None ->
  let w1 := handle (Callback GrabEnd) (g, h) in
  let w' := play events w1 in
  snd w' = snd w1 /\ mainHand (snd w') = None /\
  liveInput (attackInput (snd w')) = false /\
  liveInput (reloadInput (snd w')) = false /\
  shots (fst w') = shots g /\ ammo (fst w') = ammo g.
Proof.
  intros H F w1 w'.
  assert (E1 : w1 = (onGrabEnd g, onGrabEndHold h)) by reflexivity.
  destruct (onGrabEnd_effect g) as (G1 & G2 & G3 & _ & G5).
  destruct (tailView_inv _ _ G5) as (GA & _ & _ & GF & GT).
  assert (L : liveInput (attackInput (onGrabEndHold h)) = false /\
              liveInput (reloadInput (onGrabEndHold h)) = false /\
              mainHand (onGrabEndHold h) = None).
  { unfold onGrabEndHold. cbv zeta. destruct (ammoUI grabProps); cbn;
      destruct (attackInput h), (reloadInput h); auto. }
  destruct L as (L1 & L2 & L3).
  assert (Q : quiet (onGrabEnd g)) by (unfold quiet; repeat split; congruence).
  destruct (handsOff_play events (onGrabEnd g) (onGrabEndHold h) H L1 L2 Q G1)
    as (X1 & X2 & X3).
  unfold w'. rewrite E1. cbn [snd]. rewrite X1.
  repeat split; try assumption; try congruence.
  unfold shots. congruence.
Qed.

Lemma liveGrants_cons (c : bool) (v : list bool) (h : Hold) :
  liveGrants (with_grantAmmo (c :: v) h) =
  (if c then S (length (filter (fun c : bool => c) v))
   else length (filter (fun c : bool => c) v)).
Proof. unfold liveGrants. cbn. destruct c; reflexivity. Qed.

Lemma onGrabInitial_grants (b : bool) (g : Gun) (h : Hold) :
  grantAmmo (onGrabInitial b g h) = grantAmmo h /\
  held (onGrabInitial b g h) = true /\
  (held h = true -> onGrabInitial b g h = h).
Proof.
  unfold onGrabInitial, held. destruct (mainHand h) eqn:M.
  - rewrite M. auto.
  - cbv zeta. set (h1 := with_mainHand _ h).
    assert (K : forall x, grantAmmo x = grantAmmo h -> mainHand x = mainHand h1 ->
                grantAmmo (setupAmmoUI g x) = grantAmmo h /\
                match mainHand (setupAmmoUI g x) with Some _ => true | None => false end = true).
    { intros x G Mx. unfold setupAmmoUI. destruct (ammoUI grabProps); cbn; rewrite Mx; auto. }
    destruct (setupInputs_inv h1) as (S1 & _ & _ & S4 & _).
    split; [|split; [|discriminate]];
      destruct (negb isVR || negb (is2Handed grabProps));
      apply K; try reflexivity; try assumption.
Qed.

Lemma grant_step (e : Event) (g : Gun) (h : Hold) :
  grant_inv h ->
  match e with OnGrabStart _ => held h = false | _ => True end ->
  grant_inv (snd (handle e (g, h))) /\
  held (snd (handle e (g, h))) =
    match e with
    | OnGrabStart _ => true
    | Callback GrabEnd => false
    | _ => held h
    end.
Proof.
  intros [N Hd] C. destruct e as [b| | |i].
  - cbn [handle snd]. unfold onGrabStart. cbv zeta.
    destruct (onGrabInitial_grants b g h) as (G & Hh & _).
    set (h1 := onGrabInitial b g h) in *.
    assert (Hh' : held (with_grantAmmo (true :: grantAmmo h1) h1) = true) by exact Hh.
    split; [|exact Hh'].
    split; [|intros _; eexists; reflexivity].
    rewrite Hh', liveGrants_cons, G. unfold liveGrants in N. rewrite N, C. reflexivity.
  - cbn [handle snd]. unfold onMultiGrabStart.
    destruct (is2Handed grabProps); [|split; [split; assumption|reflexivity]].
    destruct (setupInputs_inv h) as (S1 & _ & _ & S4 & _).
    unfold grant_inv, held, liveGrants in *. rewrite S1, S4. auto.
  - cbn [handle]. unfold onMultiGrabEnd.
    destruct (is2Handed grabProps); split; try split; try assumption; reflexivity.
  - destruct (Input_eq_GrabEnd i) as [->|NE].
    + cbn [handle snd].
      assert (E : held (onGrabEndHold h) = false /\
                  grantAmmo (onGrabEndHold h) = disconnectGrant (grantAmmo h))
        by (unfold onGrabEndHold, held; cbv zeta; destruct (ammoUI grabProps); cbn; auto).
      destruct E as [E1 E2].
      split; [|exact E1]. split; [|rewrite E1; discriminate].
      rewrite E1. unfold liveGrants in *. rewrite E2.
      destruct (held h) eqn:Hh.
      * destruct (Hd eq_refl) as [rest Er]. rewrite Er in *. cbn in *. lia.
      * destruct (grantAmmo h) as [|c rest]; [reflexivity|].
        cbn in *. destruct c; cbn in *; [discriminate|exact N].
    + rewrite (callback_keeps_hold i g h NE).
      split; [split; assumption|]. destruct i; try reflexivity. congruence.
Qed.

Lemma grant_play (events : list Event) :
  forall g h, grant_inv h -> oneHandAtATime (held h) events = true ->
  grant_inv (snd (play events (g, h))).
Proof.
  induction events as [|e l IH]; intros g h I W; [exact I|].
  cbn [play fold_left]. change (fold_left _ l ?x) with (play l x).
  assert (C : match e with OnGrabStart _ => held h = false | _ => True end).
  { destruct e; try exact Logic.I. cbn in W. destruct (held h); [discriminate|reflexivity]. }
  destruct (grant_step e g h I C) as [I1 H1].
  destruct (handle e (g, h)) as [g1 h1]. cbn [snd] in I1, H1.
  apply IH; [exact I1|]. rewrite H1.
  destruct e as [b| | |i]; cbn in W.
  - apply andb_prop in W. apply W.
  - exact W.
  - exact W.
  - destruct i; exact W.
Qed.

(** X17.  Ammunition grants and the hand.  As long as no grab starts while
    the weapon is already held, exactly one [grantAmmo] subscription is
    connected while the weapon is held and none when it is not: a grant then
    reaches the weapon once when held and not at all otherwise.  A grab
    start while the weapon is held (the second hand of a multi-grab)
    subscribes once more without disconnecting: two subscriptions are then
    connected, and the grab end that follows disconnects only one of
    them. *)
Theorem grants_reach_a_held_weapon (events : list Event) (amount : Z)
    (isRightHand : bool) (g : Gun) (h : Hold) :
  grant_inv h -> oneHandAtATime (held h) events = true ->
  let w' := play events (g, h) in
  liveGrants (snd w') = (if held (snd w') then 1%nat else 0%nat) /\
  fst (handle (Callback (GrantAmmo amount)) w') =
    (if held (snd w') then step (GrantAmmo amount) (fst w') else fst w') /\
  (held (snd w') = true ->
   liveGrants (snd (handle (OnGrabStart isRightHand) w')) = 2%nat /\
   liveGrants (snd (play [OnGrabStart isRightHand; Callback GrabEnd] w')) = 1%nat /\
   held (snd (play [OnGrabStart isRightHand; Callback GrabEnd] w')) = false).
Proof.
  intros I W w'.
  destruct (grant_play events g h I W) as [N Hd]. fold w' in N, Hd.
  destruct w' as [g' h']. cbn [fst snd] in *.
  split; [exact N|]. split.
  - cbn [handle fst]. rewrite N. destruct (held h'); reflexivity.
  - intros Hh. destruct (onGrabInitial_grants isRightHand g' h') as (_ & _ & K).
    specialize (K Hh).
    cbn [play fold_left handle snd]. unfold onGrabStart. cbv zeta. rewrite K.
    rewrite liveGrants_cons. unfold liveGrants in N. rewrite N, Hh.
    split; [reflexivity|].
    unfold onGrabEndHold, held, liveGrants. cbv zeta.
    destruct (ammoUI grabProps); cbn; fold (liveGrants h'); unfold liveGrants;
      rewrite N, Hh; auto.
Qed.

(** ** Spawning and despawning the effects *)

Lemma hasSpawnedAsset_spawn (a b : Asset) (c : Z) (roots : nat -> list Entity)
    (sa : SpawnedAssets) :
  hasSpawnedAsset a (snd (spawnAsset b c roots sa)) =
  hasSpawnedAsset a sa || (b =? a)%nat.
Proof.
  unfold hasSpawnedAsset, spawnAsset. cbn [snd spawners].
  rewrite existsb_app. f_equal.
  assert (N : exists n, Z.to_nat (Z.max 1 c) = S n)
    by (exists (Nat.pred (Z.to_nat (Z.max 1 c))); lia).
  destruct N as [n ->]. generalize 0%nat.
  induction n as [|n IH]; intros k.
  - cbn. apply orb_false_r.
  - change (seq k (S (S n))) with (k :: seq (S k) (S n)).
    cbn [map existsb asset]. rewrite IH. apply orb_diag.
Qed.

Lemma spawnAsset_one (a : Asset) (roots : nat -> list Entity) (sa : SpawnedAssets) :
  spawnAsset a 1 roots sa =
  ([roots 0%nat],
   {| spawners := spawners sa ++ [{| asset := a; rootEntities := roots 0%nat |}] |}).
Proof. reflexivity. Qed.

(** X18.  [authSpawnFX] spawns each configured asset once.  On the server,
    with an asset spawner set that carries a [SpawnedAssets] component, every
    configured asset has a spawner afterwards, at most two spawners are
    added, and a second call adds none and starts no spawn.  Off the server,
    and when the asset spawner entity carries no such component, nothing is
    spawned.  A spawn of any [count], zero and negative included, leaves the
    asset spawned. *)
Theorem auth_spawn_is_idempotent (ir mr ir' mr' : list Entity) (sa : SpawnedAssets)
    (a : Asset) (count : Z) (roots : nat -> list Entity) :
  assetSpawner props = true ->
  exists sa1,
    snd (authSpawnFX true ir mr (Some sa)) = Some sa1 /\
    (forall i, impactFXAsset fxProps = Some i -> hasSpawnedAsset i sa1 = true) /\
    (forall m, missFXAsset fxProps = Some m -> hasSpawnedAsset m sa1 = true) /\
    (forall b, hasSpawnedAsset b sa = true -> hasSpawnedAsset b sa1 = true) /\
    authSpawnFX true ir' mr' (Some sa1) = (None, None, Some sa1) /\
    (length (spawners sa1) <= length (spawners sa) + 2)%nat /\
    authSpawnFX false ir mr (Some sa) = (None, None, Some sa) /\
    authSpawnFX true ir mr None = (None, None, None) /\
    hasSpawnedAsset a (snd (spawnAsset a count roots sa)) = true.
Proof.
  intros HS.
  assert (Last : hasSpawnedAsset a (snd (spawnAsset a count roots sa)) = true)
    by (rewrite hasSpawnedAsset_spawn, Nat.eqb_refl; apply orb_true_r).
  assert (Off : authSpawnFX false ir mr (Some sa) = (None, None, Some sa))
    by reflexivity.
  assert (G : forall x y r s, hasSpawnedAsset x
                {| spawners := spawners s ++ [{| asset := y; rootEntities := r |}] |} =
              hasSpawnedAsset x s || (y =? x)%nat).
  { intros. unfold hasSpawnedAsset. cbn [spawners]. rewrite existsb_app. cbn.
    rewrite orb_false_r. reflexivity. }
  unfold authSpawnFX. rewrite HS. cbn [negb].
  destruct (impactFXAsset fxProps) as [i|] eqn:EI;
    destruct (missFXAsset fxProps) as [m|] eqn:EM;
    try destruct (hasSpawnedAsset i sa) eqn:HI;
    try destruct (hasSpawnedAsset m sa) eqn:HM;
    cbn [negb snd fst]; rewrite ?spawnAsset_one; cbn [snd fst];
    eexists; (split; [reflexivity|]);
    (split; [intros x E; try discriminate E; injection E as <-;
             rewrite ?G, ?HI, ?HM, ?Nat.eqb_refl, ?orb_true_r; reflexivity|]);
    (split; [intros x E; try discriminate E; injection E as <-;
             rewrite ?G, ?HI, ?HM, ?Nat.eqb_refl, ?orb_true_r; reflexivity|]);
    (split; [intros b Hb; rewrite ?G, ?Hb; reflexivity|]);
    (split; [rewrite ?G, ?HI, ?HM, ?Nat.eqb_refl, ?orb_true_r; cbn [negb orb];
             reflexivity|]);
    (split; [cbn [spawners]; rewrite ?length_app; cbn; lia|]);
    (split; [exact Off|split; [reflexivity|exact Last]]).
Qed.

Lemma createFXList_one (isParticle : Entity -> bool) (roots : list Entity) :
  createFXList isParticle [roots] =
  match filter isParticle roots with
  | [] => []
  | _ :: _ => [{| fx := filter isParticle roots |}]
  end.
Proof.
  unfold createFXList. cbn [map filter fx].
  destruct (filter isParticle roots); reflexivity.
Qed.

Lemma createFXList_groups (isParticle : Entity -> bool) (l : list (list Entity)) :
  (forall group, In group (createFXList isParticle l) -> fx group <> []) /\
  allFX (createFXList isParticle l) = filter isParticle (concat l) /\
  (length (createFXList isParticle l) <= length l)%nat.
Proof.
  unfold createFXList. split; [|split].
  - intros group H. apply filter_In in H as [_ H].
    destruct (fx group); [discriminate|discriminate].
  - induction l as [|x l IH]; [reflexivity|].
    cbn [map filter fx concat]. rewrite filter_app, <- IH.
    destruct (filter isParticle x) eqn:E; cbn; reflexivity.
  - rewrite <- (length_map (fun entities => {| fx := filter isParticle entities |}) l).
    apply filter_length_le.
Qed.

(** X19.  What [authSpawnFX] puts into the pools.  [createFXList] keeps the
    particle gizmos of each spawn in order and drops spawns without any.
    Each asset is spawned with [count = 1], so when the spawn of the impact
    asset resolves the impact pool becomes one single group, holding the
    particle gizmos among the root entities -- on the direct path and on the
    [syncImpactFX] path alike -- and stays as it was when there is no particle
    gizmo among them; likewise for the miss pool.  Ammunition and timers are
    not touched. *)
Theorem spawned_pool_is_one_group (isParticle : Entity -> bool)
    (ownedByServer : bool) (ir mr : list Entity)
    (component : option SpawnedAssets) (g : Gun) (l : list (list Entity)) :
  (forall group, In group (createFXList isParticle l) -> fx group <> []) /\
  allFX (createFXList isParticle l) = filter isParticle (concat l) /\
  (forall si, fst (fst (authSpawnFX true ir mr component)) = Some si ->
     let g' := onImpactsSpawned isParticle ownedByServer si g in
     impactFX g' = match filter isParticle ir with
                   | [] => impactFX g
                   | _ :: _ => [{| fx := filter isParticle ir |}]
                   end /\
     missFX g' = missFX g /\ firing g' = firing g) /\
  (forall sm, snd (fst (authSpawnFX true ir mr component)) = Some sm ->
     let g' := onMissSpawned isParticle ownedByServer sm g in
     missFX g' = match filter isParticle mr with
                 | [] => missFX g
                 | _ :: _ => [{| fx := filter isParticle mr |}]
                 end /\
     impactFX g' = impactFX g /\ firing g' = firing g).
Proof.
  destruct (createFXList_groups isParticle l) as (C1 & C2 & _).
  split; [exact C1|]. split; [exact C2|].
  assert (F : forall x y, firing (stopFX x y) = firing y /\ pools (stopFX x y) = pools y).
  { intros. unfold stopFX. rewrite firing_emitAll, pools_emitAll. auto. }
  split.
  - intros si E. 
    assert (S : si = [ir]).
    { unfold authSpawnFX in E. cbn [negb] in E.
      destruct (assetSpawner props); cbn [negb] in E; [|discriminate].
      destruct component as [sa|]; [|discriminate].
      destruct (impactFXAsset fxProps); [|destruct (missFXAsset fxProps);
        try destruct (negb _); cbn in E; discriminate].
      destruct (negb _); [|destruct (missFXAsset fxProps);
        try destruct (negb _); cbn in E; discriminate].
      rewrite spawnAsset_one in E.
      destruct (missFXAsset fxProps); try destruct (negb _); cbn in E; congruence. }
    subst si. cbv zeta. unfold onImpactsSpawned, onSyncImpactFX, syncFX. cbv zeta.
    rewrite createFXList_one.
    destruct (filter isParticle ir) as [|e rest]; cbn [length Z.of_nat Z.ltb Z.compare];
      [auto|].
    change (0 <? Z.of_nat 1) with true. cbv iota.
    destruct ownedByServer;
      destruct (assetSpawner props && _); cbn [with_impactFX impactFX missFX];
      repeat split; try reflexivity;
      try (destruct (F (impactFX g) g) as [F1 F2]; 
           try exact F1; apply (f_equal snd) in F2; exact F2).
  - intros sm E.
    assert (S : sm = [mr]).
    { unfold authSpawnFX in E. cbn [negb] in E.
      destruct (assetSpawner props); cbn [negb] in E; [|discriminate].
      destruct component as [sa|]; [|discriminate].
      destruct (missFXAsset fxProps);
        [|destruct (impactFXAsset fxProps); try destruct (negb _);
          rewrite ?spawnAsset_one in E; cbn in E; discriminate].
      destruct (negb (hasSpawnedAsset a sa));
        [|destruct (impactFXAsset fxProps); try destruct (negb _);
          rewrite ?spawnAsset_one in E; cbn in E; discriminate].
      destruct (impactFXAsset fxProps); try destruct (negb _);
        rewrite ?spawnAsset_one in E; cbn in E; congruence. }
    subst sm. cbv zeta. unfold onMissSpawned, onSyncMissFX, syncFX. cbv zeta.
    rewrite createFXList_one.
    destruct (filter isParticle mr) as [|e rest]; cbn [length Z.of_nat Z.ltb Z.compare];
      [auto|].
    change (0 <? Z.of_nat 1) with true. cbv iota.
    destruct ownedByServer;
      destruct (assetSpawner props && _); cbn [with_missFX impactFX missFX];
      repeat split; try reflexivity;
      try (destruct (F (missFX g) g) as [F1 F2]; 
           try exact F1; apply (f_equal fst) in F2; exact F2).
Qed.

Lemma ownsRoot_In (e : Entity) (s : SpawnController) :
  ownsRoot e s = true <-> In e (rootEntities s).
Proof. apply existsb_eqb_In. Qed.

Lemma removeOwner_filter (e : Entity) (l : list SpawnController) :
  NoDup (flat_map rootEntities l) ->
  removeOwner e l = filter (fun s => negb (ownsRoot e s)) l.
Proof.
  induction l as [|s rest IH]; intros ND; [reflexivity|].
  cbn [flat_map] in ND. cbn [removeOwner filter].
  assert (NDr : NoDup (flat_map rootEntities rest)) by (apply NoDup_app_remove_l in ND; exact ND).
  destruct (ownsRoot e s) eqn:O; cbn [negb].
  - symmetry. apply ownsRoot_In in O.
    assert (K : forall x, In x rest -> negb (ownsRoot e x) = true).
    { intros x Hx. destruct (ownsRoot e x) eqn:Ox; [|reflexivity].
      apply ownsRoot_In in Ox. exfalso.
      assert (Hin : In e (flat_map rootEntities rest))
        by (apply in_flat_map; exists x; auto).
      clear IH NDr. induction (rootEntities s) as [|y ys IHy]; [destruct O|].
      cbn in ND. inversion ND as [|? ? Hn Hd]; subst.
      destruct O as [->|O]; [apply Hn, in_or_app; auto|apply IHy; assumption]. }
    clear -K. induction rest as [|x r IHr]; [reflexivity|].
    cbn. rewrite (K x (or_introl eq_refl)). f_equal. apply IHr.
    intros y Hy. apply K. right. exact Hy.
  - f_equal. apply IH, NDr.
Qed.

Lemma NoDup_flat_map_filter {A B} (f : A -> list B) (p : A -> bool) (l : list A) :
  NoDup (flat_map f l) -> NoDup (flat_map f (filter p l)).
Proof.
  induction l as [|x l IH]; intros ND; [exact ND|].
  cbn [flat_map] in ND. cbn [filter].
  assert (NDr : NoDup (flat_map f l)) by (apply NoDup_app_remove_l in ND; exact ND).
  destruct (p x); [|apply IH, NDr].
  cbn [flat_map]. revert ND. generalize (f x) as ys.
  induction ys as [|y ys IHy]; intros ND; [apply IH, NDr|].
  cbn in *. inversion ND as [|? ? Hn Hd]; subst.
  constructor; [|apply IHy, Hd].
  intros Hin. apply Hn. apply in_app_or in Hin as [Hin|Hin]; apply in_or_app; [auto|right].
  apply in_flat_map in Hin as (z & Hz & Hy). apply filter_In in Hz as [Hz _].
  apply in_flat_map. exists z. auto.
Qed.

Lemma onDespawnAssets_filter (l : list Entity) :
  forall sa, distinctRoots sa ->
  spawners (onDespawnAssets l sa) =
    filter (fun s => negb (existsb (fun e => ownsRoot e s) l)) (spawners sa) /\
  distinctRoots (onDespawnAssets l sa).
Proof.
  induction l as [|e l IH]; intros sa ND.
  - cbn. split; [|exact ND].
    induction (spawners sa) as [|s r IHr]; [reflexivity|cbn; f_equal; exact IHr].
  - cbn [onDespawnAssets fold_left].
    change (fold_left _ l ?x) with (onDespawnAssets l x).
    assert (E : spawners (despawnAsset e sa) =
                filter (fun s => negb (ownsRoot e s)) (spawners sa))
      by (apply removeOwner_filter, ND).
    assert (ND1 : distinctRoots (despawnAsset e sa)).
    { unfold distinctRoots. rewrite E. apply NoDup_flat_map_filter, ND. }
    destruct (IH _ ND1) as [E2 ND2]. split; [|exact ND2].
    rewrite E2, E. clear. induction (spawners sa) as [|s r IHr]; [reflexivity|].
    cbn [filter existsb]. destruct (ownsRoot e s); cbn [negb orb filter].
    + exact IHr.
    + destruct (existsb _ l); cbn [negb]; [exact IHr|f_equal; exact IHr].
Qed.

(** X20.  Despawning.  With no entity a root of two spawners, the
    [despawnAssets] handler disposes of exactly the spawners that own one of
    the entities it is sent and keeps the others in order.  So after a
    pool synchronisation of the weapon has been handled, the spawners that
    remain are those none of whose roots is a handle of the old pool missing
    from the new one.  [despawnAll] leaves no spawner. *)
Theorem despawn_removes_owning_spawners (l : list Entity)
    (spawned existing : list FXList) (sa : SpawnedAssets) :
  distinctRoots sa ->
  spawners (onDespawnAssets l sa) =
    filter (fun s => negb (existsb (fun e => ownsRoot e s) l)) (spawners sa) /\
  distinctRoots (onDespawnAssets l sa) /\
  (forall s, In s (spawners (onDespawnAssets (fxToDespawn spawned existing) sa)) <->
     In s (spawners sa) /\
     forall e, In e (rootEntities s) -> In e (allFX existing) -> In e (allFX spawned)) /\
  spawners (despawnAll sa) = [] /\
  (forall a, hasSpawnedAsset a (despawnAll sa) = false).
Proof.
  intros ND. destruct (onDespawnAssets_filter l sa ND) as [E D].
  split; [exact E|]. split; [exact D|]. split; [|split; reflexivity].
  intros s. destruct (onDespawnAssets_filter (fxToDespawn spawned existing) sa ND) as [E' _].
  rewrite E', filter_In, negb_true_iff. split.
  - intros [Hs Hn]. split; [exact Hs|]. intros e He Hex.
    destruct (in_dec Nat.eq_dec e (allFX spawned)) as [Hin|Hout]; [exact Hin|].
    exfalso. assert (X : existsb (fun e => ownsRoot e s) (fxToDespawn spawned existing) = true).
    { apply existsb_exists. exists e. split; [apply fxToDespawn_In; auto|].
      apply ownsRoot_In, He. }
    congruence.
  - intros [Hs Hk]. split; [exact Hs|].
    destruct (existsb _ _) eqn:X; [|reflexivity]. exfalso.
    apply existsb_exists in X as (e & He & Ho).
    apply fxToDespawn_In in He as [H1 H2]. apply ownsRoot_In in Ho. auto.
Qed.

(** ** Damage is dealt once per hit *)

Lemma grows_refl (P : list Effect -> Prop) (g : Gun) : P [] -> grows P g g.
Proof. intros H. exists []. auto. Qed.

Lemma grows_trans (P Q R : list Effect -> Prop) (a b c : Gun) :
  (forall x y, P x -> Q y -> R (y ++ x)) ->
  grows P a b -> grows Q b c -> grows R a c.
Proof.
  intros H (n1 & L1 & H1) (n2 & L2 & H2). exists (n2 ++ n1).
  split; [rewrite L2, L1; apply app_assoc|auto].
Qed.

Lemma grows_weaken (P Q : list Effect -> Prop) (a b : Gun) :
  (forall x, P x -> Q x) -> grows P a b -> grows Q a b.
Proof. intros H (n & L & Hn). exists n. auto. Qed.

Lemma damageOf_app (x y : list Effect) : damageOf (y ++ x) = (damageOf y + damageOf x)%nat.
Proof. unfold damageOf. rewrite filter_app, length_app. reflexivity. Qed.

Lemma firedOf_app (x y : list Effect) : firedOf (y ++ x) = (firedOf y + firedOf x)%nat.
Proof. unfold firedOf. rewrite filter_app, length_app. reflexivity. Qed.

Lemma calm_refl (g : Gun) : calm g g.
Proof. apply grows_refl. reflexivity. Qed.

Lemma calm_trans : transitive calm.
Proof.
  intros a b c. apply grows_trans. intros x y Hx Hy.
  rewrite damageOf_app, Hx, Hy. reflexivity.
Qed.

Lemma calm_same (g g' : Gun) : log g' = log g -> calm g g'.
Proof. intros L. exists []. auto. Qed.

Lemma calm_emit (e : Effect) (g : Gun) : isDamage e = false -> calm g (emit e g).
Proof.
  intros H. exists [e]. split; [reflexivity|].
  unfold damageOf. cbn. rewrite H. reflexivity.
Qed.

Lemma calm_emitAll (es : list Effect) :
  forallb (fun e => negb (isDamage e)) es = true -> forall g, calm g (emitAll es g).
Proof.
  induction es as [|e es IH]; intros H g; [apply calm_refl|].
  cbn in H. apply andb_prop in H as [H1 H2].
  change (emitAll (e :: es) g) with (emitAll es (emit e g)).
  apply (calm_trans g (emit e g)); [|apply IH, H2].
  apply calm_emit. destruct (isDamage e); [discriminate|reflexivity].
Qed.

Lemma calm_stops (l : list ParticleGizmo) (g : Gun) : calm g (emitAll (map FxStop l) g).
Proof. apply calm_emitAll. induction l; [reflexivity|exact IHl]. Qed.

Lemma calm_plays (p : Vec3) (l : list ParticleGizmo) (g : Gun) : calm g (triggerFX p l g).
Proof. apply calm_emitAll. induction l; [reflexivity|exact IHl]. Qed.

Lemma calm_stopFX (l : list FXList) (g : Gun) : calm g (stopFX l g).
Proof. apply calm_stops. Qed.

Lemma calm_set_loadedAmmo (v : Z) (g : Gun) : calm g (set_loadedAmmo v g).
Proof.
  unfold set_loadedAmmo. cbv zeta. destruct (negb _).
  - apply (calm_trans g (with_loadedAmmo (Z.max 0 (Z.min (Z.max 0 (clipSize props)) v)) g));
      [apply calm_same; reflexivity|apply calm_emit; reflexivity].
  - apply calm_same; reflexivity.
Qed.

Lemma calm_set_reserveAmmo (v : Z) (g : Gun) : calm g (set_reserveAmmo v g).
Proof.
  unfold set_reserveAmmo. cbv zeta. destruct (negb _).
  - eapply calm_trans; [|apply calm_emit; reflexivity].
    apply calm_same; reflexivity.
  - apply calm_same; reflexivity.
Qed.

Ltac calm_leaf :=
  cbv zeta;
  repeat match goal with
  | |- calm ?g ?g => apply calm_refl
  | |- calm ?g (emit ?e ?x) =>
      apply (calm_trans g x); [|apply calm_emit; reflexivity]
  | |- calm ?g (set_loadedAmmo ?v ?x) =>
      apply (calm_trans g x); [|apply calm_set_loadedAmmo]
  | |- calm ?g (set_reserveAmmo ?v ?x) =>
      apply (calm_trans g x); [|apply calm_set_reserveAmmo]
  | |- calm ?g (stopFX ?l ?x) =>
      apply (calm_trans g x); [|apply calm_stopFX]
  | |- calm ?g (triggerFX ?p ?l ?x) =>
      apply (calm_trans g x); [|apply calm_plays]
  | |- calm ?g (emitAll (map FxStop ?l) ?x) =>
      apply (calm_trans g x); [|apply calm_stops]
  | |- calm ?g (resetReload ?x) =>
      apply (calm_trans g x);
      [|apply calm_same; unfold resetReload; destruct (reloadTimer x); reflexivity]
  | |- calm ?g (resetBurst ?x) =>
      apply (calm_trans g x);
      [|apply calm_same; unfold resetBurst; cbv zeta;
        destruct (bulletBurstTimer _); reflexivity]
  | |- calm ?g (resetAutoAttack ?x) =>
      apply (calm_trans g x);
      [|apply calm_same; unfold resetAutoAttack;
        destruct (autoAttackTimer x); reflexivity]
  | |- calm ?g (triggerBurst ?x) =>
      apply (calm_trans g x);
      [|apply calm_same; unfold triggerBurst;
        destruct (_ <=? _); try reflexivity;
        destruct (bulletBurstTimer x); try reflexivity;
        destruct (_ <? _); reflexivity]
  | |- calm ?g (triggerAutoAttack ?x) =>
      apply (calm_trans g x);
      [|apply calm_same; unfold triggerAutoAttack;
        destruct (negb _); try reflexivity;
        destruct (autoAttackTimer x); reflexivity]
  | |- calm ?g (with_impactFX _ ?x) =>
      apply (calm_trans g x); [|apply calm_same; reflexivity]
  | |- calm ?g (with_missFX _ ?x) =>
      apply (calm_trans g x); [|apply calm_same; reflexivity]
  | |- calm ?g (with_nextImpactFXIdx _ ?x) =>
      apply (calm_trans g x); [|apply calm_same; reflexivity]
  | |- calm ?g (with_nextMissFXIdx _ ?x) =>
      apply (calm_trans g x); [|apply calm_same; reflexivity]
  | |- calm ?g (with_attackCooldown _ ?x) =>
      apply (calm_trans g x); [|apply calm_same; reflexivity]
  | |- calm ?g (with_attackCooldownTimer _ ?x) =>
      apply (calm_trans g x); [|apply calm_same; reflexivity]
  | |- calm ?g (with_reloadTimer _ ?x) =>
      apply (calm_trans g x); [|apply calm_same; reflexivity]
  | |- calm ?g (with_autoAttackTimer _ ?x) =>
      apply (calm_trans g x); [|apply calm_same; reflexivity]
  | |- calm ?g (with_fireDelay _ ?x) =>
      apply (calm_trans g x); [|apply calm_same; reflexivity]
  | |- calm ?g (with_bulletBurstTimer _ ?x) =>
      apply (calm_trans g x); [|apply calm_same; reflexivity]
  | |- calm ?g (with_currentBurstCount _ ?x) =>
      apply (calm_trans g x); [|apply calm_same; reflexivity]
  | |- calm ?g (if ?b then _ else _) => destruct b
  | |- calm ?g (match ?o with Some _ => _ | None => _ end) => destruct o
  end.

Lemma calm_triggerReload (g : Gun) : calm g (triggerReload g).
Proof. unfold triggerReload. calm_leaf. Qed.

Ltac calm_leaf' :=
  repeat (calm_leaf;
    match goal with
    | |- calm ?g (triggerReload ?x) =>
        apply (calm_trans g x); [|apply calm_triggerReload]
    end); calm_leaf.

Lemma calm_pure :
  (forall a g, calm g (onGrantAmmo a g)) /\
  (forall p g, calm g (onInputReload p g)) /\
  (forall g, calm g (onGrabEnd g)) /\
  (forall g, calm g (onCooldownElapsed g)) /\
  (forall g, calm g (onReloadTimer g)) /\
  (forall l g, calm g (onSyncImpactFX l g)) /\
  (forall l g, calm g (onSyncMissFX l g)) /\
  (forall s g, calm g (receiveOwnership s g)) /\
  (forall g, calm g (snd (transferOwnership g))).
Proof.
  repeat split; intros.
  - unfold onGrantAmmo. calm_leaf'.
  - unfold onInputReload. calm_leaf'.
  - unfold onGrabEnd. calm_leaf'.
  - unfold onCooldownElapsed. calm_leaf'.
  - unfold onReloadTimer. destruct (reloadTimer g) as [[d []]|]; calm_leaf'.
  - unfold onSyncImpactFX, syncFX. cbv zeta. calm_leaf'.
  - unfold onSyncMissFX, syncFX. cbv zeta. calm_leaf'.
  - unfold receiveOwnership. destruct s; calm_leaf'.
  - unfold transferOwnership. cbn [snd]. calm_leaf'.
Qed.

Lemma getFX_calm : preserves calm getImpactFX /\ preserves calm getMissFX.
Proof.
  split; intros g; [unfold getImpactFX|unfold getMissFX];
    (destruct (_ =? 0); [apply calm_refl|]); cbv zeta;
    (destruct (js_index _ _); cbn [stateOf]; calm_leaf).
Qed.

Lemma preserves_bind3 {A B} (R1 R2 R3 : Gun -> Gun -> Prop) (m : M A) (k : A -> M B) :
  preserves R1 m -> (forall a, preserves R2 (k a)) ->
  (forall x y z, R1 x y -> R2 y z -> R3 x z) -> (forall x y, R1 x y -> R3 x y) ->
  preserves R3 (bind m k).
Proof.
  intros Hm Hk HT HW g. unfold bind. specialize (Hm g).
  destruct (m g) as [a g'|g']; cbn in *; [|apply HW, Hm].
  eapply HT; [exact Hm|apply Hk].
Qed.

Lemma calm_hurts (n : nat) (x y z : Gun) : calm x y -> hurts n y z -> hurts n x z.
Proof.
  apply grows_trans. intros a b Ha Hb. rewrite damageOf_app, Ha. lia.
Qed.

Lemma hurts_calm (n : nat) (x y z : Gun) : hurts n x y -> calm y z -> hurts n x z.
Proof.
  apply grows_trans. intros a b Ha Hb. rewrite damageOf_app, Hb. lia.
Qed.

Lemma calm_is_hurts (n : nat) (x y : Gun) : calm x y -> hurts n x y.
Proof. apply grows_weaken. intros a Ha. rewrite Ha. lia. Qed.

Lemma hurts_sendDamageEvent (t : Target) (p : Vec3) (g : Gun) :
  hurts 1 g (sendDamageEvent t p g).
Proof. exists [TakeDamage t (damage props) p]. split; [reflexivity|]. cbn. lia. Qed.

Ltac calm_steps :=
  repeat match goal with
  | |- preserves calm (bind _ _) =>
      apply preserves_bind; [apply calm_trans | | intros ? ]
  | |- preserves calm getImpactFX => apply getFX_calm
  | |- preserves calm getMissFX => apply getFX_calm
  | |- preserves calm (ret _) => apply preserves_ret; intros; apply calm_refl
  | |- preserves calm (exec _) =>
      apply preserves_exec; intros;
      cbv beta delta [fireWithProjectile]; calm_leaf'
  | |- preserves calm (if ?b then _ else _) => destruct b
  | |- preserves calm (match ?x with _ => _ end) => destruct x
  end.

(** [fireWithRaycast] sends at most one damage event. *)
Lemma fireWithRaycast_hurts (r : RaycastOutcome) : preserves (hurts 1) (fireWithRaycast r).
Proof.
  unfold fireWithRaycast. cbv zeta.
  destruct (negb (raycaster props));
    [apply preserves_ret; intros; apply calm_is_hurts, calm_refl|].
  apply (preserves_bind3 calm (hurts 1)).
  - calm_steps.
  - intros _. destruct (hit r) as [h|];
      [destruct (targetType h)|];
      try (apply preserves_ret; intros; apply calm_is_hurts, calm_refl);
      apply preserves_exec; intros; apply hurts_sendDamageEvent.
  - intros x y z. apply calm_hurts.
  - intros x y. apply calm_is_hurts.
Qed.

Lemma bounded_refl (g : Gun) : bounded 0 g g.
Proof. apply grows_refl. cbn. lia. Qed.

Lemma bounded_add (n m : nat) (x y z : Gun) :
  bounded n x y -> bounded m y z -> bounded (n + m) x z.
Proof.
  apply grows_trans. intros a b Ha Hb.
  rewrite damageOf_app, firedOf_app. nia.
Qed.

Lemma bounded_trans : transitive (bounded 0).
Proof. intros a b c H1 H2. exact (bounded_add 0 0 a b c H1 H2). Qed.

Lemma calm_is_bounded (n : nat) (x y : Gun) : calm x y -> bounded n x y.
Proof. apply grows_weaken. intros a Ha. rewrite Ha. lia. Qed.

(** What [finishFiring] does after the shot is logged sends at most the
    damage of one raycast hit, and none without a raycaster. *)
Lemma afterFired_hurts (r : RaycastOutcome) :
  preserves (hurts perShot)
    (exec (fun g => if ammoPerFire props >? 0 then emit ShellFX g else g) ;;
     (if raycaster props then fireWithRaycast r
      else if projectileLauncher props then exec (fireWithProjectile r)
      else ret tt) ;;
     exec (with_attackCooldownTimer (Some (Z.max 10 (attackRate props)))) ;;
     exec (fun g =>
       if loadedAmmo g <? ammoPerFire props
       then resetAutoAttack (resetBurst g)
       else triggerAutoAttack (triggerBurst g)) ;;
     exec (fun g =>
       if autoReload props && (loadedAmmo g =? 0)
       then with_reloadTimer (Some (500, AutoReloadDue)) (resetReload g)
       else g))%gun.
Proof.
  apply (preserves_bind3 calm (hurts perShot)).
  - calm_steps.
  - intros _. apply (preserves_bind3 (hurts perShot) calm).
    + unfold perShot. destruct (raycaster props).
      * apply fireWithRaycast_hurts.
      * intros g. apply calm_is_hurts. revert g.
        change (preserves calm (if projectileLauncher props
                                then exec (fireWithProjectile r) else ret tt)).
        calm_steps.
    + intros _. calm_steps.
    + intros x y z. apply hurts_calm.
    + auto.
  - intros x y z. apply calm_hurts.
  - intros x y. apply calm_is_hurts.
Qed.

Lemma finishFiring_bounded (r : RaycastOutcome) : preserves (bounded 0) (finishFiring r).
Proof.
  intros g.
  destruct (afterFired_hurts r (emit Fired (with_fireDelay None g))) as (new & L & H).
  exists (new ++ [Fired]). split.
  - rewrite <- app_assoc. exact L.
  - rewrite damageOf_app, firedOf_app. cbn.
    change (damageOf new <= perShot)%nat in H. nia.
Qed.

Lemma triggerAttack_bounded (r : RaycastOutcome) : preserves (bounded 0) (triggerAttack r).
Proof.
  intros g. rewrite triggerAttack_unfold.
  destruct (negb (canAttack g));
    [cbn [stateOf]; apply calm_is_bounded; calm_leaf'|].
  destruct (fireDelay g); [apply bounded_refl|].
  assert (D : bounded 0 g (deduct g))
    by (apply calm_is_bounded; unfold deduct; calm_leaf').
  destruct (_ || _).
  - apply (bounded_trans g (deduct g)); [exact D|apply finishFiring_bounded].
  - cbn [stateOf]. apply (bounded_trans g (deduct g)); [exact D|].
    apply calm_is_bounded. calm_leaf'.
Qed.

Lemma onProjHit_bounded (t : Target) (p : Vec3) :
  preserves (bounded 1) (onProjHitPlayer t p) /\
  preserves (bounded 1) (onProjHitEntity t p).
Proof.
  assert (K : forall x y, hurts perHit x y -> bounded 1 x y).
  { intros x y. apply grows_weaken. intros a Ha. cbn beta in *. lia. }
  assert (T : preserves (hurts perHit)
                (if negb (raycaster props) then exec (sendDamageEvent t p) else ret tt)).
  { unfold perHit. destruct (raycaster props); cbn [negb].
    - apply preserves_ret. intros. apply calm_is_hurts, calm_refl.
    - apply preserves_exec. intros. apply hurts_sendDamageEvent. }
  split; intros g; apply K; revert g;
    [unfold onProjHitPlayer|unfold onProjHitEntity];
    (apply (preserves_bind3 calm (hurts perHit));
     [calm_steps
     |intros l; apply (preserves_bind3 calm (hurts perHit));
        [calm_steps|intros _; exact T|intros x y z; apply calm_hurts
        |intros x y; apply calm_is_hurts]
     |intros x y z; apply calm_hurts
     |intros x y; apply calm_is_hurts]).
Qed.

Lemma onProjWorld_calm (p : Vec3) :
  preserves calm (onProjHitWorld p) /\ preserves calm (onProjMiss p).
Proof. split; [unfold onProjHitWorld|unfold onProjMiss]; calm_steps. Qed.

Lemma step_bounded (i : Input) (g : Gun) :
  bounded (if isDamagingHit i then 1 else 0) g (step i g).
Proof.
  destruct calm_pure as (P1 & P2 & P3 & P4 & P5 & P6 & P7 & P8 & P9).
  unfold step. destruct i; cbn [dispatch exec stateOf isDamagingHit];
    try (apply calm_is_bounded; auto; fail).
  - unfold onInputAttack. destruct pressed; cbn [negb].
    + apply triggerAttack_bounded.
    + cbn [exec stateOf]. apply calm_is_bounded. calm_leaf'.
  - unfold onFireDelay. destruct (fireDelay g);
      [apply finishFiring_bounded|apply bounded_refl].
  - unfold onBurstTick. destruct (bulletBurstTimer g); [|apply bounded_refl].
    destruct (_ =? 0); [cbn [stateOf]; apply calm_is_bounded; calm_leaf'|].
    revert g. change (preserves (bounded 0)
      (exec (with_attackCooldown false) ;; triggerAttack r ;;
       exec (fun g => with_currentBurstCount (currentBurstCount g - 1) g))%gun).
    repeat match goal with
    | |- preserves _ (bind _ _) =>
        apply preserves_bind; [apply bounded_trans | | intros ? ]
    | |- preserves _ (triggerAttack _) => apply triggerAttack_bounded
    | |- preserves _ (exec _) =>
        apply preserves_exec; intros; apply calm_is_bounded; calm_leaf'
    end.
  - unfold onAutoAttackTick. destruct (autoAttackTimer g); [|apply bounded_refl].
    revert g. change (preserves (bounded 0)
      (exec (with_attackCooldown false) ;; triggerAttack r)%gun).
    repeat match goal with
    | |- preserves _ (bind _ _) =>
        apply preserves_bind; [apply bounded_trans | | intros ? ]
    | |- preserves _ (triggerAttack _) => apply triggerAttack_bounded
    | |- preserves _ (exec _) =>
        apply preserves_exec; intros; apply calm_is_bounded; calm_leaf'
    end.
  - apply (proj1 (onProjHit_bounded t position)).
  - apply (proj2 (onProjHit_bounded t position)).
  - apply calm_is_bounded. apply (proj1 (onProjWorld_calm position)).
  - apply calm_is_bounded. apply (proj2 (onProjWorld_calm position)).
Qed.

Lemma run_bounded (inputs : list Input) :
  forall g, bounded (length (filter isDamagingHit inputs)) g (run inputs g).
Proof.
  induction inputs as [|i l IH]; intros g; [apply bounded_refl|].
  cbn [run fold_left]. change (fold_left _ l ?x) with (run l x).
  pose proof (bounded_add _ _ g (step i g) (run l (step i g))
                (step_bounded i g) (IH (step i g))) as H.
  cbn [filter]. destruct (isDamagingHit i); exact H.
Qed.

(** X21.  Damage is dealt at most once per hit.  Over any run, a weapon
    with a raycaster sends at most one [takeDamage] event per shot fired --
    the projectile callbacks of its visualisation projectile send none --
    and a weapon without a raycaster sends damage only from the projectile
    callbacks that hit a player or an entity, at most one event each; firing
    itself, reloading, grants and ownership changes send none. *)
Theorem damage_once_per_hit (inputs : list Input) (g : Gun) :
  let g' := run inputs g in
  (damageEvents g <= damageEvents g')%nat /\ (shots g <= shots g')%nat /\
  (raycaster props = true ->
     (damageEvents g' - damageEvents g <= shots g' - shots g)%nat) /\
  (raycaster props = false ->
     (damageEvents g' - damageEvents g <= length (filter isDamagingHit inputs))%nat).
Proof.
  intros g'. destruct (run_bounded inputs g) as (new & L & H). fold g' in L.
  assert (D : damageEvents g' = (damageOf new + damageEvents g)%nat)
    by (unfold damageEvents, damageOf; rewrite L, filter_app, length_app; reflexivity).
  assert (S : shots g' = (firedOf new + shots g)%nat)
    by (unfold shots, tally, firedOf; cbn [fst]; rewrite L, filter_app, length_app;
        reflexivity).
  unfold perShot, perHit in H.
  split; [lia|]. split; [lia|].
  split; intros R; rewrite R in H; lia.
Qed.

(** ** The rate of fire *)

Lemma rate_of_tail (g g' : Gun) : tailView g' = tailView g -> rateView g' = rateView g.
Proof.
  intros E. destruct (tailView_inv _ _ E) as (_ & C & _ & F & T).
  unfold rateView. congruence.
Qed.

Lemma rateView_emit (e : Effect) (g : Gun) :
  isFired e = false -> isCue e = false -> rateView (emit e g) = rateView g.
Proof.
  intros H1 H2. unfold rateView. rewrite tally_emit, H1, H2. reflexivity.
Qed.

Lemma rateView_setters (v : Z) (g : Gun) :
  rateView (set_loadedAmmo v g) = rateView g /\
  rateView (set_reserveAmmo v g) = rateView g.
Proof.
  unfold rateView.
  rewrite attackCooldown_of_set_loadedAmmo, fireDelay_of_set_loadedAmmo,
    tally_of_set_loadedAmmo, attackCooldown_of_set_reserveAmmo,
    fireDelay_of_set_reserveAmmo, tally_of_set_reserveAmmo.
  auto.
Qed.

Lemma rateView_stopFX (l : list FXList) (g : Gun) : rateView (stopFX l g) = rateView g.
Proof.
  unfold rateView. rewrite tally_stopFX. unfold stopFX.
  rewrite attackCooldown_emitAll, fireDelay_emitAll. reflexivity.
Qed.

Ltac rate_leaf :=
  cbv zeta;
  repeat match goal with
  | |- rateView ?g = rateView ?g => reflexivity
  | |- rateView (emit ?e ?x) = _ =>
      transitivity (rateView x); [apply rateView_emit; reflexivity|]
  | |- rateView (set_loadedAmmo ?v ?x) = _ =>
      transitivity (rateView x); [apply rateView_setters|]
  | |- rateView (set_reserveAmmo ?v ?x) = _ =>
      transitivity (rateView x); [apply rateView_setters|]
  | |- rateView (stopFX ?l ?x) = _ =>
      transitivity (rateView x); [apply rateView_stopFX|]
  | |- rateView (resetAutoAttack (resetBurst ?x)) = _ =>
      transitivity (rateView x); [apply rate_of_tail, tailView_timers|]
  | |- rateView (resetReload ?x) = _ =>
      transitivity (rateView x); [apply rate_of_tail, tailView_timers|]
  | |- rateView (with_reloadTimer _ ?x) = _ =>
      transitivity (rateView x); [reflexivity|]
  | |- rateView (with_impactFX _ ?x) = _ =>
      transitivity (rateView x); [reflexivity|]
  | |- rateView (with_missFX _ ?x) = _ =>
      transitivity (rateView x); [reflexivity|]
  | |- rateView (if ?b then _ else _) = _ => destruct b
  | |- rateView (match ?o with Some _ => _ | None => _ end) = _ => destruct o
  end.

Lemma rateView_triggerReload (g : Gun) : rateView (triggerReload g) = rateView g.
Proof. unfold triggerReload. rate_leaf. Qed.

Ltac rate_leaf' :=
  repeat (rate_leaf;
    match goal with
    | |- rateView (triggerReload ?x) = _ =>
        transitivity (rateView x); [apply rateView_triggerReload|]
    end); rate_leaf.

Lemma rateView_pure :
  (forall a g, rateView (onGrantAmmo a g) = rateView g) /\
  (forall p g, rateView (onInputReload p g) = rateView g) /\
  (forall g, rateView (onGrabEnd g) = rateView g) /\
  (forall g, rateView (onReloadTimer g) = rateView g) /\
  (forall l g, rateView (onSyncImpactFX l g) = rateView g) /\
  (forall l g, rateView (onSyncMissFX l g) = rateView g) /\
  (forall s g, rateView (receiveOwnership s g) = rateView g) /\
  (forall g, rateView (snd (transferOwnership g)) = rateView g).
Proof.
  repeat split; intros.
  - unfold onGrantAmmo. rate_leaf'.
  - unfold onInputReload. rate_leaf'.
  - unfold onGrabEnd. rate_leaf'.
  - unfold onReloadTimer. destruct (reloadTimer g) as [[d []]|]; rate_leaf'.
  - unfold onSyncImpactFX, syncFX. cbv zeta. rate_leaf'.
  - unfold onSyncMissFX, syncFX. cbv zeta. rate_leaf'.
  - unfold receiveOwnership. destruct s; rate_leaf'.
  - unfold transferOwnership. cbn [snd]. rate_leaf'.
Qed.

Lemma spent_same (g g' : Gun) :
  rateView g' = rateView g ->
  Z.of_nat (shots g') + credit g' = Z.of_nat (shots g) + credit g.
Proof.
  unfold rateView, credit, pendingShots, shots. intros E.
  assert (attackCooldown g' = attackCooldown g) by congruence.
  assert (fireDelay g' = fireDelay g) by congruence.
  assert (tally g' = tally g) by congruence.
  rewrite H, H0, H1. reflexivity.
Qed.

Lemma spent_of_view (g : Gun) (c : bool) (d : option Z) (s q : nat) :
  tailView g = (ammo g, c, pools g, d, (s, q)) \/
  rateView g = (c, d, (s, q)) ->
  Z.of_nat (shots g) + credit g =
  Z.of_nat s + (match d with Some _ => 1 | None => 0 end) + (if c then 0 else 1).
Proof.
  intros H.
  assert (E : attackCooldown g = c /\ fireDelay g = d /\ tally g = (s, q)).
  { destruct H as [H|H]; [unfold tailView in H|unfold rateView in H];
      repeat split; congruence. }
  destruct E as (E1 & E2 & T).
  unfold credit, pendingShots, shots. rewrite E1, E2, T. cbn [fst]. lia.
Qed.

Lemma spent_triggerAttack (r : RaycastOutcome) (g : Gun) :
  Z.of_nat (shots (stateOf (triggerAttack r g))) + credit (stateOf (triggerAttack r g))
  <= Z.of_nat (shots g) + credit g.
Proof.
  pose proof (triggerAttack_effect r g) as E.
  destruct (canAttack g) eqn:EC.
  - destruct (fireDelay g) eqn:EF.
    + rewrite (spent_same g _ (rate_of_tail _ _ E)). lia.
    + assert (C : attackCooldown g = false)
        by (destruct (attackCooldown g) eqn:K; [|reflexivity];
            rewrite (canAttack_cooling g K) in EC; discriminate).
      assert (A : ammo (stateOf (triggerAttack r g)) = ammo (deduct g) /\
                  pools (stateOf (triggerAttack r g)) = pools g)
        by (destruct (_ || _); unfold tailView in E; split; congruence).
      destruct A as [A P].
      unfold credit at 2. unfold pendingShots. rewrite EF, C.
      destruct (_ || _).
      * rewrite (spent_of_view _ true None (S (shots g)) (outOfAmmoCues g)); [lia|].
        left. rewrite A, P. exact E.
      * rewrite (spent_of_view _ true (Some 50) (shots g) (outOfAmmoCues g)); [lia|].
        left. rewrite A, P. rewrite E. reflexivity.
  - rewrite (spent_of_view _ (attackCooldown g) (fireDelay g) (shots g)
               (if loadedAmmo g <? ammoPerFire props
                then S (outOfAmmoCues g) else outOfAmmoCues g)).
    + unfold credit, pendingShots. lia.
    + left. unfold tailView in E. unfold tailView.
      assert (ammo (stateOf (triggerAttack r g)) = ammo g) by congruence.
      assert (pools (stateOf (triggerAttack r g)) = pools g) by congruence.
      congruence.
Qed.

Lemma spent_cleared (r : RaycastOutcome) (g g' : Gun) :
  tailView g' = tailView (stateOf (triggerAttack r (with_attackCooldown false g))) ->
  Z.of_nat (shots g') + credit g' <= Z.of_nat (shots g) + credit g + 1.
Proof.
  intros E. rewrite (spent_same _ _ (rate_of_tail _ _ E)).
  pose proof (spent_triggerAttack r (with_attackCooldown false g)) as H.
  assert (K : Z.of_nat (shots (with_attackCooldown false g)) +
              credit (with_attackCooldown false g) <= Z.of_nat (shots g) + credit g + 1).
  { unfold credit, pendingShots, shots, tally. cbn.
    destruct (attackCooldown g), (fireDelay g); lia. }
  lia.
Qed.

Lemma spent_step (i : Input) (g : Gun) :
  Z.of_nat (shots (step i g)) + credit (step i g) <=
  Z.of_nat (shots g) + credit g + (if clearsCooldown i then 1 else 0).
Proof.
  destruct rateView_pure as (P1 & P2 & P3 & P4 & P5 & P6 & P7 & P8).
  destruct onProj_shotView as (Q1 & Q2 & Q3 & Q4).
  assert (Hsame : forall g', rateView g' = rateView g ->
            Z.of_nat (shots g') + credit g' <= Z.of_nat (shots g) + credit g + 0)
    by (intros g' E; rewrite (spent_same g g' E); lia).
  assert (Hshot : forall g', shotView g' = shotView g ->
            Z.of_nat (shots g') + credit g' <= Z.of_nat (shots g) + credit g + 0)
    by (intros g' E; apply Hsame, rate_of_tail, tailView_of_shotView, E).
  unfold step. destruct i; cbn [dispatch exec stateOf clearsCooldown]; auto;
    try (apply Hshot; apply Q1 || apply Q2 || apply Q3 || apply Q4).
  - unfold onInputAttack. destruct pressed; cbn [negb exec stateOf].
    + pose proof (spent_triggerAttack r g). lia.
    + apply Hsame, rate_of_tail, tailView_timers.
  - unfold onFireDelay. destruct (fireDelay g) eqn:EF; [|apply Hsame; reflexivity].
    pose proof (finishFiring_effect r g) as E.
    rewrite (spent_of_view _ (attackCooldown g) None (S (shots g)) (outOfAmmoCues g)).
    + unfold credit, pendingShots. rewrite EF. lia.
    + left. unfold tailView in E. unfold tailView.
      assert (ammo (stateOf (finishFiring r g)) = ammo g) by congruence.
      assert (pools (stateOf (finishFiring r g)) = pools g) by congruence.
      congruence.
  - unfold onCooldownElapsed. destruct (attackCooldownTimer g);
      [|pose proof (Hsame g eq_refl); lia].
    unfold credit, pendingShots, shots, tally. cbn.
    destruct (attackCooldown g), (fireDelay g); lia.
  - destruct (tailView_ticks r g) as [E _].
    destruct (bulletBurstTimer g);
      [destruct (currentBurstCount g =? 0)|];
      try (pose proof (Hsame _ (rate_of_tail _ _ E)); lia).
    apply (spent_cleared r), E.
  - destruct (tailView_ticks r g) as [_ E].
    destruct (autoAttackTimer g);
      [|pose proof (Hsame _ (rate_of_tail _ _ E)); lia].
    apply (spent_cleared r), E.
Qed.

Lemma spent_run (inputs : list Input) :
  forall g, Z.of_nat (shots (run inputs g)) + credit (run inputs g) <=
            Z.of_nat (shots g) + credit g +
            Z.of_nat (length (filter clearsCooldown inputs)).
Proof.
  induction inputs as [|i l IH]; intros g; [cbn; lia|].
  cbn [run fold_left]. change (fold_left _ l ?x) with (run l x).
  pose proof (IH (step i g)) as H1. pose proof (spent_step i g) as H2.
  cbn [filter]. destruct (clearsCooldown i); cbn [length]; lia.
Qed.

(** X4.  The rate of fire is bounded by the timers.  Over any run
    whatever -- trigger presses, reloads, grants, hits, ownership changes,
    timer callbacks in any order -- the shots fired number at most one for
    every callback that clears the cooldown (the cooldown timer, a burst
    tick, an auto-attack tick), plus the shot whose fire delay was pending at
    the start, plus one if the weapon was not cooling down at the start. *)
Theorem fire_rate_is_bounded (inputs : list Input) (g : Gun) :
  (shots (run inputs g) <=
   shots g + length (filter clearsCooldown inputs)
   + (match fireDelay g with Some _ => 1 | None => 0 end)
   + (if attackCooldown g then 0 else 1))%nat.
Proof.
  pose proof (spent_run inputs g) as H.
  assert (C : 0 <= credit (run inputs g))
    by (unfold credit, pendingShots;
        destruct (fireDelay (run inputs g)), (attackCooldown (run inputs g)); lia).
  unfold credit, pendingShots in H, C.
  destruct (fireDelay g), (attackCooldown g); lia.
Qed.
End Component.

(** ** Concrete runs *)

(** Scenario A of the specification: ten shots empty the clip, the eleventh
    is refused with the out-of-ammo cue, and a reload then moves ten rounds
    from the reserve. *)
Example scenario_A :
  let shot := [AttackInput true missOutcome; FireDelayElapsed missOutcome;
               CooldownElapsed] in
  let g0 := preStart defaultProps newGun in
  let g10 := run defaultProps Desktop (concat (repeat shot 10)) g0 in
  let g11 := run defaultProps Desktop shot g10 in
  let g12 := step defaultProps Desktop (ReloadInput true) g11 in
  (loadedAmmo g0, reserveAmmo g0) = (10, 20) /\
  (loadedAmmo g10, shots g10, outOfAmmoCues g10) = (0, 10%nat, 0%nat) /\
  (loadedAmmo g11, shots g11, outOfAmmoCues g11) = (0, 10%nat, 1%nat) /\
  (loadedAmmo g12, reserveAmmo g12) = (10, 10).
Proof. vm_compute. repeat split. Qed.

(** A negative index, which no run produces, would make the retrieval
    throw: the non-negativity of the stored index is what keeps it total. *)
Example negative_index_throws :
  threw (getImpactFX (with_nextImpactFXIdx (-1) (pooledGun 10 20))) = true.
Proof. reflexivity. Qed.

Lemma loaded_never_negative_witness :
  0 <= loadedAmmo (gunWith 1 0) /\
  Forall (fun g' => 0 <= loadedAmmo g')
    (states defaultProps Desktop
       [AttackInput true missOutcome; FireDelayElapsed missOutcome;
        CooldownElapsed; AttackInput true missOutcome]
       (gunWith 1 0)).
Proof.
  assert (H : 0 <= loadedAmmo (gunWith 1 0)) by (simpl; lia).
  split; [exact H|].
  exact (proj1 (loaded_never_negative defaultProps Desktop (gunWith 1 0) _ H)).
Defined.

Lemma setters_clamp_witness :
  loadedAmmo (set_loadedAmmo defaultProps 25 (gunWith 3 4)) =
    clamp 25 0 (clipSize defaultProps) /\
  reserveAmmo (set_reserveAmmo defaultProps 25 (gunWith 3 4)) =
    clamp 25 0 (maxAmmo defaultProps - loadedAmmo (gunWith 3 4)).
Proof.
  apply (setters_clamp defaultProps (gunWith 3 4) 25); simpl; lia.
Defined.

Lemma transfer_round_trip_witness :
  ammo_inv defaultProps (pooledGun 4 12) /\
  loadedAmmo (receiveOwnership defaultProps
                (Some (fst (transferOwnership defaultProps (pooledGun 4 12))))
                (gunWith 10 20)) = 4.
Proof.
  assert (H : ammo_inv defaultProps (pooledGun 4 12))
    by (unfold ammo_inv; simpl; lia).
  split; [exact H|].
  exact (proj1 (transfer_round_trip defaultProps (pooledGun 4 12) (gunWith 10 20) H)).
Defined.


Lemma unlimited_ammo_never_blocks_witness :
  ammoPerFire unlimitedProps <= 0 /\
  canAttack unlimitedProps (gunWith 0 0) = true /\
  triggerReload unlimitedProps (gunWith 0 0) = gunWith 0 0 /\
  shots (step unlimitedProps Desktop (FireDelayElapsed missOutcome)
           (stateOf (triggerAttack unlimitedProps Desktop missOutcome (gunWith 0 0))))
  = 1%nat.
Proof.
  assert (H : ammoPerFire unlimitedProps <= 0) by (simpl; lia).
  split; [exact H|].
  pose proof (unlimited_ammo_never_blocks unlimitedProps Desktop (gunWith 0 0)
                missOutcome H) as (_ & C & _ & _ & R & A).
  split; [exact C|]. split; [exact R|].
  exact (proj2 (proj2 (proj2 (proj2 (A eq_refl eq_refl)))) missOutcome).
Defined.



Lemma visualisation_launch_witness :
  exists g',
    fireWithRaycast tracerProps Desktop missOutcome (gunWith 10 20) = Ok tt g' /\
    log g' = [Launch 150 (30 / 150) false].
Proof.
  destruct (visualisation_launch tracerProps Desktop (gunWith 10 20) missOutcome
              eq_refl eq_refl) as (g' & E & L & _).
  exists g'. split; [exact E|exact L].
Defined.

Lemma write_notifies_on_change_only_witness :
  set_loadedAmmo defaultProps 5 (gunWith 5 20) = gunWith 5 20.
Proof.
  apply (proj1 (write_notifies_on_change_only defaultProps (gunWith 5 20) 5)).
  reflexivity.
Defined.

Lemma pool_retrieval_total_witness :
  let g := run defaultProps Desktop
             [SyncImpactFX [{| fx := [1%nat; 2%nat] |}; {| fx := [3%nat] |}];
              AttackInput true hitOutcome; FireDelayElapsed hitOutcome]
             (preStart defaultProps newGun) in
  reachable defaultProps Desktop g /\
  0 <= js_rem (nextImpactFXIdx g) (Z.of_nat (length (impactFX g)))
    < Z.of_nat (length (impactFX g)).
Proof.
  cbv zeta.
  assert (H : reachable defaultProps Desktop
                (run defaultProps Desktop
                   [SyncImpactFX [{| fx := [1%nat; 2%nat] |}; {| fx := [3%nat] |}];
                    AttackInput true hitOutcome; FireDelayElapsed hitOutcome]
                   (preStart defaultProps newGun)))
    by (eexists; reflexivity).
  split; [exact H|].
  pose proof (pool_retrieval_total defaultProps Desktop _ H) as (_ & _ & I & _).
  apply I. vm_compute. discriminate.
Defined.

(** ** Where the specification and the code part *)



(** C8 as stated does not hold: on a hit with no spray the projectile is
    launched at once, without a rotation being set, and its duration is
    [(6 + 4) / 150], not [6 / 150]. *)
Lemma launch_on_hit_is_immediate_and_longer :
  log (stateOf (fireWithRaycast tracerProps Desktop hitOutcome (gunWith 10 20))) =
    [TakeDamage 42%nat 10 (0, 0, 6)%Q; Launch 150 ((6 + 4) / 150) false] /\
  ~ ((6 + 4) / 150 ==
     launcherDistance hitOutcome / projectileSpeed tracerProps)%Q.
Proof.
  split; [reflexivity|]. vm_compute. discriminate.
Qed.

(** C9 as stated does not hold: writing the value that is already stored,
    twice, emits no [loadedAmmoChanged] at all rather than exactly one. *)
Lemma repeated_noop_write_emits_nothing :
  loadedAmmoEvents (gunWith 5 20) = 0%nat /\
  loadedAmmoEvents
    (set_loadedAmmo defaultProps 5 (set_loadedAmmo defaultProps 5 (gunWith 5 20)))
  = 0%nat.
Proof. split; reflexivity. Qed.

(** ** Concrete runs of the further properties *)

Lemma reachable_ammo_inv_witness :
  ammo_inv defaultProps
    (run defaultProps Desktop [AttackInput true missOutcome; GrantAmmo 5]
       (preStart defaultProps newGun)).
Proof.
  apply (reachable_ammo_inv defaultProps Desktop).
  - unfold sane_config; simpl; lia.
  - exists [AttackInput true missOutcome; GrantAmmo 5]. reflexivity.
Defined.

Lemma ammo_books_balance_witness :
  ammo_inv defaultProps
    (run defaultProps Desktop
       [AttackInput true missOutcome; FireDelayElapsed missOutcome;
        CooldownElapsed; ReloadInput true]
       (gunWith 10 20)).
Proof.
  assert (HA : 0 <= ammoPerFire defaultProps) by (simpl; lia).
  assert (HI : ammo_inv defaultProps (gunWith 10 20))
    by (unfold ammo_inv; simpl; lia).
  exact (proj1 (ammo_books_balance defaultProps Desktop
                  [AttackInput true missOutcome; FireDelayElapsed missOutcome;
                   CooldownElapsed; ReloadInput true]
                  (gunWith 10 20) HA HI eq_refl)).
Defined.

Lemma release_stops_firing_witness :
  let g := run burstProps Desktop
             [AttackInput true missOutcome; FireDelayElapsed missOutcome]
             (gunWith 10 20) in
  shots (run burstProps Desktop
           [BurstTick missOutcome; AutoAttackTick missOutcome; CooldownElapsed]
           (step burstProps Desktop (AttackInput false missOutcome) g))
  = shots g.
Proof.
  intros g.
  pose proof (release_stops_firing burstProps Desktop g missOutcome
                [BurstTick missOutcome; AutoAttackTick missOutcome; CooldownElapsed]
                eq_refl) as (_ & _ & _ & _ & _ & H).
  exact (H eq_refl).
Defined.

Lemma grab_end_does_not_cancel_fire_delay_witness :
  let g := step defaultProps Desktop (AttackInput true missOutcome) (gunWith 10 20) in
  let g1 := fst (handle defaultProps Desktop oneHanded (Callback GrabEnd)
                   (g, newHold true)) in
  fireDelay g1 = fireDelay g /\
  shots (run defaultProps Desktop [FireDelayElapsed missOutcome; CooldownElapsed]
           (dispose (snd (transferOwnership defaultProps g1)))) = shots g.
Proof.
  intros g g1.
  pose proof (grab_end_does_not_cancel_fire_delay defaultProps Desktop oneHanded
                g (newHold true) [FireDelayElapsed missOutcome; CooldownElapsed]
                eq_refl)
    as (_ & _ & _ & _ & _ & _ & F & _ & _ & _ & S & _).
  split; [exact F|exact S].
Defined.

Lemma dispose_silences_witness :
  let g := run burstProps Desktop
             [AttackInput true missOutcome; FireDelayElapsed missOutcome]
             (pooledGun 10 20) in
  tally (run burstProps Desktop
           [BurstTick missOutcome; ReloadTimerElapsed; FireDelayElapsed missOutcome]
           (dispose g)) = tally g.
Proof.
  intros g.
  pose proof (dispose_silences burstProps Desktop g
                [BurstTick missOutcome; ReloadTimerElapsed; FireDelayElapsed missOutcome]
                eq_refl) as (_ & _ & _ & _ & _ & _ & _ & _ & _ & H & _).
  exact H.
Defined.

Lemma grant_is_capped_witness :
  totalAmmo (step defaultProps Desktop (GrantAmmo 100) (gunWith 10 15)) =
  Z.max (loadedAmmo (gunWith 10 15))
        (Z.min (totalAmmo (gunWith 10 15) + 100) (maxAmmo defaultProps)).
Proof.
  assert (HA : 0 <= ammoPerFire defaultProps) by (simpl; lia).
  assert (HI : ammo_inv defaultProps (gunWith 10 15))
    by (unfold ammo_inv; simpl; lia).
  exact (proj1 (grant_is_capped defaultProps Desktop 100 (gunWith 10 15) HA HI)).
Defined.

Lemma auto_reload_after_last_round_witness :
  reloadTimer (stateOf (finishFiring autoReloadProps Desktop missOutcome (gunWith 0 20)))
  = Some (500, AutoReloadDue).
Proof.
  assert (HA : 0 < ammoPerFire autoReloadProps) by (simpl; lia).
  assert (HI : ammo_inv autoReloadProps (gunWith 0 20))
    by (unfold ammo_inv; simpl; lia).
  assert (HP : pool_inv (gunWith 0 20)) by (unfold pool_inv; simpl; lia).
  exact (proj1 (auto_reload_after_last_round autoReloadProps Desktop missOutcome
                  (gunWith 0 20) eq_refl HA HI HP eq_refl)).
Defined.

Lemma impact_pool_round_robin_witness :
  let g := run defaultProps Desktop
             [SyncImpactFX [ {| fx := [1%nat] |}; {| fx := [2%nat] |} ]]
             (preStart defaultProps newGun) in
  exists g', retrieveImpactFX 3 g = Ok [[1%nat]; [2%nat]; [1%nat]] g'.
Proof.
  intros g.
  assert (R : reachable defaultProps Desktop g)
    by (exists [SyncImpactFX [ {| fx := [1%nat] |}; {| fx := [2%nat] |} ]]; reflexivity).
  assert (N : impactFX g <> []) by (simpl; discriminate).
  destruct (impact_pool_round_robin defaultProps Desktop 3 g R N) as (g' & E & _).
  exists g'. exact E.
Defined.

Lemma ammo_display_tracks_witness :
  let inputs := [AttackInput true missOutcome; FireDelayElapsed missOutcome;
                 GrantAmmo 3] in
  let g' := run defaultProps Desktop inputs (gunWith 10 15) in
  exists new, log g' = new ++ log (gunWith 10 15) /\
    ui_loadedAmmo
      (notifyAll new
         (onSetAmmoSource (ammoSourceOf defaultProps true (gunWith 10 15)) newAmmoUI))
    = loadedAmmo g'.
Proof.
  intros inputs g'.
  assert (C : sane_config defaultProps) by (unfold sane_config; simpl; lia).
  assert (HI : ammo_inv defaultProps (gunWith 10 15))
    by (unfold ammo_inv; simpl; lia).
  destruct (ammo_display_tracks defaultProps Desktop inputs true newAmmoUI
              (gunWith 10 15) C HI) as (new & L & A & _).
  exists new. split; [exact L|exact A].
Defined.

Lemma inputs_follow_the_hands_witness :
  let events := [OnGrabStart true; Callback (AttackInput true missOutcome);
                 Callback GrabEnd; OnMultiGrabStart] in
  let h' := snd (play defaultProps Desktop oneHanded events
                   (gunWith 10 20, newHold true)) in
  hold_inv defaultProps Desktop oneHanded (newHold true) /\
  ammoUIVisible h' = held h'.
Proof.
  intros events h'.
  assert (H : hold_inv defaultProps Desktop oneHanded (newHold true))
    by (unfold hold_inv; simpl; repeat split; intros; try discriminate; reflexivity).
  split; [exact H|].
  pose proof (inputs_follow_the_hands defaultProps Desktop oneHanded events
                (gunWith 10 20) (newHold true) H) as (_ & _ & _ & V).
  exact (V eq_refl eq_refl).
Defined.

Lemma two_handed_vr_needs_both_hands_witness :
  mainHand (snd (handle defaultProps VR twoHanded (OnGrabStart false)
                   (gunWith 10 20, newHold false))) = Some RightHand.
Proof.
  exact (proj1 (two_handed_vr_needs_both_hands defaultProps VR twoHanded false
                  (gunWith 10 20) (newHold false)
                  [Callback (AttackInput true missOutcome)]
                  eq_refl eq_refl eq_refl eq_refl eq_refl eq_refl)).
Defined.

Lemma dropped_weapon_is_inert_witness :
  let events := [Callback (AttackInput true missOutcome);
                 Callback (FireDelayElapsed missOutcome);
                 Callback CooldownElapsed; Callback (ReloadInput true)] in
  shots (fst (play defaultProps Desktop oneHanded events
                (handle defaultProps Desktop oneHanded (Callback GrabEnd)
                   (gunWith 5 20, newHold true)))) = shots (gunWith 5 20).
Proof.
  intros events.
  pose proof (dropped_weapon_is_inert defaultProps Desktop oneHanded events
                (gunWith 5 20) (newHold true) eq_refl eq_refl)
    as (_ & _ & _ & _ & H & _).
  exact H.
Defined.

Lemma grants_reach_a_held_weapon_witness :
  let events := [OnGrabStart true; Callback (GrantAmmo 3); Callback GrabEnd;
                 OnGrabStart false] in
  grant_inv (newHold false) /\
  liveGrants (snd (play defaultProps Desktop oneHanded events
                     (gunWith 10 15, newHold false))) = 1%nat.
Proof.
  intros events.
  assert (H : grant_inv (newHold false))
    by (unfold grant_inv; simpl; split; [reflexivity|discriminate]).
  split; [exact H|].
  exact (proj1 (grants_reach_a_held_weapon defaultProps Desktop oneHanded events
                  3 true (gunWith 10 15) (newHold false) H eq_refl)).
Defined.

Lemma auth_spawn_is_idempotent_witness :
  assetSpawner defaultProps = true /\
  exists sa1,
    snd (authSpawnFX defaultProps bothFX true [1%nat] [2%nat]
           (Some {| spawners := [] |})) = Some sa1 /\
    authSpawnFX defaultProps bothFX true [3%nat] [4%nat] (Some sa1)
    = (None, None, Some sa1).
Proof.
  split; [reflexivity|].
  destruct (auth_spawn_is_idempotent defaultProps bothFX [1%nat] [2%nat]
              [3%nat] [4%nat] {| spawners := [] |} 7%nat 0 (fun _ => [])
              eq_refl) as (sa1 & E & _ & _ & _ & H & _).
  exists sa1. split; [exact E|exact H].
Defined.

Lemma despawn_removes_owning_spawners_witness :
  distinctRoots twoSpawns /\
  spawners (onDespawnAssets [2%nat] twoSpawns) =
  [ {| asset := 8%nat; rootEntities := [3%nat] |} ].
Proof.
  assert (H : distinctRoots twoSpawns)
    by (unfold distinctRoots; simpl; repeat constructor; simpl; lia).
  split; [exact H|].
  exact (proj1 (despawn_removes_owning_spawners [2%nat] [] [] twoSpawns H)).
Defined.
